(** * faidx.c : the [samtools faidx] / [samtools fqidx] front end

    A shallow embedding of [src/faidx.c] and the properties its
    specification states about it.

    The program is a thin driver around htslib.  Everything it calls and
    does not define (the index library, the C library's streams, [getopt],
    [atoi]) is a collaborator here: its answers come from a record [Env],
    and its calls are recorded, in order, in an event trace.  The code of
    [faidx.c] itself is translated function by function, under the names
    it has in the source. *)

From Stdlib Require Import ZArith List String Ascii Bool Lia.
Import ListNotations.

Local Open Scope Z_scope.
Local Infix "+++" := String.append (right associativity, at level 60).

(** ** C-level constants and integer conversions *)

Definition EXIT_SUCCESS : Z := 0.
Definition EXIT_FAILURE : Z := 1.
Definition EOF : Z := -1.
Definition INT_MAX : Z := 2147483647.
Definition INT_MIN : Z := -2147483648.
Definition DEFAULT_FASTA_LINE_LEN : Z := 60.

(** A value stored into an [int]: 32 bits, two's complement. *)
Definition to_int (z : Z) : Z := (z + 2 ^ 31) mod 2 ^ 32 - 2 ^ 31.

(** A value converted to [size_t]: 64 bits, unsigned. *)
Definition to_size_t (z : Z) : Z := z mod 2 ^ 64.

Definition nl : ascii := "010"%char.
Definition NL : string := String nl EmptyString.
Definition DQUOTE : string := String "034"%char EmptyString.

(** htslib's [enum fai_format_options], as far as this file uses it. *)
Inductive fai_format_options := FAI_FASTA | FAI_FASTQ.

Definition format_eqb (a b : fai_format_options) : bool :=
  match a, b with
  | FAI_FASTA, FAI_FASTA | FAI_FASTQ, FAI_FASTQ => true
  | _, _ => false
  end.

(** ** The C library's output streams

    A stream is what has been written to it so far, the number of bytes the
    device behind it still accepts ([None]: no limit), and its error
    indicator.  A write that does not fit is short and sets the
    indicator; [fflush] fails when the indicator is set. *)

Record FILE := mkFILE {
  contents : list ascii;
  room : option nat;
  ferror : bool
}.

Definition FILE_write (bs : list ascii) (f : FILE) : nat * FILE :=
  match room f with
  | None =>
      (List.length bs, mkFILE (contents f ++ bs) None (ferror f))
  | Some r =>
      if (List.length bs <=? r)%nat
      then (List.length bs,
            mkFILE (contents f ++ bs) (Some (r - List.length bs)%nat) (ferror f))
      else (r, mkFILE (contents f ++ firstn r bs) (Some 0%nat) true)
  end.

(** ** Collaborators *)

(** What [fai_fetch] and [fai_fetchqual] hand back: the buffer and the
    value stored through the length pointer (negative on failure, [-2]
    when the sequence is not in the index). *)
Definition fetched : Type := list ascii * Z.

(** A loaded index, seen through the two calls the program makes on it. *)
Record faidx_t := mkFaidx {
  fai_fetch : string -> fetched;
  fai_fetchqual : string -> fetched
}.

(** A region file opened for reading: the lines [kgetline] will return. *)
Definition hFILE : Type := list string.

Record Env := mkEnv {
  atoi : string -> Z;
  hts_parse_reg : string -> option (Z * Z);
  fai_build : string -> Z;
  fai_load_format : string -> fai_format_options -> option faidx_t;
  fopen : string -> option FILE;
  hopen : string -> option hFILE;
  hclose : Z;
  strerror_errno : string
}.

(** Calls that acquire, use or release a resource, in program order. *)
Inductive buffer := Seq | Qual.

Inductive event :=
| Efai_build (fn : string)
| Efai_load_format (fn : string) (format : fai_format_options)
| Efai_fetch (name : string)
| Efai_fetchqual (name : string)
| Efai_destroy
| Efopen (path : string)
| Ehopen (path : string)
| Ehclose
| Efflush
| Efclose
| Efree (b : buffer).

(** ** Program state and the monad the translation lives in

    The two streams the program writes records to are [stdout] and the
    file it opens for [-o]; [std] and [usr] are their states ([usr] means
    nothing before the [fopen]).  [err] holds the messages sent to
    [stderr], one per call.  A computation may also have no result
    ([None]): the loop of [write_line] does not terminate for a line
    length of zero on a stream that takes every write, and the behaviour
    of [write_output] is undefined when it passes a buffer to [free] a
    second time. *)

Inductive outstream := stdout | fopened.
Inductive stream := to_out (o : outstream) | stderr.
Coercion to_out : outstream >-> stream.

Record State := mkState {
  std : FILE;
  usr : FILE;
  err : list string;
  trace : list event
}.

Definition get_out (o : outstream) (s : State) : FILE :=
  match o with
  | stdout => std s
  | fopened => usr s
  end.

Definition set_out (o : outstream) (f : FILE) (s : State) : State :=
  match o with
  | stdout => mkState f (usr s) (err s) (trace s)
  | fopened => mkState (std s) f (err s) (trace s)
  end.

Definition M (A : Type) : Type := State -> option (A * State).

Definition ret {A} (a : A) : M A := fun s => Some (a, s).

Definition bind {A B} (m : M A) (k : A -> M B) : M B :=
  fun s => match m s with
           | Some (a, s') => k a s'
           | None => None
           end.

Definition diverge {A} : M A := fun _ => None.

(** Undefined behaviour: the C standard gives the program no result from
    here on. *)
Definition undefined {A} : M A := fun _ => None.

Notation "x <- m ;; k" := (bind m (fun x => k))
  (at level 61, m at next level, right associativity).
Notation "m ;;; k" := (bind m (fun _ => k))
  (at level 61, right associativity).

Definition eprintf (msg : string) : M unit :=
  fun s => Some (tt, mkState (std s) (usr s) (err s ++ [msg]) (trace s)).

Definition call (e : event) : M unit :=
  fun s => Some (tt, mkState (std s) (usr s) (err s) (trace s ++ [e])).

Definition fwrite (bs : list ascii) (file : outstream) : M nat :=
  fun s => let (n, f) := FILE_write bs (get_out file s) in
           Some (n, set_out file f s).

Definition fputc (c : ascii) (file : outstream) : M Z :=
  n <- fwrite [c] file ;;
  ret (if (n <? 1)%nat then EOF else Z.of_nat (nat_of_ascii c)).

Definition fprintf (fp : stream) (text : string) : M unit :=
  match fp with
  | to_out file => fwrite (list_ascii_of_string text) file ;;; ret tt
  | stderr => eprintf text
  end.

Definition fflush (file : outstream) : M Z :=
  call Efflush ;;;
  fun s => Some (if ferror (get_out file s) then EOF else 0, s).

(** Modelled from the spec: [print_error_errno], declared in [samtools.h]
    and defined outside [faidx.c], reports a failure on [stderr] "with the
    underlying system error text". *)
Definition print_error_errno (E : Env) (subcommand text : string) : M unit :=
  eprintf ("samtools " +++ subcommand +++ ": " +++ text +++ ": "
           +++ strerror_errno E +++ NL).

(** ** [write_line] *)

(** The [for] loop of [write_line].  [fuel] bounds the number of
    iterations. *)
Fixpoint write_line_loop (E : Env) (fuel : nat) (file : outstream)
    (line : list ascii) (length seq_sz i : Z) : M Z :=
  if i <? seq_sz then
    match fuel with
    | O => diverge
    | S fuel' =>
        let len := if to_size_t (i + to_size_t length) <? seq_sz
                   then to_size_t length
                   else to_size_t (seq_sz - i) in
        n <- fwrite (firstn (Z.to_nat len) (skipn (Z.to_nat i) line)) file ;;
        if Z.of_nat n <? len then
          print_error_errno E "faidx" "failed to write output" ;;;
          ret EXIT_FAILURE
        else
          c <- fputc nl file ;;
          if c =? EOF then
            print_error_errno E "faidx" "failed to write output" ;;;
            ret EXIT_FAILURE
          else
            write_line_loop E fuel' file line length seq_sz
                            (to_size_t (i + to_size_t length))
    end
  else ret EXIT_SUCCESS.

(** The iterations a stream leaves to the loop whatever the line length:
    every iteration writes a newline, so that a stream with room for [r]
    bytes ends the loop within [r + 1] iterations. *)
Definition room_fuel (f : FILE) : nat :=
  match room f with
  | Some r => S r
  | None => O
  end.

(** [hts_parse_reg] gives [0 <= beg <= end_], so that [end_ - beg] is
    within [int].  The loop gets the fuel of [seq_sz] iterations, enough
    for a line length of at least one, and that of [room_fuel], enough
    on a stream with a limit whatever the line length: with a line
    length of zero it runs out of fuel only on a stream without limit,
    where the loop of the source does not end. *)
Definition write_line (E : Env) (file : outstream) (line : list ascii)
    (name : string) (ignore : bool) (length seq_len : Z) : M Z :=
  if seq_len <? 0 then
    fprintf stderr ("[faidx] Failed to fetch sequence in " +++ name +++ NL) ;;;
    if ignore && (seq_len =? -2) then ret EXIT_SUCCESS
    else ret EXIT_FAILURE
  else
    (if seq_len =? 0 then
       fprintf stderr ("[faidx] Zero length sequence: " +++ name +++ NL)
     else
       match hts_parse_reg E name with
       | Some (beg, end_) =>
           if (end_ <? INT_MAX) && negb (seq_len =? end_ - beg) then
             fprintf stderr ("[faidx] Truncated sequence: " +++ name +++ NL)
           else ret tt
       | None => ret tt
       end) ;;;
    let seq_sz := to_size_t seq_len in
    fun s =>
      write_line_loop E (Z.to_nat seq_sz + room_fuel (get_out file s))
                      file line length seq_sz 0 s.

(** ** [write_output] *)

(** The calls to [free] are kept in the trace, each with the buffer it is
    given.  [fai_fetch] returns the null pointer when it fails, that is,
    when the length it stores is negative, and a buffer otherwise.  At
    line 110 [seq] is passed to [free] after line 102 has done so: for the
    null pointer nothing happens; for a buffer the behaviour is
    undefined. *)
Definition free_again (b : buffer) (null : bool) : M unit :=
  if null then call (Efree b) else undefined.
Definition write_output (E : Env) (faid : faidx_t) (file : outstream)
    (name : string) (ignore : bool) (length : Z)
    (format : fai_format_options) : M Z :=
  call (Efai_fetch name) ;;;
  let seq := fst (fai_fetch faid name) in
  let seq_len := to_int (snd (fai_fetch faid name)) in
  let seq_null := seq_len <? 0 in
  (if format_eqb format FAI_FASTA then
     fprintf file (">" +++ name +++ NL)
   else
     fprintf file ("@" +++ name +++ NL)) ;;;
  r <- write_line E file seq name ignore length seq_len ;;
  if r =? EXIT_FAILURE then
    call (Efree Seq) ;;;
    ret EXIT_FAILURE
  else
    call (Efree Seq) ;;;
    if format_eqb format FAI_FASTQ then
      fprintf file ("+" +++ NL) ;;;
      call (Efai_fetchqual name) ;;;
      let qual := fst (fai_fetchqual faid name) in
      let seq_len := to_int (snd (fai_fetchqual faid name)) in
      r <- write_line E file qual name ignore length seq_len ;;
      if r =? EXIT_FAILURE then
        free_again Seq seq_null ;;;
        ret EXIT_FAILURE
      else
        call (Efree Qual) ;;;
        ret EXIT_SUCCESS
    else ret EXIT_SUCCESS.

(** ** [read_regions_from_file] *)

(** The [while] loop over [kgetline]; [ret0] is the variable [ret]. *)
Fixpoint read_regions_loop (E : Env) (faid : faidx_t) (in_file : hFILE)
    (file : outstream) (ignore : bool) (length : Z)
    (format : fai_format_options) (ret0 : Z) : M Z :=
  match in_file with
  | [] => ret ret0
  | line :: in_file' =>
      r <- write_output E faid file line ignore length format ;;
      if r =? EXIT_FAILURE then ret r
      else read_regions_loop E faid in_file' file ignore length format r
  end.

Definition read_regions_from_file (E : Env) (faid : faidx_t)
    (in_file : hFILE) (file : outstream) (ignore : bool) (length : Z)
    (format : fai_format_options) : M Z :=
  read_regions_loop E faid in_file file ignore length format EXIT_FAILURE.

(** ** [usage] *)

Definition usage (fp : stream) (format : fai_format_options)
    (exit_status : Z) : M Z :=
  let tool := if format_eqb format FAI_FASTA
              then "faidx <file.fa|file.fa.gz>"%string
              else "fqidx <file.fq|file.fq.gz>"%string in
  let file_type := if format_eqb format FAI_FASTA
                   then "FASTA"%string else "FASTQ"%string in
  fprintf fp ("Usage: samtools " +++ tool +++ " [<reg> [...]]" +++ NL) ;;;
  fprintf fp ("Option: " +++ NL
    +++ " -o, --output      FILE Write " +++ file_type +++ " to file." +++ NL
    +++ " -n, --length      INT  Length of " +++ file_type
    +++ " sequence line. [60]" +++ NL
    +++ " -c, --continue         Continue after trying to retrieve missing region."
    +++ NL
    +++ " -r, --region-file FILE File of regions.  Format is chr:from-to. One per line."
    +++ NL) ;;;
  (if format_eqb format FAI_FASTA then
     fprintf fp (" -f, --fastq            File and index in FASTQ format." +++ NL)
   else ret tt) ;;;
  fprintf fp (" -h, --help             This message." +++ NL) ;;;
  ret exit_status.

(** ** [faidx_core] *)

(** The local variables of [faidx_core] that the option loop sets. *)
Record locals := mkLocals {
  ignore_error : bool;
  line_len : Z;
  output_file : option string;
  region_file : option string;
  format : fai_format_options
}.

Definition locals_init (format : fai_format_options) : locals :=
  mkLocals false DEFAULT_FASTA_LINE_LEN None None format.

(** The decimal text of the default line length, as [%d] prints it. *)
Definition DEFAULT_FASTA_LINE_LEN_text : string := "60".

(** The [while] loop over [getopt_long].  [opts] lists what the
    successive calls return, the option character with [optarg]; the
    result is [inl] of the status when the loop returns from
    [faidx_core], [inr] of the variables when it runs to its end.
    [faidx.c] leaves [opterr] as it is, so that [getopt_long] prints a
    line on [stderr] before it returns ['?'], for an option it does not
    know or an argument that is missing: that line comes with the ['?']
    in the place of [optarg]. *)
Fixpoint getopt_loop (E : Env) (opts : list (ascii * string)) (v : locals)
    : M (Z + locals) :=
  match opts with
  | [] => ret (inr v)
  | (c, optarg) :: opts' =>
      if (c =? "o")%char then
        getopt_loop E opts'
          (mkLocals (ignore_error v) (line_len v) (Some optarg)
                    (region_file v) (format v))
      else if (c =? "n")%char then
        let line_len := to_int (atoi E optarg) in
        if line_len <? 1 then
          fprintf stderr ("[faidx] bad line length '" +++ optarg
                          +++ "', using default:"
                          +++ DEFAULT_FASTA_LINE_LEN_text +++ NL) ;;;
          getopt_loop E opts'
            (mkLocals (ignore_error v) DEFAULT_FASTA_LINE_LEN (output_file v)
                      (region_file v) (format v))
        else
          getopt_loop E opts'
            (mkLocals (ignore_error v) line_len (output_file v)
                      (region_file v) (format v))
      else if (c =? "c")%char then
        getopt_loop E opts'
          (mkLocals true (line_len v) (output_file v)
                    (region_file v) (format v))
      else if (c =? "r")%char then
        getopt_loop E opts'
          (mkLocals (ignore_error v) (line_len v) (output_file v)
                    (Some optarg) (format v))
      else if (c =? "f")%char then
        getopt_loop E opts'
          (mkLocals (ignore_error v) (line_len v) (output_file v)
                    (region_file v) FAI_FASTQ)
      else if (c =? "?")%char then
        eprintf optarg ;;;
        r <- usage stderr (format v) EXIT_FAILURE ;; ret (inl r)
      else if (c =? "h")%char then
        r <- usage stdout (format v) EXIT_SUCCESS ;; ret (inl r)
      else getopt_loop E opts' v
  end.

(** The [while] loop over the positional regions, [argv[optind+1]] and
    on. *)
Fixpoint positional_loop (E : Env) (fai : faidx_t) (file_out : outstream)
    (regions : list string) (ignore_error : bool) (line_len : Z)
    (format : fai_format_options) (exit_status : Z) : M Z :=
  match regions with
  | [] => ret exit_status
  | region :: regions' =>
      if exit_status =? EXIT_SUCCESS then
        r <- write_output E fai file_out region ignore_error line_len format ;;
        positional_loop E fai file_out regions' ignore_error line_len format r
      else ret exit_status
  end.

(** Lines 240 to 253 of [faidx_core]: the regions of the region file. *)
Definition faidx_core_region_file (E : Env) (v : locals) (fai : faidx_t)
    (file_out : outstream) : M Z :=
  match region_file v with
  | Some region_file =>
      call (Ehopen region_file) ;;;
      match hopen E region_file with
      | Some rf =>
          exit_status <- read_regions_from_file E fai rf file_out
                           (ignore_error v) (line_len v) (format v) ;;
          call Ehclose ;;;
          (if negb (hclose E =? 0) then
             fprintf stderr ("[faidx] Warning: failed to close "
                             +++ region_file)
           else ret tt) ;;;
          ret exit_status
      | None =>
          fprintf stderr ("[faidx] Failed to open " +++ DQUOTE
                          +++ region_file +++ DQUOTE
                          +++ " for reading." +++ NL) ;;;
          ret EXIT_FAILURE
      end
  | None => ret EXIT_SUCCESS
  end.

(** Lines 259 to 268 of [faidx_core]: the index and the output stream are
    released. *)
Definition faidx_core_release (E : Env) (v : locals) (file_out : outstream)
    (exit_status : Z) : M Z :=
  call Efai_destroy ;;;
  r <- fflush file_out ;;
  exit_status <-
    (if r =? EOF then
       print_error_errno E "faidx" "failed to flush output" ;;;
       ret EXIT_FAILURE
     else ret exit_status) ;;
  match output_file v with
  | Some _ => call Efclose ;;; ret exit_status
  | None => ret exit_status
  end.

(** Lines 238 to 268 of [faidx_core]: the region file, the positional
    regions, and the release. *)
Definition faidx_core_regions (E : Env) (v : locals) (fai : faidx_t)
    (file_out : outstream) (regions : list string) : M Z :=
  exit_status <- faidx_core_region_file E v fai file_out ;;
  exit_status <- positional_loop E fai file_out regions (ignore_error v)
                   (line_len v) (format v) exit_status ;;
  faidx_core_release E v file_out exit_status.

(** [faidx_core]: [opts] is what [getopt_long] finds on the command line,
    [args] the arguments left from [argv[optind]] on: the input file and
    the regions. *)
Definition faidx_core (E : Env) (opts : list (ascii * string))
    (args : list string) (format0 : fai_format_options) : M Z :=
  r <- getopt_loop E opts (locals_init format0) ;;
  match r with
  | inl status => ret status
  | inr v =>
      match args with
      | [] => usage stdout (format v) EXIT_SUCCESS
      | input :: regions =>
          if (match regions with [] => true | _ => false end)
             && (match region_file v with None => true | _ => false end)
          then
            call (Efai_build input) ;;;
            if negb (fai_build E input =? 0) then
              fprintf stderr ("[faidx] Could not build fai index "
                              +++ input +++ ".fai" +++ NL) ;;;
              ret EXIT_FAILURE
            else ret 0
          else
            call (Efai_load_format input (format v)) ;;;
            match fai_load_format E input (format v) with
            | None =>
                fprintf stderr ("[faidx] Could not load fai index of "
                                +++ input +++ NL) ;;;
                ret EXIT_FAILURE
            | Some fai =>
                match output_file v with
                | Some output_file =>
                    if (output_file =? input)%string then
                      fprintf stderr ("[faidx] Same input/output : "
                                      +++ output_file +++ NL) ;;;
                      ret EXIT_FAILURE
                    else
                      call (Efopen output_file) ;;;
                      match fopen E output_file with
                      | None =>
                          fprintf stderr ("[faidx] Cannot open " +++ DQUOTE
                                          +++ output_file +++ DQUOTE
                                          +++ " for writing :"
                                          +++ strerror_errno E +++ "." +++ NL) ;;;
                          ret EXIT_FAILURE
                      | Some f =>
                          (fun s => Some (tt, set_out fopened f s)) ;;;
                          faidx_core_regions E v fai fopened regions
                      end
                | None => faidx_core_regions E v fai stdout regions
                end
            end
      end
  end.

Definition faidx_main (E : Env) (opts : list (ascii * string))
    (args : list string) : M Z :=
  faidx_core E opts args FAI_FASTA.

Definition fqidx_main (E : Env) (opts : list (ascii * string))
    (args : list string) : M Z :=
  faidx_core E opts args FAI_FASTQ.

(** ** A sample environment

    A small index and command-line environment on which the definitions
    above can be run. *)

Module Sample.

Fixpoint atoi_digits (s : string) (acc : Z) : Z :=
  match s with
  | EmptyString => acc
  | String c s' =>
      let d := Z.of_nat (nat_of_ascii c) - 48 in
      if (0 <=? d) && (d <=? 9) then atoi_digits s' (10 * acc + d)
      else acc
  end.

(** [atoi] on an optional sign followed by decimal digits. *)
Definition atoi (s : string) : Z :=
  match s with
  | String "-"%char s' => - atoi_digits s' 0
  | String "+"%char s' => atoi_digits s' 0
  | _ => atoi_digits s 0
  end.

Definition A130 : list ascii := repeat "A"%char 130.
Definition C60 : list ascii := repeat "C"%char 60.
Definition ACGT : list ascii := list_ascii_of_string "ACGT".
Definition ACGTACG : list ascii := list_ascii_of_string "ACGTACG".

Definition fetch (name : string) : fetched :=
  if (name =? "chr1")%string then (A130, 130)
  else if (name =? "chr2")%string then (ACGT, 4)
  else if (name =? "chr3")%string then (C60, 60)
  else if (name =? "chr2:1-10")%string then (ACGTACG, 7)
  else if (name =? "empty")%string then ([], 0)
  else if (name =? "broken")%string then ([], -1)
  else ([], -2).

Definition fai : faidx_t := mkFaidx fetch fetch.

Definition parse_reg (name : string) : option (Z * Z) :=
  if (name =? "chr2:1-10")%string then Some (0, 10)
  else if (name =? "chr2:")%string then None
  else Some (0, INT_MAX).

Definition unlimited : FILE := mkFILE [] None false.

Definition E : Env :=
  mkEnv atoi parse_reg
    (fun fn => if (fn =? "in.fa")%string then 0 else -1)
    (fun fn _ => if (fn =? "in.fa")%string then Some fai else None)
    (fun path => if (path =? "/nonexistent/out.fa")%string then None
                 else Some unlimited)
    (fun path =>
       if (path =? "regions.txt")%string
       then Some ["chr1"; "nosuch"; "chr2"; "chr3"]%string
       else if (path =? "empty.txt")%string then Some []
       else None)
    0
    "Input/output error".

Definition s0 : State := mkState unlimited unlimited [] [].

(** A [stdout] that accepts [n] more bytes. *)
Definition s_room (n : nat) : State :=
  mkState (mkFILE [] (Some n) false) unlimited [] [].

End Sample.

(** ** Vocabulary of the specification *)

(** A stream that still accepts [n] bytes. *)
Definition accepts (n : nat) (f : FILE) : Prop :=
  match room f with
  | None => True
  | Some r => (n <= r)%nat
  end.

(** The stream after [bs] has been written to it in full. *)
Definition FILE_append (bs : list ascii) (f : FILE) : FILE :=
  mkFILE (contents f ++ bs)
         (option_map (fun r => (r - List.length bs)%nat) (room f))
         (ferror f).

Definition append_out (file : outstream) (bs : list ascii) (s : State)
    : State :=
  set_out file (FILE_append bs (get_out file s)) s.

Definition ceil_div (a b : Z) : Z := (a + b - 1) / b.

(** The specification's line wrapping: cut [l] into pieces of [w]
    characters, the last one taking what is left. *)
Fixpoint wrap_lines_aux (fuel w : nat) (l : list ascii)
    : list (list ascii) :=
  match fuel with
  | O => []
  | S fuel' =>
      match l with
      | [] => []
      | _ :: _ => firstn w l :: wrap_lines_aux fuel' w (skipn w l)
      end
  end.

Definition wrap_lines (w : nat) (l : list ascii) : list (list ascii) :=
  wrap_lines_aux (List.length l) w l.

(** The lines of a body as they appear on the stream, each followed by a
    newline. *)
Definition terminated (lines : list (list ascii)) : list ascii :=
  flat_map (fun line => line ++ [nl]) lines.

Definition wrapped (w : nat) (l : list ascii) : list ascii :=
  terminated (wrap_lines w l).


(** What the program says on [stderr] about a sequence. *)
Definition failed_fetch_message (name : string) : string :=
  "[faidx] Failed to fetch sequence in " +++ name +++ NL.

Definition zero_length_message (name : string) : string :=
  "[faidx] Zero length sequence: " +++ name +++ NL.

Definition truncated_message (name : string) : string :=
  "[faidx] Truncated sequence: " +++ name +++ NL.

(** The warnings of [write_line] for a fetch that did not fail. *)
Definition write_line_warnings (E : Env) (name : string) (seq_len : Z)
    : list string :=
  if seq_len =? 0 then [zero_length_message name]
  else
    match hts_parse_reg E name with
    | Some (beg, end_) =>
        if (end_ <? INT_MAX) && negb (seq_len =? end_ - beg)
        then [truncated_message name] else []
    | None => []
    end.

(** State changes: messages added to [stderr], calls added to the trace,
    and the three at once on top of bytes written to a stream. *)
Definition log_err (msgs : list string) (s : State) : State :=
  mkState (std s) (usr s) (err s ++ msgs) (trace s).

Definition log_calls (evs : list event) (s : State) : State :=
  mkState (std s) (usr s) (err s) (trace s ++ evs).

Definition upd (file : outstream) (bs : list ascii) (msgs : list string)
    (evs : list event) (s : State) : State :=
  log_calls evs (log_err msgs (append_out file bs s)).

(** [s'] comes from [s] by output alone: no call was made, and [stderr]
    only grew. *)
Definition quiet (s s' : State) : Prop :=
  trace s' = trace s /\ exists more, err s' = err s ++ more.

(** A status of the program: one of the two exit codes. *)
Definition is_status (x : Z) : Prop := x = EXIT_SUCCESS \/ x = EXIT_FAILURE.

(** [s'] comes from [s] by the calls [evs], in this order; [stderr] only
    grew. *)
Definition grows (evs : list event) (s s' : State) : Prop :=
  trace s' = trace s ++ evs /\ exists more, err s' = err s ++ more.

(** The names passed to [fai_fetch], in call order. *)
Fixpoint fetches (tr : list event) : list string :=
  match tr with
  | [] => []
  | Efai_fetch name :: tr' => name :: fetches tr'
  | _ :: tr' => fetches tr'
  end.

(** The lengths the two fetches store into [seq_len]. *)
Definition seq_len_of (faid : faidx_t) (name : string) : Z :=
  to_int (snd (fai_fetch faid name)).

Definition qual_len_of (faid : faidx_t) (name : string) : Z :=
  to_int (snd (fai_fetchqual faid name)).

(** A fetch failure that [write_line] answers with [EXIT_FAILURE]. *)
Definition fetch_fails (ignore : bool) (seq_len : Z) : bool :=
  (seq_len <? 0) && negb (ignore && (seq_len =? -2)).

(** A region one of whose fetches fails fatally. *)
Definition fatal_fetch (faid : faidx_t) (ignore : bool)
    (format : fai_format_options) (name : string) : bool :=
  fetch_fails ignore (seq_len_of faid name)
  || (format_eqb format FAI_FASTQ
      && fetch_fails ignore (qual_len_of faid name)).

(** A region that is not in the index, met in continue mode. *)
Definition not_found_tolerated (faid : faidx_t) (ignore : bool)
    (format : fai_format_options) (name : string) : bool :=
  ignore && (seq_len_of faid name =? -2)
  && (if format_eqb format FAI_FASTQ then qual_len_of faid name =? -2
      else true).

(** The specification's reading of the two region loops: the regions one
    after the other in the order given, a record for each, up to and
    including the first one whose record fails. *)
Fixpoint process_in_order (E : Env) (faid : faidx_t) (file : outstream)
    (regions : list string) (ignore : bool) (length : Z)
    (format : fai_format_options) : M Z :=
  match regions with
  | [] => ret EXIT_SUCCESS
  | region :: regions' =>
      r <- write_output E faid file region ignore length format ;;
      if r =? EXIT_FAILURE then ret EXIT_FAILURE
      else process_in_order E faid file regions' ignore length format
  end.

(** The lines of the region file of a run, none when there is no such
    file or it cannot be opened. *)
Definition region_lines (E : Env) (v : locals) : list string :=
  match region_file v with
  | Some region_file =>
      match hopen E region_file with
      | Some rf => rf
      | None => []
      end
  | None => []
  end.

(** The regions [p] were processed, in this order, out of the regions
    [all] asked for, [rest] was left out, and the status is [x]: only the
    last region processed can have failed; a fatal fetch gives status
    failure; processing does not end on a region that continue mode
    tolerates while regions are left; it ends early only with status
    failure; and every failed fetch was reported. *)
Definition processed_in_order (faid : faidx_t) (ignore : bool)
    (format : fai_format_options) (all p rest : list string) (x : Z)
    (s' : State) : Prop :=
  all = p ++ rest
  /\ is_status x
  /\ (rest <> [] -> x = EXIT_FAILURE)
  /\ Forall (fun r => fatal_fetch faid ignore format r = false)
            (removelast p)
  /\ (forall r, In r p -> fatal_fetch faid ignore format r = true ->
                x = EXIT_FAILURE)
  /\ (forall q r, p = q ++ [r] ->
                  not_found_tolerated faid ignore format r = true ->
                  rest = [])
  /\ (forall r, In r p -> seq_len_of faid r < 0 ->
                In (failed_fetch_message r) (err s')).

(** The output stream of a run that got past the [-o] checks: the path, if
    any, differs from the input file and can be opened. *)
Definition output_opens (E : Env) (v : locals) (input : string) : Prop :=
  match output_file v with
  | Some output_file => output_file <> input /\ fopen E output_file <> None
  | None => True
  end.

Definition file_out_of (v : locals) : outstream :=
  match output_file v with
  | Some _ => fopened
  | None => stdout
  end.

(** The state once the index is loaded and the output stream opened. *)
Definition opened_state (E : Env) (v : locals) (input : string) (s : State)
    : State :=
  let s1 := log_calls [Efai_load_format input (format v)] s in
  match output_file v with
  | Some output_file =>
      match fopen E output_file with
      | Some f => set_out fopened f (log_calls [Efopen output_file] s1)
      | None => s1
      end
  | None => s1
  end.

(** A fetch that succeeded, as htslib promises it: the length stored is
    that of the buffer. *)
Definition fetched_ok (f : fetched) : Prop :=
  snd f = Z.of_nat (List.length (fst f)) /\ snd f <= INT_MAX.

(** A name the index holds, and a name it does not hold. *)
Definition valid_name (faid : faidx_t) (format : fai_format_options)
    (name : string) : Prop :=
  fetched_ok (fai_fetch faid name)
  /\ (format = FAI_FASTQ -> fetched_ok (fai_fetchqual faid name)).

Definition not_found (faid : faidx_t) (format : fai_format_options)
    (name : string) : Prop :=
  snd (fai_fetch faid name) = -2
  /\ (format = FAI_FASTQ -> snd (fai_fetchqual faid name) = -2).

(** A region whose record does not fail on a healthy stream. *)
Definition region_fine (faid : faidx_t) (ignore : bool)
    (format : fai_format_options) (name : string) : Prop :=
  valid_name faid format name
  \/ (ignore = true /\ not_found faid format name).

(** The header line of a record. *)
Definition header_text (format : fai_format_options) (name : string)
    : list ascii :=
  list_ascii_of_string
    ((if format_eqb format FAI_FASTA then ">" else "@") +++ name +++ NL).

Definition separator_text : list ascii := list_ascii_of_string ("+" +++ NL).

(** A well-formed record: the header line and the wrapped body, and for
    FASTQ the separator line and the wrapped quality. *)
Definition record_text (faid : faidx_t) (length : Z)
    (format : fai_format_options) (name : string) : list ascii :=
  header_text format name
  ++ wrapped (Z.to_nat length) (fst (fai_fetch faid name))
  ++ (if format_eqb format FAI_FASTQ
      then separator_text
           ++ wrapped (Z.to_nat length) (fst (fai_fetchqual faid name))
      else []).

(** What is left of a record when the name is not found: the header line
    (and the separator line) with no body. *)
Definition bare_header_text (format : fai_format_options) (name : string)
    : list ascii :=
  header_text format name
  ++ (if format_eqb format FAI_FASTQ then separator_text else []).

(** What [write_output] emits for a region. *)
Definition emitted_text (faid : faidx_t) (length : Z)
    (format : fai_format_options) (name : string) : list ascii :=
  if snd (fai_fetch faid name) <? 0 then bare_header_text format name
  else record_text faid length format name.

(** A region file, if one is given, that opens and has a line. *)
Definition region_file_ok (E : Env) (v : locals) : Prop :=
  match region_file v with
  | Some region_file =>
      exists rf, hopen E region_file = Some rf /\ rf <> []
  | None => True
  end.

(** A stream with no limit and no error so far. *)
Definition healthy (f : FILE) : Prop := room f = None /\ ferror f = false.

(** The warning of the option loop about a line length. *)
Definition bad_line_length_message (optarg : string) : string :=
  "[faidx] bad line length '" +++ optarg +++ "', using default:"
  +++ DEFAULT_FASTA_LINE_LEN_text +++ NL.

(** The messages of [write_line] for one fetch, and the messages and the
    calls of [write_output] for a region whose record succeeds. *)
Definition write_line_messages (E : Env) (name : string) (f : fetched)
    : list string :=
  if snd f <? 0 then [failed_fetch_message name]
  else write_line_warnings E name (snd f).

Definition write_output_messages (E : Env) (faid : faidx_t)
    (format : fai_format_options) (name : string) : list string :=
  write_line_messages E name (fai_fetch faid name)
  ++ (if format_eqb format FAI_FASTQ
      then write_line_messages E name (fai_fetchqual faid name)
      else []).

Definition write_output_calls (format : fai_format_options) (name : string)
    : list event :=
  [Efai_fetch name; Efree Seq]
  ++ (if format_eqb format FAI_FASTQ
      then [Efai_fetchqual name; Efree Qual]
      else []).

(** The calls [write_output] makes for a record. *)
Definition is_record_call (e : event) : bool :=
  match e with
  | Efai_fetch _ | Efai_fetchqual _ | Efree _ => true
  | _ => false
  end.

(** ** Vocabulary for the option loop, the usage and the resources *)

(** The argument of the last option [c] of a command line. *)
Fixpoint last_optarg (c : ascii) (opts : list (ascii * string))
    : option string :=
  match opts with
  | [] => None
  | (c', optarg) :: opts' =>
      match last_optarg c opts' with
      | Some a => Some a
      | None => if (c' =? c)%char then Some optarg else None
      end
  end.

Definition has_opt (c : ascii) (opts : list (ascii * string)) : bool :=
  existsb (fun o => (fst o =? c)%char) opts.

(** The line length a [-n] argument stands for. *)
Definition line_len_of (E : Env) (optarg : string) : Z :=
  if to_int (atoi E optarg) <? 1 then DEFAULT_FASTA_LINE_LEN
  else to_int (atoi E optarg).

(** The variables a command line leaves, starting from [v]: each option
    counts once, and of several arguments the last one. *)
Definition apply_options (E : Env) (v : locals)
    (opts : list (ascii * string)) : locals :=
  mkLocals
    (ignore_error v || has_opt "c" opts)
    (match last_optarg "n" opts with
     | Some a => line_len_of E a
     | None => line_len v
     end)
    (match last_optarg "o" opts with
     | Some a => Some a
     | None => output_file v
     end)
    (match last_optarg "r" opts with
     | Some a => Some a
     | None => region_file v
     end)
    (if has_opt "f" opts then FAI_FASTQ else format v).

Definition options_of (E : Env) (format0 : fai_format_options)
    (opts : list (ascii * string)) : locals :=
  apply_options E (locals_init format0) opts.

(** The warnings of the option loop, one for each bad [-n] argument. *)
Definition option_warnings (E : Env) (opts : list (ascii * string))
    : list string :=
  flat_map (fun o =>
              if (fst o =? "n")%char && (to_int (atoi E (snd o)) <? 1)
              then [bad_line_length_message (snd o)] else [])
           opts.

(** An option that does not end the option loop. *)
Definition goes_on (o : ascii * string) : Prop :=
  fst o <> "?"%char /\ fst o <> "h"%char.

(** The four pieces of text [usage] prints, the third one for FASTA
    only. *)
Definition usage_lines (format : fai_format_options) : list string :=
  let tool := if format_eqb format FAI_FASTA
              then "faidx <file.fa|file.fa.gz>"%string
              else "fqidx <file.fq|file.fq.gz>"%string in
  let file_type := if format_eqb format FAI_FASTA
                   then "FASTA"%string else "FASTQ"%string in
  [("Usage: samtools " +++ tool +++ " [<reg> [...]]" +++ NL);
   ("Option: " +++ NL
    +++ " -o, --output      FILE Write " +++ file_type +++ " to file." +++ NL
    +++ " -n, --length      INT  Length of " +++ file_type
    +++ " sequence line. [60]" +++ NL
    +++ " -c, --continue         Continue after trying to retrieve missing region."
    +++ NL
    +++ " -r, --region-file FILE File of regions.  Format is chr:from-to. One per line."
    +++ NL)]
  ++ (if format_eqb format FAI_FASTA
      then [(" -f, --fastq            File and index in FASTQ format." +++ NL)]
      else [])
  ++ [(" -h, --help             This message." +++ NL)].

Definition usage_text (format : fai_format_options) : list ascii :=
  flat_map list_ascii_of_string (usage_lines format).

(** The message of a failed write. *)
Definition write_error_message (E : Env) : string :=
  "samtools faidx: failed to write output: " +++ strerror_errno E +++ NL.

(** The calls of the region loops. *)
Definition is_region_call (e : event) : bool :=
  match e with
  | Efai_fetch _ | Efai_fetchqual _ | Efree _ | Ehopen _ | Ehclose => true
  | _ => false
  end.

(** The calls that open a run past the [-o] checks, and those that close
    it. *)
Definition opening_calls (v : locals) (input : string) : list event :=
  Efai_load_format input (format v)
  :: match output_file v with
     | Some output_file => [Efopen output_file]
     | None => []
     end.

Definition closing_calls (v : locals) : list event :=
  [Efai_destroy; Efflush]
  ++ match output_file v with
     | Some _ => [Efclose]
     | None => []
     end.

(** The other output stream. *)
Definition other_out (file : outstream) : outstream :=
  match file with
  | stdout => fopened
  | fopened => stdout
  end.

(** A second sample index: sequences as in [Sample], no quality. *)
Module Sample2.

Definition fai : faidx_t := mkFaidx Sample.fetch (fun _ => ([], -1)).

End Sample2.

(** A computation that, when it returns, has left the stream other than
    [file] as it was. *)
Definition writes_to {A} (file : outstream) (m : M A) : Prop :=
  forall s a s',
    m s = Some (a, s') ->
    get_out (other_out file) s' = get_out (other_out file) s.

(** The stream after a write of [bs] of which it took the first [r]
    bytes only. *)
Definition FILE_cut (bs : list ascii) (r : nat) (f : FILE) : FILE :=
  mkFILE (contents f ++ firstn r bs) (Some 0%nat) true.

(** What the release adds to [stderr]. *)
Definition flush_messages (E : Env) (f : FILE) : list string :=
  if ferror f
  then ["samtools faidx: failed to flush output: " +++ strerror_errno E
        +++ NL]
  else [].

(** The messages about a region file and about an output file that
    cannot be opened, and the warning about a region file that cannot be
    closed. *)
Definition region_file_message (region_file : string) : string :=
  "[faidx] Failed to open " +++ DQUOTE +++ region_file +++ DQUOTE
  +++ " for reading." +++ NL.

Definition output_file_message (E : Env) (output_file : string) : string :=
  "[faidx] Cannot open " +++ DQUOTE +++ output_file +++ DQUOTE
  +++ " for writing :" +++ strerror_errno E +++ "." +++ NL.

Definition close_warning (region_file : string) : string :=
  "[faidx] Warning: failed to close " +++ region_file.

Definition load_message (input : string) : string :=
  "[faidx] Could not load fai index of " +++ input +++ NL.

(** A second sample environment: as [Sample.E], but the region file
    cannot be closed. *)
Module Sample3.

Definition E : Env :=
  mkEnv (atoi Sample.E) (hts_parse_reg Sample.E) (fai_build Sample.E)
        (fai_load_format Sample.E) (fopen Sample.E) (hopen Sample.E)
        (-1) (strerror_errno Sample.E).

End Sample3.

(** A region for whose record, on a stream that takes every write,
    [write_output] passes no buffer to [free] twice: its sequence is not
    fetched, so that the pointer is null, or its quality is fetched, or
    its quality is not found while continue mode is on. *)
Definition frees_once (faid : faidx_t) (ignore : bool) (name : string)
    : Prop :=
  seq_len_of faid name < 0
  \/ fetched_ok (fai_fetchqual faid name)
  \/ (ignore = true /\ snd (fai_fetchqual faid name) = -2).

(** The records of the regions [all], written in [format] to a stream in
    the state [f], pass no buffer to [free] twice: the format is FASTA,
    which has no quality, or the stream takes every write and every
    region frees once. *)
Definition no_double_free (faid : faidx_t) (ignore : bool)
    (format : fai_format_options) (f : FILE) (all : list string) : Prop :=
  format = FAI_FASTA
  \/ (healthy f /\ Forall (frees_once faid ignore) all).

(** A computation that, when it returns, leaves a stream that took every
    write in that state. *)
Definition keeps_healthy {A} (file : outstream) (m : M A) : Prop :=
  forall s a s',
    m s = Some (a, s') ->
    healthy (get_out file s) -> healthy (get_out file s').

(** The last of the regions [p] has a record that failed: it has a fatal
    fetch, or a write failed and was reported. *)
Definition failed_last (E : Env) (faid : faidx_t) (ignore : bool)
    (format : fai_format_options) (p : list string) (s' : State) : Prop :=
  exists q r,
    p = q ++ [r]
    /\ (fatal_fetch faid ignore format r = true
        \/ In (write_error_message E) (err s')).

(** Processing leaves regions out only after a record that failed. *)
Definition stopped_on_failure (E : Env) (faid : faidx_t) (ignore : bool)
    (format : fai_format_options) (p rest : list string) (s' : State)
    : Prop :=
  rest <> [] -> failed_last E faid ignore format p s'.

(** * Properties *)

(** ** Integer conversions *)

Lemma to_size_t_small (z : Z) :
  0 <= z < 2 ^ 64 -> to_size_t z = z.
Proof. intros H. unfold to_size_t. now apply Z.mod_small. Qed.

Lemma to_int_small (z : Z) :
  INT_MIN <= z <= INT_MAX -> to_int z = z.
Proof.
  unfold INT_MIN, INT_MAX, to_int. intros H.
  rewrite Z.mod_small; lia.
Qed.

Lemma to_int_range (z : Z) : INT_MIN <= to_int z <= INT_MAX.
Proof.
  unfold INT_MIN, INT_MAX, to_int.
  pose proof (Z.mod_pos_bound (z + 2 ^ 31) (2 ^ 32) ltac:(lia)). lia.
Qed.

(** ** Streams *)

Lemma FILE_write_accepts (bs : list ascii) (f : FILE) :
  accepts (List.length bs) f ->
  FILE_write bs f = (List.length bs, FILE_append bs f).
Proof.
  unfold accepts, FILE_write, FILE_append.
  destruct (room f) as [r|]; simpl; intros H; [|reflexivity].
  apply Nat.leb_le in H. now rewrite H.
Qed.

Lemma FILE_append_nil (f : FILE) : FILE_append [] f = f.
Proof.
  destruct f as [c [r|] e]; unfold FILE_append; simpl;
    rewrite app_nil_r, ?Nat.sub_0_r; reflexivity.
Qed.

Lemma FILE_append_app (a b : list ascii) (f : FILE) :
  FILE_append b (FILE_append a f) = FILE_append (a ++ b) f.
Proof.
  destruct f as [c [r|] e]; unfold FILE_append; simpl;
    rewrite <- app_assoc, ?length_app; try reflexivity.
  now rewrite Nat.sub_add_distr.
Qed.

Lemma accepts_le (m n : nat) (f : FILE) :
  (m <= n)%nat -> accepts n f -> accepts m f.
Proof. unfold accepts. destruct (room f); [lia | trivial]. Qed.

Lemma accepts_append (a : list ascii) (n : nat) (f : FILE) :
  accepts (List.length a + n) f -> accepts n (FILE_append a f).
Proof.
  unfold accepts, FILE_append. destruct (room f); simpl; [lia | trivial].
Qed.

Lemma accepts_unlimited (n : nat) (f : FILE) : room f = None -> accepts n f.
Proof. unfold accepts. now intros ->. Qed.

Lemma room_FILE_append (bs : list ascii) (f : FILE) :
  room f = None -> room (FILE_append bs f) = None.
Proof. unfold FILE_append. simpl. now intros ->. Qed.

Lemma get_set_out (file : outstream) (f : FILE) (s : State) :
  get_out file (set_out file f s) = f.
Proof. now destruct file. Qed.

Lemma set_set_out (file : outstream) (f g : FILE) (s : State) :
  set_out file f (set_out file g s) = set_out file f s.
Proof. now destruct file. Qed.

Lemma set_get_out (file : outstream) (s : State) :
  set_out file (get_out file s) s = s.
Proof. now destruct file, s. Qed.

Lemma get_out_append_out (file : outstream) (bs : list ascii) (s : State) :
  get_out file (append_out file bs s) = FILE_append bs (get_out file s).
Proof. apply get_set_out. Qed.

Lemma append_out_nil (file : outstream) (s : State) :
  append_out file [] s = s.
Proof. unfold append_out. now rewrite FILE_append_nil, set_get_out. Qed.

Lemma append_out_app (file : outstream) (a b : list ascii) (s : State) :
  append_out file b (append_out file a s) = append_out file (a ++ b) s.
Proof.
  unfold append_out. now rewrite get_set_out, set_set_out, FILE_append_app.
Qed.

Lemma err_append_out (file : outstream) (bs : list ascii) (s : State) :
  err (append_out file bs s) = err s.
Proof. now destruct file. Qed.

Lemma trace_append_out (file : outstream) (bs : list ascii) (s : State) :
  trace (append_out file bs s) = trace s.
Proof. now destruct file. Qed.

Lemma contents_append_out (file : outstream) (bs : list ascii) (s : State) :
  contents (get_out file (append_out file bs s))
  = contents (get_out file s) ++ bs.
Proof. now rewrite get_out_append_out. Qed.

Lemma fwrite_accepts (bs : list ascii) (file : outstream) (s : State) :
  accepts (List.length bs) (get_out file s) ->
  fwrite bs file s = Some (List.length bs, append_out file bs s).
Proof.
  intros H. unfold fwrite. now rewrite (FILE_write_accepts _ _ H).
Qed.

Lemma fputc_accepts (c : ascii) (file : outstream) (s : State) :
  accepts 1 (get_out file s) ->
  fputc c file s = Some (Z.of_nat (nat_of_ascii c), append_out file [c] s).
Proof.
  intros H. unfold fputc, bind. now rewrite (fwrite_accepts [c] file s H).
Qed.

Lemma fprintf_accepts (text : string) (file : outstream) (s : State) :
  accepts (List.length (list_ascii_of_string text)) (get_out file s) ->
  fprintf file text s
  = Some (tt, append_out file (list_ascii_of_string text) s).
Proof.
  intros H. unfold fprintf, bind. simpl. now rewrite (fwrite_accepts _ _ _ H).
Qed.

(** ** Line wrapping *)

Lemma wrap_lines_aux_fuel (w : nat) :
  (1 <= w)%nat ->
  forall fuel1 fuel2 l,
    (List.length l <= fuel1)%nat -> (List.length l <= fuel2)%nat ->
    wrap_lines_aux fuel1 w l = wrap_lines_aux fuel2 w l.
Proof.
  intros Hw. induction fuel1 as [|fuel1 IH]; intros fuel2 l H1 H2.
  - destruct l; [|simpl in H1; lia]. now destruct fuel2.
  - destruct l as [|a l]; [now destruct fuel2|].
    destruct fuel2 as [|fuel2]; [simpl in H2; lia|].
    cbn [wrap_lines_aux]. f_equal.
    assert (Hs : (List.length (skipn w (a :: l)) < List.length (a :: l))%nat)
      by (rewrite length_skipn; cbn [List.length]; lia).
    cbn [List.length] in H1, H2, Hs. apply IH; lia.
Qed.

Lemma wrap_lines_nil (w : nat) : wrap_lines w [] = [].
Proof. reflexivity. Qed.

Lemma wrap_lines_cons (w : nat) (l : list ascii) :
  (1 <= w)%nat -> l <> [] ->
  wrap_lines w l = firstn w l :: wrap_lines w (skipn w l).
Proof.
  intros Hw Hl. unfold wrap_lines.
  destruct l as [|a l]; [congruence|].
  cbn [List.length wrap_lines_aux]. f_equal.
  apply wrap_lines_aux_fuel; trivial.
  assert (Hs : (List.length (skipn w (a :: l)) < List.length (a :: l))%nat)
    by (rewrite length_skipn; cbn [List.length]; lia).
  cbn [List.length] in Hs. lia.
Qed.

Lemma wrapped_cons (w : nat) (l : list ascii) :
  (1 <= w)%nat -> l <> [] ->
  wrapped w l = (firstn w l ++ [nl]) ++ wrapped w (skipn w l).
Proof.
  intros Hw Hl. unfold wrapped. now rewrite wrap_lines_cons.
Qed.

(** Induction along the cuts of [wrap_lines]. *)
Lemma wrap_lines_ind (w : nat) (P : list ascii -> Prop) :
  (1 <= w)%nat ->
  P [] ->
  (forall l, l <> [] -> P (skipn w l) -> P l) ->
  forall l, P l.
Proof.
  intros Hw Hnil Hcons l.
  remember (List.length l) as n eqn:Hn.
  revert l Hn. induction n as [n IH] using lt_wf_ind. intros l Hn.
  destruct l as [|a l]; [exact Hnil|].
  apply Hcons; [congruence|].
  apply (IH (List.length (skipn w (a :: l)))); [|reflexivity].
  subst n. rewrite length_skipn. cbn [List.length]. lia.
Qed.

Lemma wrap_lines_eq_nil (w : nat) (l : list ascii) :
  (1 <= w)%nat -> wrap_lines w l = [] -> l = [].
Proof.
  intros Hw H. destruct l as [|a l]; [reflexivity|].
  rewrite wrap_lines_cons in H by (trivial; congruence). discriminate.
Qed.

Lemma concat_wrap_lines (w : nat) (l : list ascii) :
  (1 <= w)%nat -> List.concat (wrap_lines w l) = l.
Proof.
  intros Hw. revert l.
  refine (wrap_lines_ind w _ Hw _ _); [reflexivity | intros l Hl IH].
  rewrite wrap_lines_cons by trivial. cbn [List.concat].
  rewrite IH. apply firstn_skipn.
Qed.

Lemma ceil_div_step (L W : Z) :
  1 <= W -> W < L -> ceil_div L W = 1 + ceil_div (L - W) W.
Proof.
  intros HW HL. unfold ceil_div.
  replace (L + W - 1) with (L - W + W - 1 + 1 * W) by lia.
  rewrite Z.div_add by lia. lia.
Qed.

Lemma ceil_div_one (L W : Z) :
  1 <= L <= W -> ceil_div L W = 1.
Proof.
  intros H. unfold ceil_div. symmetry.
  apply (Z.div_unique_pos _ _ 1 (L - 1)); lia.
Qed.

Lemma ceil_div_zero (W : Z) : 1 <= W -> ceil_div 0 W = 0.
Proof. intros H. unfold ceil_div. apply Z.div_small. lia. Qed.

Lemma length_wrap_lines (w : nat) (l : list ascii) :
  (1 <= w)%nat ->
  Z.of_nat (List.length (wrap_lines w l))
  = ceil_div (Z.of_nat (List.length l)) (Z.of_nat w).
Proof.
  intros Hw. revert l.
  refine (wrap_lines_ind w _ Hw _ _); [ | intros l Hl IH].
  - cbn [wrap_lines wrap_lines_aux List.length]. now rewrite ceil_div_zero by lia.
  - rewrite wrap_lines_cons by trivial. cbn [List.length].
    rewrite Nat2Z.inj_succ, IH, length_skipn.
    destruct (Nat.le_gt_cases (List.length l) w) as [Hle|Hgt].
    + replace (List.length l - w)%nat with 0%nat by lia.
      rewrite ceil_div_zero by lia.
      assert (List.length l <> 0%nat) by (destruct l; [congruence|discriminate]).
      rewrite ceil_div_one; lia.
    + rewrite Nat2Z.inj_sub by lia.
      rewrite (ceil_div_step (Z.of_nat (List.length l))); lia.
Qed.

Lemma full_lines_wrap_lines (w : nat) (l : list ascii) :
  (1 <= w)%nat ->
  forall k, (k + 1 < List.length (wrap_lines w l))%nat ->
            List.length (nth k (wrap_lines w l) []) = w.
Proof.
  intros Hw. revert l.
  refine (wrap_lines_ind w _ Hw _ _); [ | intros l Hl IH].
  - intros k. cbn. lia.
  - intros k. rewrite wrap_lines_cons by trivial. cbn [List.length].
    intros Hk. destruct k as [|k].
    + cbn [nth]. apply firstn_length_le.
      destruct (Nat.le_gt_cases w (List.length l)) as [Hle|Hgt]; trivial.
      exfalso. rewrite skipn_all2 in Hk by lia. cbn in Hk. lia.
    + cbn [nth]. apply IH. lia.
Qed.

Lemma last_line_wrap_lines (w : nat) (l : list ascii) :
  (1 <= w)%nat -> l <> [] ->
  Z.of_nat (List.length (last (wrap_lines w l) []))
  = (if Z.of_nat (List.length l) mod Z.of_nat w =? 0 then Z.of_nat w
     else Z.of_nat (List.length l) mod Z.of_nat w).
Proof.
  intros Hw. revert l.
  refine (wrap_lines_ind w _ Hw _ _); [ | intros l Hl IH].
  - congruence.
  - intros _. rewrite wrap_lines_cons by trivial.
    destruct (Nat.le_gt_cases (List.length l) w) as [Hle|Hgt].
    + rewrite skipn_all2, wrap_lines_nil by lia. cbn [last].
      rewrite firstn_all2 by lia.
      assert (List.length l <> 0%nat) by (destruct l; [congruence|discriminate]).
      destruct (Nat.eq_dec (List.length l) w) as [->|Hne].
      * rewrite Z.mod_same by lia. reflexivity.
      * rewrite Z.mod_small by lia.
        destruct (Z.eqb_spec (Z.of_nat (List.length l)) 0); lia.
    + assert (Hs : skipn w l <> []).
      { intros H. apply (f_equal (@List.length _)) in H.
        rewrite length_skipn in H. cbn in H. lia. }
      assert (Hw' : wrap_lines w (skipn w l) <> []).
      { intros H. now apply wrap_lines_eq_nil in H. }
      destruct (wrap_lines w (skipn w l)) as [|c cs] eqn:Hc; [congruence|].
      change (last (firstn w l :: c :: cs) []) with (last (c :: cs) []).
      rewrite IH by trivial. rewrite length_skipn, Nat2Z.inj_sub by lia.
      replace (Z.of_nat (List.length l) - Z.of_nat w)
        with (Z.of_nat (List.length l) + (-1) * Z.of_nat w) by lia.
      now rewrite Z.mod_add by lia.
Qed.

Lemma length_terminated (lines : list (list ascii)) :
  List.length (terminated lines)
  = (List.length (List.concat lines) + List.length lines)%nat.
Proof.
  induction lines as [|c cs IH]; trivial.
  cbn [terminated flat_map List.concat List.length] in *.
  rewrite !length_app. unfold terminated in IH. rewrite IH.
  cbn [List.length]. lia.
Qed.

Lemma length_wrapped (w : nat) (l : list ascii) :
  (1 <= w)%nat ->
  Z.of_nat (List.length (wrapped w l))
  = Z.of_nat (List.length l)
    + ceil_div (Z.of_nat (List.length l)) (Z.of_nat w).
Proof.
  intros Hw. unfold wrapped.
  rewrite length_terminated, concat_wrap_lines, Nat2Z.inj_add by trivial.
  now rewrite length_wrap_lines.
Qed.

Lemma line_lengths_wrap_lines (w : nat) (l : list ascii) :
  (1 <= w)%nat ->
  forall c, In c (wrap_lines w l) ->
    Z.of_nat (List.length c) = Z.of_nat w
    \/ Z.of_nat (List.length c)
       = Z.of_nat (List.length l) mod Z.of_nat w.
Proof.
  intros Hw. revert l.
  refine (wrap_lines_ind w _ Hw _ _); [intros c [] | intros l Hl IH].
  intros c. rewrite wrap_lines_cons by trivial. intros [<-|Hin].
  - destruct (Nat.le_gt_cases w (List.length l)) as [Hle|Hgt].
    + left. now rewrite firstn_length_le.
    + right. rewrite firstn_all2 by lia. now rewrite Z.mod_small by lia.
  - destruct (Nat.le_gt_cases (List.length l) w) as [Hle|Hgt].
    + rewrite skipn_all2 in Hin by lia. destruct Hin.
    + destruct (IH c Hin) as [H|H]; [now left | right].
      rewrite H, length_skipn, Nat2Z.inj_sub by lia.
      replace (Z.of_nat (List.length l) - Z.of_nat w)
        with (Z.of_nat (List.length l) + (-1) * Z.of_nat w) by lia.
      now rewrite Z.mod_add by lia.
Qed.

(** ** State changes *)

Lemma upd_upd (file : outstream) (b1 b2 : list ascii) (m1 m2 : list string)
    (e1 e2 : list event) (s : State) :
  upd file b2 m2 e2 (upd file b1 m1 e1 s)
  = upd file (b1 ++ b2) (m1 ++ m2) (e1 ++ e2) s.
Proof.
  destruct file, s as [[c1 r1 x1] [c2 r2 x2] er tr];
    unfold upd, log_calls, log_err, append_out, FILE_append; simpl;
    rewrite <- !app_assoc; f_equal; f_equal;
    destruct r1, r2; simpl; rewrite ?length_app, ?Nat.sub_add_distr;
    reflexivity.
Qed.

Lemma upd_nil (file : outstream) (s : State) : upd file [] [] [] s = s.
Proof.
  unfold upd, log_calls, log_err. rewrite append_out_nil.
  destruct s. simpl. now rewrite !app_nil_r.
Qed.

Lemma append_out_upd (file : outstream) (bs : list ascii) (s : State) :
  append_out file bs s = upd file bs [] [] s.
Proof.
  unfold upd, log_calls, log_err.
  destruct (append_out file bs s). simpl. now rewrite !app_nil_r.
Qed.

Lemma log_err_upd (file : outstream) (msgs : list string) (s : State) :
  log_err msgs s = upd file [] msgs [] s.
Proof.
  unfold upd, log_calls. rewrite append_out_nil.
  destruct s. unfold log_err. simpl. now rewrite !app_nil_r.
Qed.

Lemma log_calls_upd (file : outstream) (evs : list event) (s : State) :
  log_calls evs s = upd file [] [] evs s.
Proof.
  unfold upd, log_err. rewrite append_out_nil.
  destruct s. unfold log_calls. simpl. now rewrite !app_nil_r.
Qed.

Lemma get_out_upd (file : outstream) bs msgs evs (s : State) :
  get_out file (upd file bs msgs evs s) = FILE_append bs (get_out file s).
Proof. now destruct file. Qed.

Lemma err_upd (file : outstream) bs msgs evs (s : State) :
  err (upd file bs msgs evs s) = err s ++ msgs.
Proof. now destruct file. Qed.

Lemma trace_upd (file : outstream) bs msgs evs (s : State) :
  trace (upd file bs msgs evs s) = trace s ++ evs.
Proof. now destruct file. Qed.

Lemma std_upd_fopened bs msgs evs (s : State) :
  std (upd fopened bs msgs evs s) = std s.
Proof. reflexivity. Qed.

Lemma accepts_upd (file : outstream) bs msgs evs (n : nat) (s : State) :
  accepts (List.length bs + n) (get_out file s) ->
  accepts n (get_out file (upd file bs msgs evs s)).
Proof. rewrite get_out_upd. apply accepts_append. Qed.

Lemma quiet_refl (s : State) : quiet s s.
Proof. split; [reflexivity|]. exists []. now rewrite app_nil_r. Qed.

Lemma quiet_trans (s1 s2 s3 : State) :
  quiet s1 s2 -> quiet s2 s3 -> quiet s1 s3.
Proof.
  intros [H1 [m1 E1]] [H2 [m2 E2]]. split; [congruence|].
  exists (m1 ++ m2). now rewrite E2, E1, app_assoc.
Qed.

Lemma quiet_set_out (file : outstream) (f : FILE) (s : State) :
  quiet s (set_out file f s).
Proof.
  split; [now destruct file|].
  exists []. destruct file; simpl; now rewrite app_nil_r.
Qed.

Lemma quiet_log_err (msgs : list string) (s : State) :
  quiet s (log_err msgs s).
Proof. split; [reflexivity|]. now exists msgs. Qed.

Lemma fwrite_quiet (bs : list ascii) (file : outstream) (s : State) :
  exists n s', fwrite bs file s = Some (n, s') /\ quiet s s'.
Proof.
  unfold fwrite. destruct (FILE_write bs (get_out file s)) as [n f].
  exists n, (set_out file f s). split; [reflexivity | apply quiet_set_out].
Qed.

Lemma fputc_quiet (c : ascii) (file : outstream) (s : State) :
  exists x s', fputc c file s = Some (x, s') /\ quiet s s'.
Proof.
  unfold fputc, bind. destruct (fwrite_quiet [c] file s) as (n & s' & -> & Hq).
  eexists _, s'. split; [reflexivity | exact Hq].
Qed.

Lemma fprintf_quiet (fp : stream) (text : string) (s : State) :
  exists s', fprintf fp text s = Some (tt, s') /\ quiet s s'.
Proof.
  destruct fp as [file|]; unfold fprintf.
  - unfold bind. destruct (fwrite_quiet (list_ascii_of_string text) file s)
      as (n & s' & -> & Hq).
    exists s'. split; [reflexivity | exact Hq].
  - eexists. split; [reflexivity|]. apply (quiet_log_err [text]).
Qed.

(** ** The loop of [write_line] *)

Lemma write_line_loop_done E fuel file line length seq_sz i s :
  seq_sz <= i ->
  write_line_loop E fuel file line length seq_sz i s
  = Some (EXIT_SUCCESS, s).
Proof.
  intros H. apply Z.ltb_ge in H.
  destruct fuel; cbn [write_line_loop]; now rewrite H.
Qed.

Lemma write_line_loop_step E fuel file line length seq_sz i :
  i < seq_sz ->
  write_line_loop E (S fuel) file line length seq_sz i
  = (let len := if to_size_t (i + to_size_t length) <? seq_sz
                then to_size_t length
                else to_size_t (seq_sz - i) in
     n <- fwrite (firstn (Z.to_nat len) (skipn (Z.to_nat i) line)) file ;;
     if Z.of_nat n <? len then
       print_error_errno E "faidx" "failed to write output" ;;;
       ret EXIT_FAILURE
     else
       c <- fputc nl file ;;
       if c =? EOF then
         print_error_errno E "faidx" "failed to write output" ;;;
         ret EXIT_FAILURE
       else
         write_line_loop E fuel file line length seq_sz
                         (to_size_t (i + to_size_t length))).
Proof.
  intros H. apply Z.ltb_lt in H. cbn [write_line_loop]. now rewrite H.
Qed.

(** Within the range of [int], the [size_t] arithmetic of the loop does
    not wrap. *)
Lemma loop_arith (length seq_sz i : Z) :
  1 <= length <= INT_MAX -> seq_sz <= INT_MAX -> 0 <= i < seq_sz ->
  to_size_t length = length
  /\ to_size_t (i + length) = i + length
  /\ to_size_t (seq_sz - i) = seq_sz - i.
Proof.
  unfold INT_MAX. intros H1 H2 H3.
  repeat split; apply to_size_t_small; lia.
Qed.

(** With room for the whole body, the loop writes the lines of
    [wrap_lines] and succeeds. *)
Lemma write_line_loop_accepts E file line length :
  1 <= length <= INT_MAX ->
  Z.of_nat (List.length line) <= INT_MAX ->
  forall fuel pre rest s,
    line = pre ++ rest ->
    (List.length rest <= fuel)%nat ->
    accepts (List.length (wrapped (Z.to_nat length) rest)) (get_out file s) ->
    write_line_loop E fuel file line length (Z.of_nat (List.length line))
                    (Z.of_nat (List.length pre)) s
    = Some (EXIT_SUCCESS,
            append_out file (wrapped (Z.to_nat length) rest) s).
Proof.
  intros Hlen Hline.
  assert (Hw : (1 <= Z.to_nat length)%nat) by lia.
  induction fuel as [|fuel IH]; intros pre rest s Heq Hfuel Hroom.
  - destruct rest; [|cbn in Hfuel; lia].
    rewrite write_line_loop_done, append_out_nil; trivial.
    subst line. rewrite app_nil_r. lia.
  - destruct rest as [|a rest'].
    { rewrite write_line_loop_done, append_out_nil; trivial.
      subst line. rewrite app_nil_r. lia. }
    set (rest := a :: rest') in *.
    assert (Hrest : rest <> []) by discriminate.
    assert (HL : List.length line = (List.length pre + List.length rest)%nat)
      by (subst line; apply length_app).
    assert (Hpos : (1 <= List.length rest)%nat) by (cbn; lia).
    rewrite write_line_loop_step by lia.
    destruct (loop_arith length (Z.of_nat (List.length line))
                (Z.of_nat (List.length pre))) as (A1 & A2 & A3); try lia.
    cbv zeta. rewrite A1, A2, A3.
    rewrite Nat2Z.id.
    replace (skipn (List.length pre) line) with rest
      by (subst line; rewrite skipn_app, skipn_all, Nat.sub_diag; reflexivity).
    rewrite wrapped_cons in Hroom |- * by trivial.
    rewrite !length_app in Hroom. cbn [List.length] in Hroom.
    assert (Hchunk :
      firstn (Z.to_nat (if Z.of_nat (List.length pre) + length
                           <? Z.of_nat (List.length line)
                        then length
                        else Z.of_nat (List.length line)
                             - Z.of_nat (List.length pre))) rest
      = firstn (Z.to_nat length) rest
      /\ Z.of_nat (List.length (firstn (Z.to_nat length) rest))
         = (if Z.of_nat (List.length pre) + length
               <? Z.of_nat (List.length line)
            then length
            else Z.of_nat (List.length line) - Z.of_nat (List.length pre))).
    { destruct (Z.ltb_spec (Z.of_nat (List.length pre) + length)
                           (Z.of_nat (List.length line))) as [Hlt|Hge].
      - split; [reflexivity|]. rewrite firstn_length_le; lia.
      - rewrite !firstn_all2 by lia. split; [reflexivity | lia]. }
    destruct Hchunk as [Hc1 Hc2]. rewrite Hc1.
    unfold bind at 1.
    rewrite fwrite_accepts by (eapply accepts_le; [|exact Hroom]; lia).
    rewrite Hc2, Z.ltb_irrefl.
    unfold bind at 1.
    rewrite fputc_accepts
      by (rewrite get_out_append_out; apply accepts_append;
          eapply accepts_le; [|exact Hroom]; lia).
    change (Z.of_nat (nat_of_ascii nl) =? EOF) with false. cbv iota.
    rewrite append_out_app.
    destruct (Z.ltb_spec (Z.of_nat (List.length pre) + length)
                         (Z.of_nat (List.length line))) as [Hlt|Hge].
    + replace (Z.of_nat (List.length pre) + length)
        with (Z.of_nat (List.length (pre ++ firstn (Z.to_nat length) rest)))
        by (rewrite length_app, firstn_length_le; lia).
      rewrite (IH (pre ++ firstn (Z.to_nat length) rest)
                  (skipn (Z.to_nat length) rest)).
      * now rewrite append_out_app.
      * rewrite <- app_assoc, firstn_skipn. exact Heq.
      * rewrite length_skipn. lia.
      * rewrite get_out_append_out. apply accepts_append.
        eapply accepts_le; [|exact Hroom].
        rewrite length_app. cbn [List.length]. lia.
    + rewrite write_line_loop_done by lia.
      rewrite skipn_all2 by lia.
      change (wrapped (Z.to_nat length) []) with (@nil ascii).
      now rewrite app_nil_r.
Qed.

(** On any stream, and with a line length of at least one, the loop
    returns, with a status, having made no call. *)
Lemma write_line_loop_total E file line length seq_sz :
  1 <= length <= INT_MAX -> seq_sz <= INT_MAX ->
  forall fuel i s,
    0 <= i -> seq_sz - i <= Z.of_nat fuel ->
    exists r s',
      write_line_loop E fuel file line length seq_sz i s = Some (r, s')
      /\ is_status r /\ quiet s s'.
Proof.
  intros Hlen Hsz. induction fuel as [|fuel IH]; intros i s Hi Hfuel.
  - rewrite write_line_loop_done by lia.
    eexists _, _. split; [reflexivity|]. split; [now left | apply quiet_refl].
  - destruct (Z.lt_ge_cases i seq_sz) as [Hlt|Hge].
    2:{ rewrite write_line_loop_done by lia.
        eexists _, _. split; [reflexivity|].
        split; [now left | apply quiet_refl]. }
    rewrite write_line_loop_step by trivial.
    destruct (loop_arith length seq_sz i) as (A1 & A2 & A3); try lia.
    cbv zeta. rewrite A1, A2, A3.
    set (len := if i + length <? seq_sz then length else seq_sz - i).
    unfold bind at 1.
    destruct (fwrite_quiet (firstn (Z.to_nat len) (skipn (Z.to_nat i) line))
                           file s) as (n & s1 & -> & Hq1).
    destruct (Z.of_nat n <? len).
    { eexists _, _. split; [reflexivity|]. split; [now right|].
      eapply quiet_trans; [exact Hq1 | apply quiet_log_err]. }
    unfold bind at 1.
    destruct (fputc_quiet nl file s1) as (c & s2 & -> & Hq2).
    destruct (c =? EOF).
    { eexists _, _. split; [reflexivity|]. split; [now right|].
      eapply quiet_trans; [exact Hq1|].
      eapply quiet_trans; [exact Hq2 | apply quiet_log_err]. }
    destruct (IH (i + length) s2) as (r & s3 & -> & Hr & Hq3); try lia.
    exists r, s3. split; [reflexivity|]. split; [exact Hr|].
    eapply quiet_trans; [exact Hq1|]. eapply quiet_trans; eassumption.
Qed.

(** ** [write_line] *)

Lemma log_err_nil (s : State) : log_err [] s = s.
Proof. destruct s. unfold log_err. simpl. now rewrite app_nil_r. Qed.

(** A failed fetch: one message, nothing written, and the status decided
    by [ignore] and the value [-2]. *)
Lemma write_line_failed_fetch E file line name ignore length seq_len s :
  seq_len < 0 ->
  write_line E file line name ignore length seq_len s
  = Some (if ignore && (seq_len =? -2) then EXIT_SUCCESS else EXIT_FAILURE,
          log_err [failed_fetch_message name] s).
Proof.
  intros H. apply Z.ltb_lt in H. unfold write_line. rewrite H.
  unfold bind, fprintf, eprintf.
  now destruct (ignore && (seq_len =? -2)).
Qed.

Lemma write_line_fetched E file line name ignore length seq_len s :
  0 <= seq_len ->
  write_line E file line name ignore length seq_len s
  = write_line_loop E
      (Z.to_nat (to_size_t seq_len) + room_fuel (get_out file s))
      file line length (to_size_t seq_len) 0
      (log_err (write_line_warnings E name seq_len) s).
Proof.
  intros H. apply Z.ltb_ge in H. unfold write_line. rewrite H.
  unfold bind at 1. unfold write_line_warnings.
  destruct (seq_len =? 0); [reflexivity|].
  destruct (hts_parse_reg E name) as [[beg end_]|];
    [destruct ((end_ <? INT_MAX) && negb (seq_len =? end_ - beg))|];
    unfold ret; rewrite ?log_err_nil; reflexivity.
Qed.

(** A fetched sequence on a stream with room for its body. *)
Lemma write_line_accepts E file line name ignore length seq_len s :
  seq_len = Z.of_nat (List.length line) ->
  seq_len <= INT_MAX ->
  1 <= length <= INT_MAX ->
  accepts (List.length (wrapped (Z.to_nat length) line)) (get_out file s) ->
  write_line E file line name ignore length seq_len s
  = Some (EXIT_SUCCESS,
          upd file (wrapped (Z.to_nat length) line)
              (write_line_warnings E name seq_len) [] s).
Proof.
  intros Hbuf HL HW Hroom.
  rewrite write_line_fetched by lia.
  rewrite to_size_t_small by (unfold INT_MAX in HL; lia).
  subst seq_len.
  rewrite (write_line_loop_accepts E file line length HW HL
             (Z.to_nat (Z.of_nat (List.length line))
              + room_fuel (get_out file s)) [] line);
    trivial; try lia.
  rewrite append_out_upd, (log_err_upd file), upd_upd.
  cbn [app]. now rewrite app_nil_r.
Qed.

(** [write_line] always returns for a line length of at least one. *)
Lemma write_line_total E file line name ignore length seq_len s :
  1 <= length <= INT_MAX -> seq_len <= INT_MAX ->
  exists r s',
    write_line E file line name ignore length seq_len s = Some (r, s')
    /\ is_status r /\ quiet s s'.
Proof.
  intros HW HL. destruct (Z.lt_ge_cases seq_len 0) as [Hneg|Hpos].
  - rewrite write_line_failed_fetch by trivial.
    eexists _, _. split; [reflexivity|]. split; [|apply quiet_log_err].
    destruct (ignore && (seq_len =? -2)); [now left | now right].
  - rewrite write_line_fetched by trivial.
    rewrite to_size_t_small by (unfold INT_MAX in HL; lia).
    destruct (write_line_loop_total E file line length seq_len HW HL
                (Z.to_nat seq_len + room_fuel (get_out file s)) 0
                (log_err (write_line_warnings E name seq_len) s))
      as (r & s' & Hrun & Hr & Hq); try lia.
    exists r, s'. split; [exact Hrun|]. split; [exact Hr|].
    eapply quiet_trans; [apply quiet_log_err | exact Hq].
Qed.

(** ** Records on a healthy stream *)

Lemma healthy_upd file bs msgs evs s :
  healthy (get_out file s) -> healthy (get_out file (upd file bs msgs evs s)).
Proof.
  intros [Hr He]. rewrite get_out_upd. split; [now apply room_FILE_append|].
  exact He.
Qed.

Lemma healthy_accepts n f : healthy f -> accepts n f.
Proof. intros [Hr _]. now apply accepts_unlimited. Qed.

Lemma fprintf_healthy (text : string) (file : outstream) (s : State) :
  healthy (get_out file s) ->
  fprintf file text s
  = Some (tt, upd file (list_ascii_of_string text) [] [] s).
Proof.
  intros H. rewrite fprintf_accepts by now apply healthy_accepts.
  now rewrite append_out_upd.
Qed.

(** The body [write_line] emits, and the messages it sends, for a fetch
    that is fine. *)
Lemma write_line_fine E file name ignore length f s :
  1 <= length <= INT_MAX ->
  healthy (get_out file s) ->
  (snd f = -2 /\ ignore = true) \/ fetched_ok f ->
  write_line E file (fst f) name ignore length (to_int (snd f)) s
  = Some (EXIT_SUCCESS,
          upd file (if snd f <? 0 then []
                    else wrapped (Z.to_nat length) (fst f))
              (write_line_messages E name f) [] s).
Proof.
  intros HW Hs [[Hlen ->]|[Hlen Hmax]]; unfold write_line_messages.
  - rewrite Hlen. change (to_int (-2)) with (-2).
    rewrite write_line_failed_fetch by lia.
    cbn. now rewrite (log_err_upd file).
  - assert (Hpos : 0 <= snd f) by lia.
    rewrite to_int_small by (unfold INT_MIN; lia).
    replace (snd f <? 0) with false by (symmetry; now apply Z.ltb_ge).
    rewrite write_line_accepts; trivial.
    now apply healthy_accepts.
Qed.


(** ** What holds of a computation when it returns *)

Lemma bind_inv {A B} (m : M A) (k : A -> M B) s b s' :
  bind m k s = Some (b, s') ->
  exists a s1, m s = Some (a, s1) /\ k a s1 = Some (b, s').
Proof.
  unfold bind. destruct (m s) as [[a s1]|]; [|discriminate].
  intros H. now exists a, s1.
Qed.

Lemma keeps_healthy_ret {A} file (a : A) : keeps_healthy file (ret a).
Proof. intros s a' s' [= _ <-]. trivial. Qed.

Lemma keeps_healthy_bind {A B} file (m : M A) (k : A -> M B) :
  keeps_healthy file m -> (forall a, keeps_healthy file (k a)) ->
  keeps_healthy file (bind m k).
Proof.
  intros Hm Hk s b s' Hrun Hs.
  apply bind_inv in Hrun as (a & s1 & E1 & E2).
  exact (Hk a _ _ _ E2 (Hm _ _ _ E1 Hs)).
Qed.

Lemma keeps_healthy_call file e : keeps_healthy file (call e).
Proof. intros s a s' [= _ <-]. now destruct file. Qed.

Lemma keeps_healthy_eprintf file msg : keeps_healthy file (eprintf msg).
Proof. intros s a s' [= _ <-]. now destruct file. Qed.

Lemma keeps_healthy_fwrite file bs : keeps_healthy file (fwrite bs file).
Proof.
  intros s n s'. unfold fwrite, FILE_write. intros Hrun [Hr He].
  rewrite Hr in Hrun. injection Hrun as _ <-.
  rewrite get_set_out. now split.
Qed.

Lemma keeps_healthy_fputc file c : keeps_healthy file (fputc c file).
Proof.
  apply keeps_healthy_bind; [apply keeps_healthy_fwrite|].
  intros n. apply keeps_healthy_ret.
Qed.

Lemma keeps_healthy_fprintf_out file text :
  keeps_healthy file (fprintf file text).
Proof.
  apply keeps_healthy_bind; [apply keeps_healthy_fwrite|].
  intros n. apply keeps_healthy_ret.
Qed.

Lemma keeps_healthy_fprintf_stderr file text :
  keeps_healthy file (fprintf stderr text).
Proof. apply keeps_healthy_eprintf. Qed.

Lemma keeps_healthy_print_error_errno file E subcommand text :
  keeps_healthy file (print_error_errno E subcommand text).
Proof. apply keeps_healthy_eprintf. Qed.

Lemma keeps_healthy_free_again file b null :
  keeps_healthy file (free_again b null).
Proof.
  destruct null; [apply keeps_healthy_call | intros s a s' [=]].
Qed.

Ltac keeps_healthy_step :=
  first
    [ apply keeps_healthy_ret
    | apply keeps_healthy_call
    | apply keeps_healthy_fprintf_out
    | apply keeps_healthy_fprintf_stderr
    | apply keeps_healthy_print_error_errno
    | apply keeps_healthy_fwrite
    | apply keeps_healthy_fputc
    | apply keeps_healthy_free_again
    | assumption
    | apply keeps_healthy_bind; [|intros ?]
    | match goal with
      | |- keeps_healthy _ (if ?b then _ else _) => destruct b
      | |- keeps_healthy _ (match ?x with Some _ => _ | None => _ end) =>
          destruct x
      | |- keeps_healthy _ (let (_, _) := ?x in _) => destruct x
      end ].

Lemma keeps_healthy_write_line_loop E file line length seq_sz :
  forall fuel i,
    keeps_healthy file (write_line_loop E fuel file line length seq_sz i).
Proof.
  induction fuel as [|fuel IH]; intros i; cbn [write_line_loop].
  - destruct (i <? seq_sz); [intros s a s' [=] | apply keeps_healthy_ret].
  - cbv zeta. destruct (i <? seq_sz); [|apply keeps_healthy_ret].
    repeat keeps_healthy_step. apply IH.
Qed.

Lemma keeps_healthy_write_line E file line name ignore length seq_len :
  keeps_healthy file (write_line E file line name ignore length seq_len).
Proof.
  unfold write_line. cbv zeta.
  destruct (seq_len <? 0); repeat keeps_healthy_step.
  intros ? ? ?. apply keeps_healthy_write_line_loop.
Qed.

Lemma keeps_healthy_write_output E faid file name ignore length format :
  keeps_healthy file (write_output E faid file name ignore length format).
Proof.
  unfold write_output. cbv zeta.
  repeat first [ apply keeps_healthy_write_line | keeps_healthy_step ].
Qed.

(** A status of failure has a cause: a fetch that failed, or a write
    that failed and was reported. *)
Lemma write_line_loop_failure E file line length seq_sz :
  forall fuel i s s',
    write_line_loop E fuel file line length seq_sz i s
    = Some (EXIT_FAILURE, s') ->
    In (write_error_message E) (err s').
Proof.
  induction fuel as [|fuel IH]; intros i s s'; cbn [write_line_loop].
  - destruct (i <? seq_sz); intros [=].
  - cbv zeta. destruct (i <? seq_sz); [|intros [=]].
    intros Hrun. apply bind_inv in Hrun as (n & s1 & _ & Hrun).
    destruct (Z.of_nat n <? _).
    { injection Hrun as <-. cbn. apply in_or_app. right. now left. }
    apply bind_inv in Hrun as (c & s2 & _ & Hrun).
    destruct (c =? EOF).
    { injection Hrun as <-. cbn. apply in_or_app. right. now left. }
    exact (IH _ _ _ Hrun).
Qed.

Lemma write_line_failure E file line name ignore length seq_len s s' :
  write_line E file line name ignore length seq_len s
  = Some (EXIT_FAILURE, s') ->
  fetch_fails ignore seq_len = true
  \/ In (write_error_message E) (err s').
Proof.
  destruct (Z.lt_ge_cases seq_len 0) as [Hneg|Hpos].
  - rewrite write_line_failed_fetch by trivial. intros Hrun. left.
    unfold fetch_fails.
    replace (seq_len <? 0) with true by (symmetry; now apply Z.ltb_lt).
    destruct (ignore && (seq_len =? -2)); [discriminate | reflexivity].
  - rewrite write_line_fetched by trivial. intros Hrun. right.
    exact (write_line_loop_failure _ _ _ _ _ _ _ _ _ Hrun).
Qed.

(** A computation that returns one of the two exit codes. *)
Lemma write_line_loop_status E file line length seq_sz :
  forall fuel i s r s',
    write_line_loop E fuel file line length seq_sz i s = Some (r, s') ->
    is_status r.
Proof.
  induction fuel as [|fuel IH]; intros i s r s'; cbn [write_line_loop].
  - destruct (i <? seq_sz); intros [=]. subst. now left.
  - cbv zeta. destruct (i <? seq_sz); [|intros [= <- _]; now left].
    intros Hrun. apply bind_inv in Hrun as (n & s1 & _ & Hrun).
    destruct (Z.of_nat n <? _); [injection Hrun as <- _; now right|].
    apply bind_inv in Hrun as (c & s2 & _ & Hrun).
    destruct (c =? EOF); [injection Hrun as <- _; now right|].
    exact (IH _ _ _ _ Hrun).
Qed.

Lemma write_line_status E file line name ignore length seq_len s r s' :
  write_line E file line name ignore length seq_len s = Some (r, s') ->
  is_status r.
Proof.
  destruct (Z.lt_ge_cases seq_len 0) as [Hneg|Hpos].
  - rewrite write_line_failed_fetch by trivial. intros [= <- _].
    destruct (ignore && (seq_len =? -2)); [now left | now right].
  - rewrite write_line_fetched by trivial.
    apply write_line_loop_status.
Qed.

(** ** Growth of the trace and of [stderr] *)

Lemma grows_refl (s : State) : grows [] s s.
Proof.
  split; [now rewrite app_nil_r|]. exists []. now rewrite app_nil_r.
Qed.

Lemma grows_trans (e1 e2 : list event) (s1 s2 s3 : State) :
  grows e1 s1 s2 -> grows e2 s2 s3 -> grows (e1 ++ e2) s1 s3.
Proof.
  intros [H1 [m1 E1]] [H2 [m2 E2]]. split.
  - now rewrite H2, H1, app_assoc.
  - exists (m1 ++ m2). now rewrite E2, E1, app_assoc.
Qed.

Lemma quiet_grows (s s' : State) : quiet s s' -> grows [] s s'.
Proof. intros [H1 H2]. split; [now rewrite app_nil_r | exact H2]. Qed.

Lemma grows_log_calls (evs : list event) (s : State) :
  grows evs s (log_calls evs s).
Proof. split; [reflexivity|]. exists []. simpl. now rewrite app_nil_r. Qed.

Lemma grows_log_err (msgs : list string) (s : State) :
  grows [] s (log_err msgs s).
Proof. apply quiet_grows, quiet_log_err. Qed.

Lemma grows_In_err (evs : list event) (s s' : State) (msg : string) :
  grows evs s s' -> In msg (err s) -> In msg (err s').
Proof. intros [_ [more ->]] H. apply in_or_app. now left. Qed.

Lemma fetches_app (t1 t2 : list event) :
  fetches (t1 ++ t2) = fetches t1 ++ fetches t2.
Proof.
  induction t1 as [|e t1 IH]; [reflexivity|].
  destruct e; cbn [app fetches]; rewrite IH; reflexivity.
Qed.

Lemma grows_fetches (evs : list event) (s s' : State) :
  grows evs s s' -> fetches (trace s') = fetches (trace s) ++ fetches evs.
Proof. intros [-> _]. apply fetches_app. Qed.

(** ** [write_output] when no buffer is freed twice *)

Lemma bind_call {A} (e : event) (k : M A) (s : State) :
  (call e ;;; k) s = k (log_calls [e] s).
Proof. reflexivity. Qed.

Lemma is_status_eqb (r : Z) :
  is_status r ->
  (r = EXIT_FAILURE /\ (r =? EXIT_FAILURE) = true)
  \/ (r = EXIT_SUCCESS /\ (r =? EXIT_FAILURE) = false).
Proof. intros [->| ->]; [right | left]; now split. Qed.

(** What [write_line] does to a fetch, on any stream. *)
Lemma write_line_post E file line name ignore length seq_len s :
  1 <= length <= INT_MAX -> seq_len <= INT_MAX ->
  exists r s',
    write_line E file line name ignore length seq_len s = Some (r, s')
    /\ is_status r /\ quiet s s'
    /\ (fetch_fails ignore seq_len = true -> r = EXIT_FAILURE)
    /\ (ignore = true -> seq_len = -2 -> r = EXIT_SUCCESS)
    /\ (seq_len < 0 -> In (failed_fetch_message name) (err s')).
Proof.
  intros HW HL. destruct (Z.lt_ge_cases seq_len 0) as [Hneg|Hpos].
  - rewrite write_line_failed_fetch by trivial.
    eexists _, _. split; [reflexivity|].
    unfold fetch_fails.
    replace (seq_len <? 0) with true by (symmetry; now apply Z.ltb_lt).
    split; [destruct (ignore && (seq_len =? -2)); [now left | now right]|].
    split; [apply quiet_log_err|].
    split; [now destruct (ignore && (seq_len =? -2))|].
    split; [now intros -> ->|].
    intros _. cbn. apply in_or_app. right. now left.
  - destruct (write_line_total E file line name ignore length seq_len s HW HL)
      as (r & s' & Hrun & Hr & Hq).
    exists r, s'. split; [exact Hrun|]. split; [exact Hr|].
    split; [exact Hq|]. unfold fetch_fails.
    replace (seq_len <? 0) with false by (symmetry; now apply Z.ltb_ge).
    split; [discriminate|]. split; lia.
Qed.

(** What [write_output] does to a region when no buffer is freed twice:
    it returns a status, fetches the region once, fails on a fatal fetch
    and succeeds on a region that is not found in continue mode. *)
Lemma write_output_post E faid file name ignore length format s :
  1 <= length <= INT_MAX ->
  no_double_free faid ignore format (get_out file s) [name] ->
  exists r s' evs,
    write_output E faid file name ignore length format s = Some (r, s')
    /\ is_status r /\ grows evs s s' /\ fetches evs = [name]
    /\ forallb is_record_call evs = true
    /\ (fatal_fetch faid ignore format name = true -> r = EXIT_FAILURE)
    /\ (not_found_tolerated faid ignore format name = true ->
        r = EXIT_SUCCESS)
    /\ (seq_len_of faid name < 0 ->
        In (failed_fetch_message name) (err s')).
Proof.
  intros HW Hsafe. unfold write_output. rewrite bind_call. cbv zeta.
  set (s1 := log_calls [Efai_fetch name] s).
  assert (G1 : grows [Efai_fetch name] s s1) by apply grows_log_calls.
  unfold bind at 1.
  assert (Hhead : exists s2,
    (if format_eqb format FAI_FASTA
     then fprintf file (">" +++ name +++ NL)
     else fprintf file ("@" +++ name +++ NL)) s1 = Some (tt, s2)
    /\ quiet s1 s2
    /\ (healthy (get_out file s) -> healthy (get_out file s2))).
  { destruct (format_eqb format FAI_FASTA);
      match goal with |- context [fprintf ?fp ?t s1] =>
        destruct (fprintf_quiet fp t s1) as (s2 & Hrun & Q2)
      end; (exists s2; split; [exact Hrun|]; split; [exact Q2|]);
      intros Hs; apply (keeps_healthy_fprintf_out _ _ _ _ _ Hrun);
      now destruct file. }
  destruct Hhead as (s2 & -> & Q2 & Hh2).
  unfold bind at 1.
  destruct (write_line_post E file (fst (fai_fetch faid name)) name ignore
              length (to_int (snd (fai_fetch faid name))) s2 HW)
    as (r & s3 & Hrun3 & Hr & Q3 & Hfail & Htol & Hmsg);
    [apply to_int_range|].
  rewrite Hrun3.
  assert (Hh3 : healthy (get_out file s) -> healthy (get_out file s3))
    by (intros Hs; exact (keeps_healthy_write_line _ _ _ _ _ _ _ _ _ _
                            Hrun3 (Hh2 Hs))).
  fold (seq_len_of faid name) in Hfail, Htol, Hmsg.
  pose proof (grows_trans _ _ _ _ _ G1
               (grows_trans _ _ _ _ _ (quiet_grows _ _ Q2)
                            (quiet_grows _ _ Q3))) as G3.
  cbn [app] in G3.
  unfold fatal_fetch, not_found_tolerated.
  destruct (is_status_eqb r Hr) as [[-> ->]|[-> ->]].
  { (* the sequence could not be written *)
    rewrite bind_call. eexists _, _, _. split; [reflexivity|].
    split; [now right|]. split.
    { eapply grows_trans; [exact G3 | apply grows_log_calls]. }
    split; [reflexivity|]. split; [reflexivity|].
    split; [reflexivity|]. split.
    - intros H. apply andb_prop in H as [H _]. apply andb_prop in H as [Hi Hs].
      apply Z.eqb_eq in Hs. specialize (Htol Hi Hs). discriminate.
    - intros H. eapply grows_In_err; [apply grows_log_calls | auto]. }
  rewrite bind_call. set (s4 := log_calls [Efree Seq] s3).
  assert (G4 : grows [Efai_fetch name; Efree Seq] s s4)
    by (apply (grows_trans _ _ _ _ _ G3), grows_log_calls).
  assert (Hm4 : seq_len_of faid name < 0 ->
                In (failed_fetch_message name) (err s4))
    by (intros H; eapply grows_In_err; [apply grows_log_calls | auto]).
  assert (Hnf : fetch_fails ignore (seq_len_of faid name) = false)
    by (destruct (fetch_fails ignore (seq_len_of faid name)); trivial;
        now specialize (Hfail eq_refl)).
  rewrite Hnf. cbn [orb].
  destruct (format_eqb format FAI_FASTQ) eqn:Hfq.
  2:{ eexists _, _, _. split; [reflexivity|]. split; [now left|].
      split; [exact G4|]. split; [reflexivity|]. split; [reflexivity|].
      split; [discriminate|]. split; [reflexivity | exact Hm4]. }
  unfold bind at 1.
  destruct (fprintf_quiet file ("+" +++ NL) s4) as (s5 & Hrun5 & Q5).
  rewrite Hrun5.
  rewrite bind_call. set (s6 := log_calls [Efai_fetchqual name] s5).
  unfold bind at 1.
  destruct (write_line_post E file (fst (fai_fetchqual faid name)) name ignore
              length (to_int (snd (fai_fetchqual faid name))) s6 HW)
    as (r & s7 & Hrun7 & Hr' & Q7 & Hfail' & Htol' & _);
    [apply to_int_range|].
  rewrite Hrun7.
  fold (qual_len_of faid name) in Hfail', Htol'.
  assert (Hnull : r = EXIT_FAILURE ->
                  (to_int (snd (fai_fetch faid name)) <? 0) = true).
  { intros ->. apply Z.ltb_lt.
    destruct Hsafe as [-> | [Hs Hone]]; [discriminate Hfq|].
    apply Forall_inv in Hone.
    destruct Hone as [Hneg | Hqual]; [exact Hneg | exfalso].
    assert (Hs6 : healthy (get_out file s6)).
    { assert (Hs5 : healthy (get_out file s5)).
      { apply (keeps_healthy_fprintf_out _ _ _ _ _ Hrun5).
        unfold s4. specialize (Hh3 Hs). now destruct file. }
      unfold s6. now destruct file. }
    rewrite (write_line_fine E file name ignore length
               (fai_fetchqual faid name) s6 HW Hs6) in Hrun7
      by (destruct Hqual as [H | [H1 H2]]; [now right | left; now split]).
    discriminate Hrun7. }
  pose proof (grows_trans _ _ _ _ _ G4
               (grows_trans _ _ _ _ _ (quiet_grows _ _ Q5)
                  (grows_trans _ _ _ _ _
                     (grows_log_calls [Efai_fetchqual name] s5)
                     (quiet_grows _ _ Q7)))) as G7.
  cbn [app] in G7.
  cbn [andb].
  destruct (is_status_eqb r Hr') as [[-> ->]|[-> ->]].
  - rewrite (Hnull eq_refl). unfold free_again.
    rewrite bind_call. eexists _, _, _. split; [reflexivity|].
    split; [now right|]. split.
    { eapply grows_trans; [exact G7 | apply grows_log_calls]. }
    split; [reflexivity|]. split; [reflexivity|].
    split; [reflexivity|]. split.
    + intros H. apply andb_prop in H as [H Hq].
      apply andb_prop in H as [Hi _]. apply Z.eqb_eq in Hq.
      specialize (Htol' Hi Hq). discriminate.
    + intros H. eapply grows_In_err; [apply grows_log_calls|].
      eapply grows_In_err; [apply quiet_grows, Q7|].
      eapply grows_In_err; [apply grows_log_calls|].
      eapply grows_In_err; [apply quiet_grows, Q5 | auto].
  - rewrite bind_call. eexists _, _, _. split; [reflexivity|].
    split; [now left|]. split.
    { eapply grows_trans; [exact G7 | apply grows_log_calls]. }
    split; [reflexivity|]. split; [reflexivity|]. split.
    + intros H. now specialize (Hfail' H).
    + split; [reflexivity|].
      intros H. eapply grows_In_err; [apply grows_log_calls|].
      eapply grows_In_err; [apply quiet_grows, Q7|].
      eapply grows_In_err; [apply grows_log_calls|].
      eapply grows_In_err; [apply quiet_grows, Q5 | auto].
Qed.

(** The two classes of regions, spelled out. *)
Lemma fetch_fails_spec (ignore : bool) (seq_len : Z) :
  fetch_fails ignore seq_len = true
  <-> seq_len < 0 /\ ~ (ignore = true /\ seq_len = -2).
Proof.
  unfold fetch_fails. rewrite andb_true_iff, negb_true_iff, Z.ltb_lt.
  rewrite andb_false_iff, Z.eqb_neq. split.
  - intros [H [Hi|Hs]]; (split; [exact H|]); intros [Hi' Hs']; congruence.
  - intros [H Hn]. split; [exact H|].
    destruct ignore; [right | now left].
    intros He. apply Hn. now split.
Qed.

Lemma fatal_fetch_spec faid ignore format name :
  fatal_fetch faid ignore format name = true
  <-> (seq_len_of faid name < 0
       /\ ~ (ignore = true /\ seq_len_of faid name = -2))
      \/ (format = FAI_FASTQ
          /\ qual_len_of faid name < 0
          /\ ~ (ignore = true /\ qual_len_of faid name = -2)).
Proof.
  unfold fatal_fetch. rewrite orb_true_iff, andb_true_iff, !fetch_fails_spec.
  destruct format; cbn [format_eqb]; split.
  - intros [H|[H _]]; [now left | discriminate].
  - intros [H|[H _]]; [now left | discriminate].
  - intros [H|[_ H]]; [now left | right]. now split.
  - intros [H|[_ H]]; [now left | right]. now split.
Qed.

Lemma not_found_tolerated_spec faid ignore format name :
  not_found_tolerated faid ignore format name = true
  <-> ignore = true
      /\ seq_len_of faid name = -2
      /\ (format = FAI_FASTQ -> qual_len_of faid name = -2).
Proof.
  unfold not_found_tolerated. rewrite !andb_true_iff, Z.eqb_eq.
  destruct format; cbn [format_eqb].
  - split; [intros [[H1 H2] _] | intros (H1 & H2 & _)]; repeat split;
      trivial. discriminate.
  - rewrite Z.eqb_eq. split; [intros [[H1 H2] H3] | intros (H1 & H2 & H3)];
      repeat split; auto.
Qed.

(** When [write_output] returns, it returns a status, and a status of
    failure has a cause. *)
Lemma write_output_status E faid file name ignore length format s r s' :
  write_output E faid file name ignore length format s = Some (r, s') ->
  is_status r.
Proof.
  unfold write_output. rewrite bind_call. cbv zeta. intros Hrun.
  apply bind_inv in Hrun as (u & s2 & _ & Hrun).
  apply bind_inv in Hrun as (r1 & s3 & _ & Hrun).
  destruct (r1 =? EXIT_FAILURE); [injection Hrun as <- _; now right|].
  rewrite bind_call in Hrun.
  destruct (format_eqb format FAI_FASTQ); [|injection Hrun as <- _; now left].
  apply bind_inv in Hrun as (u5 & s5 & _ & Hrun). rewrite bind_call in Hrun.
  apply bind_inv in Hrun as (r2 & s7 & _ & Hrun).
  destruct (r2 =? EXIT_FAILURE).
  - apply bind_inv in Hrun as (u8 & s8 & _ & Hrun).
    injection Hrun as <- _. now right.
  - injection Hrun as <- _. now left.
Qed.

Lemma write_output_failure E faid file name ignore length format s s' :
  write_output E faid file name ignore length format s
  = Some (EXIT_FAILURE, s') ->
  fatal_fetch faid ignore format name = true
  \/ In (write_error_message E) (err s').
Proof.
  unfold write_output, fatal_fetch. rewrite bind_call. cbv zeta.
  fold (seq_len_of faid name). fold (qual_len_of faid name).
  intros Hrun.
  apply bind_inv in Hrun as (u & s2 & _ & Hrun).
  apply bind_inv in Hrun as (r1 & s3 & Hrun3 & Hrun).
  pose proof (write_line_status _ _ _ _ _ _ _ _ _ _ Hrun3) as Hr1.
  destruct (is_status_eqb r1 Hr1) as [[-> E1]|[-> E1]]; rewrite E1 in Hrun.
  { injection Hrun as <-.
    destruct (write_line_failure _ _ _ _ _ _ _ _ _ Hrun3) as [H|H];
      [left; now rewrite H | right; exact H]. }
  rewrite bind_call in Hrun.
  destruct (format_eqb format FAI_FASTQ); [|discriminate Hrun].
  apply bind_inv in Hrun as (u5 & s5 & _ & Hrun). rewrite bind_call in Hrun.
  apply bind_inv in Hrun as (r2 & s7 & Hrun7 & Hrun).
  pose proof (write_line_status _ _ _ _ _ _ _ _ _ _ Hrun7) as Hr2.
  destruct (is_status_eqb r2 Hr2) as [[-> E2]|[-> E2]]; rewrite E2 in Hrun;
    [|discriminate Hrun].
  apply bind_inv in Hrun as (u8 & s8 & Hfree & Hrun).
  injection Hrun as <-.
  destruct (write_line_failure _ _ _ _ _ _ _ _ _ Hrun7) as [H|H].
  - left. rewrite H. cbn. apply orb_true_r.
  - right. unfold free_again in Hfree.
    destruct (seq_len_of faid name <? 0); [|discriminate Hfree].
    injection Hfree as _ <-. exact H.
Qed.

(** ** The two region loops *)

Lemma positional_loop_failed E fai file_out regions ignore length format s :
  positional_loop E fai file_out regions ignore length format EXIT_FAILURE s
  = Some (EXIT_FAILURE, s).
Proof. now destruct regions. Qed.

(** Both loops process the regions in order up to the first failure. *)
Lemma positional_loop_in_order E fai file_out ignore length format :
  1 <= length <= INT_MAX ->
  forall regions s,
    positional_loop E fai file_out regions ignore length format
                    EXIT_SUCCESS s
    = process_in_order E fai file_out regions ignore length format s.
Proof.
  intros HW. induction regions as [|region regions IH]; intros s;
    [reflexivity|].
  cbn [positional_loop process_in_order].
  change (EXIT_SUCCESS =? EXIT_SUCCESS) with true. cbv iota.
  unfold bind.
  destruct (write_output E fai file_out region ignore length format s)
    as [[r s1]|] eqn:Hrun; [|reflexivity].
  pose proof (write_output_status _ _ _ _ _ _ _ _ _ _ Hrun) as Hr.
  destruct (is_status_eqb r Hr) as [[-> ->]|[-> ->]].
  - apply positional_loop_failed.
  - apply IH.
Qed.

Lemma read_regions_loop_in_order E faid file ignore length format :
  1 <= length <= INT_MAX ->
  forall in_file s,
    read_regions_loop E faid in_file file ignore length format
                      EXIT_SUCCESS s
    = process_in_order E faid file in_file ignore length format s.
Proof.
  intros HW. induction in_file as [|line in_file IH]; intros s;
    [reflexivity|].
  cbn [read_regions_loop process_in_order]. unfold bind.
  destruct (write_output E faid file line ignore length format s)
    as [[r s1]|] eqn:Hrun; [|reflexivity].
  pose proof (write_output_status _ _ _ _ _ _ _ _ _ _ Hrun) as Hr.
  destruct (is_status_eqb r Hr) as [[-> ->]|[-> ->]].
  - reflexivity.
  - apply IH.
Qed.

Lemma read_regions_from_file_in_order E faid file ignore length format :
  1 <= length <= INT_MAX ->
  forall in_file s,
    in_file <> [] ->
    read_regions_from_file E faid in_file file ignore length format s
    = process_in_order E faid file in_file ignore length format s.
Proof.
  intros HW in_file s Hne. destruct in_file as [|line in_file]; [congruence|].
  unfold read_regions_from_file.
  cbn [read_regions_loop process_in_order]. unfold bind.
  destruct (write_output E faid file line ignore length format s)
    as [[r s1]|] eqn:Hrun; [|reflexivity].
  pose proof (write_output_status _ _ _ _ _ _ _ _ _ _ Hrun) as Hr.
  destruct (is_status_eqb r Hr) as [[-> ->]|[-> ->]].
  - reflexivity.
  - now apply read_regions_loop_in_order.
Qed.

Lemma read_regions_from_file_empty E faid file ignore length format s :
  read_regions_from_file E faid [] file ignore length format s
  = Some (EXIT_FAILURE, s).
Proof. reflexivity. Qed.

(** In-order processing, when no buffer is freed twice. *)
Lemma process_in_order_post E faid file ignore length format :
  1 <= length <= INT_MAX ->
  forall all s,
  no_double_free faid ignore format (get_out file s) all ->
  exists x s' evs p rest,
    process_in_order E faid file all ignore length format s = Some (x, s')
    /\ grows evs s s' /\ fetches evs = p
    /\ processed_in_order faid ignore format all p rest x s'
    /\ (all <> [] -> p <> [])
    /\ (forall q r, p = q ++ [r] ->
                    not_found_tolerated faid ignore format r = true ->
                    x = EXIT_SUCCESS)
    /\ forallb is_record_call evs = true
    /\ (x = EXIT_FAILURE -> failed_last E faid ignore format p s')
    /\ (healthy (get_out file s) -> healthy (get_out file s')).
Proof.
  intros HW. induction all as [|region all IH]; intros s Hsafe.
  - exists EXIT_SUCCESS, s, [], [], []. split; [reflexivity|].
    split; [apply grows_refl|]. split; [reflexivity|].
    split; [|split; [congruence | split; [reflexivity|];
      split; [reflexivity|]; split; [discriminate | trivial]]].
    repeat split; try (now left); try (now constructor); try congruence.
    + intros r [].
    + intros r [].
  - cbn [process_in_order]. unfold bind.
    assert (Hsafe1 : no_double_free faid ignore format (get_out file s)
                       [region]).
    { destruct Hsafe as [Hf | [Hs Hall]]; [now left | right].
      split; [exact Hs|]. constructor; [|constructor].
      now apply Forall_inv in Hall. }
    destruct (write_output_post E faid file region ignore length format s HW
                Hsafe1)
      as (r & s1 & evs1 & Hrun1 & Hr & G1 & F1 & C1 & Hfatal & Htol & Hmsg).
    rewrite Hrun1.
    pose proof (keeps_healthy_write_output _ _ _ _ _ _ _ _ _ _ Hrun1) as Hh1.
    destruct (is_status_eqb r Hr) as [[-> ->]|[-> ->]].
    + assert (Hlast : forall q r0, [region] = q ++ [r0] ->
                not_found_tolerated faid ignore format r0 = true -> False).
      { intros q r0 Hq Ht. destruct q as [|a [|b q]]; try discriminate.
        injection Hq as <-. specialize (Htol Ht). discriminate. }
      exists EXIT_FAILURE, s1, evs1, [region], all.
      split; [reflexivity|]. split; [exact G1|]. split; [exact F1|].
      split; [|split; [discriminate|split; [|split; [exact C1|];
        split; [|exact Hh1]]]].
      3:{ intros _. exists [], region. split; [reflexivity|].
          exact (write_output_failure _ _ _ _ _ _ _ _ _ Hrun1). }
      * split; [reflexivity|]. split; [now right|]. split; [reflexivity|].
        split; [constructor|]. split; [reflexivity|]. split.
        -- intros q r0 Hq Ht. now destruct (Hlast q r0).
        -- intros r0 [<-|[]]. exact Hmsg.
      * intros q r0 Hq Ht. now destruct (Hlast q r0).
    + assert (Hsafe2 : no_double_free faid ignore format (get_out file s1)
                         all).
      { destruct Hsafe as [Hf | [Hs Hall]]; [now left | right].
        split; [now apply Hh1|]. now apply Forall_inv_tail in Hall. }
      destruct (IH s1 Hsafe2)
        as (x & s' & evs2 & p & rest & Hrun & G2 & F2 & HP & Hne & Hok & C2
            & Hstop & Hh2).
      destruct HP as (Hall & Hx & Hrest & Hmid & Hfat & Hcont & Hrep).
      exists x, s', (evs1 ++ evs2), (region :: p), rest.
      split; [exact Hrun|]. split; [eapply grows_trans; eassumption|].
      split; [now rewrite fetches_app, F1, F2|].
      split; [|split; [discriminate|split;
        [|split; [now rewrite forallb_app, C1, C2|];
          split; [|intros Hs; now apply Hh2, Hh1]]]].
      3:{ intros Hleft. destruct (Hstop Hleft) as (q & r0 & -> & Hc).
          exists (region :: q), r0. now split. }
      * split; [now rewrite Hall|]. split; [exact Hx|].
        split; [exact Hrest|]. split.
        { destruct p as [|a p]; [constructor|].
          change (removelast (region :: a :: p))
            with (region :: removelast (a :: p)).
          constructor; [|exact Hmid].
          destruct (fatal_fetch faid ignore format region); trivial.
          now specialize (Hfatal eq_refl). }
        split.
        { intros r0 [<-|Hin] Hf; [now specialize (Hfatal Hf) | eauto]. }
        split.
        { intros q r0 Hq Ht. destruct q as [|a q].
          - injection Hq as H1 H2. subst r0. rewrite H2 in Hall, Hne.
            cbn [app] in Hall.
            destruct all as [|b all]; [now symmetry|].
            exfalso. now apply Hne.
          - injection Hq as _ Hq. eauto. }
        intros r0 [<-|Hin] Hneg; [|eauto].
        eapply grows_In_err; [exact G2 | auto].
      * intros q r0 Hq Ht. destruct q as [|a q].
        -- injection Hq as H1 H2. subst r0. rewrite H2 in Hne.
           destruct all as [|b all]; [|exfalso; now apply Hne].
           cbn in Hrun. now injection Hrun as <- _.
        -- injection Hq as _ Hq. eauto.
Qed.

(** ** The region phase of [faidx_core] *)

Lemma processed_in_order_grows faid ignore format all p rest x evs s s' :
  grows evs s s' ->
  processed_in_order faid ignore format all p rest x s ->
  processed_in_order faid ignore format all p rest x s'.
Proof.
  intros G (H1 & H2 & H3 & H4 & H5 & H6 & H7).
  repeat (split; trivial).
  intros r Hin Hneg. eapply grows_In_err; [exact G | auto].
Qed.

Lemma processed_nothing faid ignore format rest s :
  processed_in_order faid ignore format rest [] rest EXIT_FAILURE s.
Proof.
  split; [reflexivity|]. split; [now right|]. split; [reflexivity|].
  split; [constructor|]. split; [intros r []|].
  split; [|intros r []].
  intros q r Hq. now destruct q.
Qed.

Lemma failed_last_grows E faid ignore format p evs s s' :
  grows evs s s' ->
  failed_last E faid ignore format p s ->
  failed_last E faid ignore format p s'.
Proof.
  intros G (q & r & Hp & [Hf|Hw]); exists q, r; (split; [exact Hp|]).
  - now left.
  - right. eapply grows_In_err; eassumption.
Qed.

Lemma failed_last_app E faid ignore format p1 p2 s :
  failed_last E faid ignore format p2 s ->
  failed_last E faid ignore format (p1 ++ p2) s.
Proof.
  intros (q & r & -> & H). exists (p1 ++ q), r.
  split; [now rewrite app_assoc | exact H].
Qed.

Lemma failed_last_nonempty E faid ignore format p s :
  failed_last E faid ignore format p s -> p <> [].
Proof. intros (q & r & -> & _). now destruct q. Qed.

Lemma no_double_free_app_l faid ignore format f l1 l2 :
  no_double_free faid ignore format f (l1 ++ l2) ->
  no_double_free faid ignore format f l1.
Proof.
  intros [H | [Hs H]]; [now left | right]. split; [exact Hs|].
  now apply Forall_app in H.
Qed.

Lemma no_double_free_app_r faid ignore format f g l1 l2 :
  (healthy f -> healthy g) ->
  no_double_free faid ignore format f (l1 ++ l2) ->
  no_double_free faid ignore format g l2.
Proof.
  intros Hfg [H | [Hs H]]; [now left | right]. split; [now apply Hfg|].
  now apply Forall_app in H.
Qed.

(** The release: the exit status is kept unless the flush fails. *)
Lemma faidx_core_release_post E v file_out x s :
  exists s' evs,
    faidx_core_release E v file_out x s
    = Some (if ferror (get_out file_out s) then EXIT_FAILURE else x, s')
    /\ grows evs s s' /\ fetches evs = []
    /\ In Efai_destroy evs
    /\ get_out file_out s' = get_out file_out s.
Proof.
  unfold faidx_core_release. rewrite bind_call.
  unfold bind, fflush. rewrite bind_call.
  assert (Hf : ferror (get_out file_out
                 (log_calls [Efflush] (log_calls [Efai_destroy] s)))
               = ferror (get_out file_out s)) by now destruct file_out.
  rewrite Hf.
  destruct (ferror (get_out file_out s)), (output_file v).
  - eexists _, [Efai_destroy; Efflush; Efclose].
    split; [reflexivity|]. split; [|split; [reflexivity|];
      split; [now left | now destruct file_out]].
    split; [cbn; now rewrite <- !app_assoc|]. eexists. reflexivity.
  - eexists _, [Efai_destroy; Efflush].
    split; [reflexivity|]. split; [|split; [reflexivity|];
      split; [now left | now destruct file_out]].
    split; [cbn; now rewrite <- !app_assoc|]. eexists. reflexivity.
  - eexists _, [Efai_destroy; Efflush; Efclose].
    split; [reflexivity|]. split; [|split; [reflexivity|];
      split; [now left | now destruct file_out]].
    split; [cbn; now rewrite <- !app_assoc|].
    exists []. cbn. now rewrite app_nil_r.
  - eexists _, [Efai_destroy; Efflush].
    split; [reflexivity|]. split; [|split; [reflexivity|];
      split; [now left | now destruct file_out]].
    split; [cbn; now rewrite <- !app_assoc|].
    exists []. cbn. now rewrite app_nil_r.
Qed.

(** The region file: its lines are processed in order. *)
Lemma faidx_core_region_file_post E v fai file_out s :
  1 <= line_len v <= INT_MAX ->
  no_double_free fai (ignore_error v) (format v) (get_out file_out s)
                 (region_lines E v) ->
  exists x s' evs p rest,
    faidx_core_region_file E v fai file_out s = Some (x, s')
    /\ grows evs s s' /\ fetches evs = p
    /\ processed_in_order fai (ignore_error v) (format v)
         (region_lines E v) p rest x s'
    /\ (forall q r, p = q ++ [r] ->
          not_found_tolerated fai (ignore_error v) (format v) r = true ->
          x = EXIT_SUCCESS)
    /\ (x = EXIT_SUCCESS -> region_file v <> None -> p <> [])
    /\ (region_file_ok E v -> region_file v <> None -> p <> [])
    /\ (region_file_ok E v -> x = EXIT_FAILURE ->
        failed_last E fai (ignore_error v) (format v) p s')
    /\ (healthy (get_out file_out s) -> healthy (get_out file_out s')).
Proof.
  intros HW. unfold faidx_core_region_file, region_lines, region_file_ok.
  destruct (region_file v) as [rfn|].
  2:{ intros _. exists EXIT_SUCCESS, s, [], [], []. split; [reflexivity|].
      split; [apply grows_refl|]. split; [reflexivity|].
      split; [|split; [reflexivity | split; [congruence|];
        split; [congruence|]; split; [discriminate | trivial]]].
      split; [reflexivity|]. split; [now left|]. split; [congruence|].
      split; [constructor|]. split; [intros r []|].
      split; [reflexivity | intros r []]. }
  rewrite bind_call. destruct (hopen E rfn) as [rf|].
  2:{ intros _. eexists EXIT_FAILURE, _, [Ehopen rfn], [], [].
      split; [reflexivity|]. split.
      { eapply (grows_trans [Ehopen rfn] []);
          [apply grows_log_calls | apply grows_log_err]. }
      split; [reflexivity|]. split; [apply processed_nothing|].
      split; [intros q r Hq; now destruct q|].
      split; [discriminate|].
      split; [intros (rf & Hrf & _); discriminate Hrf|].
      split; [intros (rf & Hrf & _); discriminate Hrf|].
      now destruct file_out. }
  intros Hsafe.
  set (s1 := log_calls [Ehopen rfn] s).
  assert (Hclose : forall x s2,
    exists s3,
      (call Ehclose ;;;
       (if negb (hclose E =? 0) then
          fprintf stderr ("[faidx] Warning: failed to close " +++ rfn)
        else ret tt) ;;;
       @ret Z x) s2 = Some (x, s3)
      /\ grows [Ehclose] s2 s3
      /\ get_out file_out s3 = get_out file_out s2).
  { intros x s2. rewrite bind_call.
    destruct (negb (hclose E =? 0)); eexists; (split; [reflexivity|]).
    - split; [|now destruct file_out].
      eapply (grows_trans [Ehclose] []);
        [apply grows_log_calls | apply grows_log_err].
    - split; [apply grows_log_calls | now destruct file_out]. }
  destruct rf as [|line rf].
  { unfold bind at 1. rewrite read_regions_from_file_empty.
    destruct (Hclose EXIT_FAILURE s1) as (s3 & -> & G3 & K3).
    exists EXIT_FAILURE, s3, ([Ehopen rfn] ++ [Ehclose]), [], [].
    split; [reflexivity|]. split.
    { eapply grows_trans; [apply grows_log_calls | exact G3]. }
    split; [reflexivity|]. split; [apply processed_nothing|].
    split; [intros q r Hq; now destruct q|].
    split; [discriminate|].
    split; [intros (rf & Hrf & Hne); injection Hrf as <-; congruence|].
    split; [intros (rf & Hrf & Hne); injection Hrf as <-; congruence|].
    rewrite K3. unfold s1. now destruct file_out. }
  unfold bind at 1.
  rewrite read_regions_from_file_in_order by (trivial; discriminate).
  destruct (process_in_order_post E fai file_out (ignore_error v) (line_len v)
              (format v) HW (line :: rf) s1)
    as (x & s2 & evs & p & rest & -> & G2 & F2 & HP & Hne & Hok & _
        & Hstop & Hh2);
    [unfold s1; now destruct file_out|].
  destruct (Hclose x s2) as (s3 & -> & G3 & K3).
  exists x, s3, ([Ehopen rfn] ++ evs ++ [Ehclose]), p, rest.
  split; [reflexivity|]. split.
  { eapply grows_trans; [apply grows_log_calls|].
    eapply grows_trans; eassumption. }
  split. { rewrite !fetches_app, F2. cbn. apply app_nil_r. }
  split. { eapply processed_in_order_grows; eassumption. }
  split; [exact Hok|].
  split; [intros _ _; apply Hne; discriminate|].
  split; [intros _ _; apply Hne; discriminate|].
  split.
  { intros _ Hx. eapply failed_last_grows; [exact G3 | now apply Hstop]. }
  rewrite K3. intros Hs. apply Hh2. unfold s1. now destruct file_out.
Qed.

(** The whole region phase: the lines of the region file, then the
    positional regions, in order, up to the first failure. *)
Lemma faidx_core_regions_post E v fai file_out regions s :
  1 <= line_len v <= INT_MAX ->
  no_double_free fai (ignore_error v) (format v) (get_out file_out s)
                 (region_lines E v ++ regions) ->
  exists exit s' evs p rest,
    faidx_core_regions E v fai file_out regions s = Some (exit, s')
    /\ grows evs s s' /\ fetches evs = p
    /\ processed_in_order fai (ignore_error v) (format v)
         (region_lines E v ++ regions) p rest exit s'
    /\ (region_file_ok E v -> region_lines E v ++ regions <> [] -> p <> [])
    /\ (region_file_ok E v ->
        stopped_on_failure E fai (ignore_error v) (format v) p rest s')
    /\ (region_file_ok E v -> exit = EXIT_FAILURE ->
        failed_last E fai (ignore_error v) (format v) p s'
        \/ ferror (get_out file_out s') = true).
Proof.
  intros HW Hsafe. unfold faidx_core_regions. unfold bind at 1.
  destruct (faidx_core_region_file_post E v fai file_out s HW
              (no_double_free_app_l _ _ _ _ _ _ Hsafe))
    as (x1 & s1 & evs1 & p1 & rest1 & -> & G1 & F1 & HP1 & Hok1 & _ & _
        & Hlast1 & Hh1).
  destruct HP1 as (Hall1 & Hx1 & Hrest1 & Hmid1 & Hfat1 & Hcont1 & Hrep1).
  unfold bind at 1.
  destruct Hx1 as [-> | ->].
  - (* the region file went through *)
    assert (rest1 = []) as ->.
    { destruct rest1; [reflexivity|].
      discriminate Hrest1. discriminate. }
    rewrite app_nil_r in Hall1.
    rewrite positional_loop_in_order by trivial.
    destruct (process_in_order_post E fai file_out (ignore_error v)
                (line_len v) (format v) HW regions s1
                (no_double_free_app_r _ _ _ _ _ _ _ Hh1 Hsafe))
      as (x2 & s2 & evs2 & p2 & rest2 & -> & G2 & F2 & HP2 & Hne2 & _ & _
          & Hlast2 & _).
    destruct HP2 as (Hall2 & Hx2 & Hrest2 & Hmid2 & Hfat2 & Hcont2 & Hrep2).
    destruct (faidx_core_release_post E v file_out x2 s2)
      as (s3 & evs3 & -> & G3 & F3 & _ & K3).
    set (exit := if ferror (get_out file_out s2) then EXIT_FAILURE else x2).
    assert (Hexit : x2 = EXIT_FAILURE -> exit = EXIT_FAILURE)
      by (intros ->; unfold exit; now destruct (ferror _)).
    exists exit, s3, (evs1 ++ evs2 ++ evs3), (p1 ++ p2), rest2.
    split; [reflexivity|]. split.
    { eapply grows_trans; [exact G1|]. eapply grows_trans; eassumption. }
    split. { rewrite !fetches_app, F1, F2, F3. now rewrite app_nil_r. }
    split; [split|]. { now rewrite Hall1, Hall2, app_assoc. }
    split. { unfold exit. destruct (ferror _); [now right | exact Hx2]. }
    split. { auto. }
    split.
    { destruct p2 as [|a p2]; [now rewrite app_nil_r|].
      rewrite removelast_app by discriminate.
      apply Forall_app. split; [|exact Hmid2].
      apply Forall_forall. intros r Hin.
      destruct (fatal_fetch fai (ignore_error v) (format v) r) eqn:Hf;
        trivial.
      discriminate (Hfat1 r Hin Hf). }
    split.
    { intros r Hin Hf. apply in_app_or in Hin as [Hin|Hin].
      - discriminate (Hfat1 r Hin Hf).
      - apply Hexit. eauto. }
    split.
    { intros q r Hq Ht. destruct p2 as [|a p2'].
      - destruct regions as [|b regions'].
        + cbn in Hall2. now symmetry.
        + exfalso. now apply Hne2.
      - destruct (exists_last (l := a :: p2') ltac:(discriminate))
          as (q2 & r2 & Hp2).
        rewrite Hp2 in Hq, Hcont2. rewrite app_assoc in Hq.
        apply app_inj_tail in Hq as [_ <-].
        eapply Hcont2; [reflexivity | exact Ht]. }
    { intros r Hin Hneg. apply in_app_or in Hin as [Hin|Hin].
      + eapply grows_In_err; [exact G3|].
        eapply grows_In_err; [exact G2 | auto].
      + eapply grows_In_err; [exact G3 | auto]. }
    split.
    { intros _ Hne Hp. apply app_eq_nil in Hp as [-> ->].
      destruct regions as [|b regions'];
        [|now apply Hne2].
      apply Hne. now rewrite Hall1. }
    split.
    { intros _ Hleft. eapply failed_last_grows; [exact G3|].
      apply failed_last_app. apply Hlast2. now apply Hrest2. }
    intros _ Hfail. rewrite K3. unfold exit in Hfail.
    destruct (ferror (get_out file_out s2)); [now right | left].
    eapply failed_last_grows; [exact G3|].
    apply failed_last_app. now apply Hlast2.
  - (* the region file failed *)
    rewrite positional_loop_failed.
    destruct (faidx_core_release_post E v file_out EXIT_FAILURE s1)
      as (s3 & evs3 & -> & G3 & F3 & _).
    replace (if ferror (get_out file_out s1) then EXIT_FAILURE
             else EXIT_FAILURE) with EXIT_FAILURE by now destruct (ferror _).
    exists EXIT_FAILURE, s3, (evs1 ++ evs3), p1, (rest1 ++ regions).
    split; [reflexivity|]. split; [eapply grows_trans; eassumption|].
    split. { rewrite fetches_app, F1, F3. apply app_nil_r. }
    split; [split|]. { now rewrite Hall1, app_assoc. }
    split; [now right|]. split; [reflexivity|]. split; [exact Hmid1|].
    split; [reflexivity|]. split.
    { intros q r Hq Ht. discriminate (Hok1 q r Hq Ht). }
    { intros r Hin Hneg. eapply grows_In_err; [exact G3 | auto]. }
    split.
    { intros Hok _. now apply (failed_last_nonempty E fai (ignore_error v)
                                 (format v) p1 s1), Hlast1. }
    split.
    { intros Hok _. eapply failed_last_grows; [exact G3|].
      now apply Hlast1. }
    intros Hok _. left. eapply failed_last_grows; [exact G3|].
    now apply Hlast1.
Qed.

(** ** [usage] and the option loop *)

Ltac step_fprintf s' Q :=
  unfold bind at 1;
  match goal with
  | |- context [fprintf ?fp ?text ?s] =>
      destruct (fprintf_quiet fp text s) as (s' & -> & Q)
  end.

Lemma usage_post fp format exit_status s :
  exists s', usage fp format exit_status s = Some (exit_status, s')
             /\ quiet s s'.
Proof.
  unfold usage. cbv zeta.
  step_fprintf s1 Q1. step_fprintf s2 Q2.
  unfold bind at 1.
  assert (H3 : exists s3,
    (if format_eqb format FAI_FASTA
     then fprintf fp (" -f, --fastq            File and index in FASTQ format."
                      +++ NL)
     else ret tt) s2 = Some (tt, s3) /\ quiet s2 s3).
  { destruct (format_eqb format FAI_FASTA); [apply fprintf_quiet|].
    exists s2. split; [reflexivity | apply quiet_refl]. }
  destruct H3 as (s3 & -> & Q3).
  step_fprintf s4 Q4.
  exists s4. split; [reflexivity|].
  eapply quiet_trans; [exact Q1|]. eapply quiet_trans; [exact Q2|].
  eapply quiet_trans; eassumption.
Qed.

Lemma log_err_log_err (m1 m2 : list string) (s : State) :
  log_err m2 (log_err m1 s) = log_err (m1 ++ m2) s.
Proof. unfold log_err. simpl. now rewrite app_assoc. Qed.

(** The option loop returns; it makes no call; the line length it leaves
    is a valid one; and when it runs to its end it has touched nothing but
    [stderr]. *)
Lemma getopt_loop_post E opts :
  forall v s,
    1 <= line_len v <= INT_MAX ->
    exists r s',
      getopt_loop E opts v s = Some (r, s')
      /\ quiet s s'
      /\ match r with
         | inl x => is_status x
         | inr v' => 1 <= line_len v' <= INT_MAX
                     /\ exists msgs, s' = log_err msgs s
         end.
Proof.
  induction opts as [|[c optarg] opts IH]; intros v s Hv.
  - exists (inr v), s. split; [reflexivity|]. split; [apply quiet_refl|].
    split; [exact Hv|]. exists []. now rewrite log_err_nil.
  - cbn [getopt_loop].
    destruct (c =? "o")%char; [now apply IH|].
    destruct (c =? "n")%char.
    { cbv zeta. destruct (Z.ltb_spec (to_int (atoi E optarg)) 1) as [Hlt|Hge].
      - unfold bind, fprintf, eprintf.
        match goal with |- context [getopt_loop E opts ?v' ?s'] =>
          destruct (IH v' s') as (r & s2 & Hrun & Q & Hr) end.
        { cbn. unfold DEFAULT_FASTA_LINE_LEN, INT_MAX. lia. }
        exists r, s2. split; [exact Hrun|]. split.
        { eapply quiet_trans; [|exact Q]. apply (quiet_log_err [_]). }
        destruct r as [x|v']; [exact Hr|].
        destruct Hr as [Hr [msgs ->]]. split; [exact Hr|].
        eexists. apply (log_err_log_err [_]).
      - apply IH. cbn. pose proof (to_int_range (atoi E optarg)). lia. }
    destruct (c =? "c")%char; [now apply IH|].
    destruct (c =? "r")%char; [now apply IH|].
    destruct (c =? "f")%char; [now apply IH|].
    destruct (c =? "?")%char.
    { unfold bind, eprintf.
      match goal with |- context [usage stderr (format v) EXIT_FAILURE ?st] =>
        destruct (usage_post stderr (format v) EXIT_FAILURE st)
          as (s1 & -> & Q)
      end.
      exists (inl EXIT_FAILURE), s1. split; [reflexivity|].
      split; [|now right].
      eapply quiet_trans; [|exact Q]. apply (quiet_log_err [_]). }
    destruct (c =? "h")%char.
    { unfold bind.
      destruct (usage_post stdout (format v) EXIT_SUCCESS s) as (s1 & -> & Q).
      exists (inl EXIT_SUCCESS), s1. split; [reflexivity|].
      split; [exact Q | now left]. }
    now apply IH.
Qed.

Lemma locals_init_line_len format0 :
  1 <= line_len (locals_init format0) <= INT_MAX.
Proof. cbn. unfold DEFAULT_FASTA_LINE_LEN, INT_MAX. lia. Qed.

(** A run that gets past the options, the load and the [-o] checks and has
    a region to fetch is the region phase on the state reached. *)
Lemma faidx_core_reaches_regions E opts input regions format0 v fai s0 s1 :
  getopt_loop E opts (locals_init format0) s0 = Some (inr v, s1) ->
  regions <> [] \/ region_file v <> None ->
  fai_load_format E input (format v) = Some fai ->
  output_opens E v input ->
  faidx_core E opts (input :: regions) format0 s0
  = faidx_core_regions E v fai (file_out_of v) regions
      (opened_state E v input s1).
Proof.
  intros Hopts Hreg Hload Hout. unfold faidx_core. unfold bind at 1.
  rewrite Hopts.
  assert ((match regions with [] => true | _ => false end)
          && (match region_file v with None => true | _ => false end)
          = false) as ->.
  { destruct regions; [|reflexivity].
    destruct (region_file v); [reflexivity|]. now destruct Hreg. }
  rewrite bind_call, Hload.
  unfold output_opens in Hout. unfold opened_state, file_out_of.
  destruct (output_file v) as [o|]; [|reflexivity].
  destruct Hout as [Hne Hopen]. apply String.eqb_neq in Hne. rewrite Hne.
  rewrite bind_call. destruct (fopen E o); [reflexivity | congruence].
Qed.

(** ** Whole records on a healthy stream *)

(** A fine region on a healthy stream: the record succeeds and emits
    [emitted_text]. *)
Lemma write_output_fine E faid file name ignore length format s :
  1 <= length <= INT_MAX ->
  healthy (get_out file s) ->
  region_fine faid ignore format name ->
  write_output E faid file name ignore length format s
  = Some (EXIT_SUCCESS,
          upd file (emitted_text faid length format name)
              (write_output_messages E faid format name)
              (write_output_calls format name) s).
Proof.
  intros HW Hs Hfine.
  assert (Hseq : (snd (fai_fetch faid name) = -2 /\ ignore = true)
                 \/ fetched_ok (fai_fetch faid name))
    by (destruct Hfine as [[H _]|[Hi [H _]]]; auto).
  assert (Hqual : format = FAI_FASTQ ->
                  (snd (fai_fetchqual faid name) = -2 /\ ignore = true)
                  \/ fetched_ok (fai_fetchqual faid name))
    by (destruct Hfine as [[_ H]|[Hi [_ H]]]; auto).
  assert (Hsame : format = FAI_FASTQ ->
                  (snd (fai_fetchqual faid name) <? 0)
                  = (snd (fai_fetch faid name) <? 0)).
  { intros Hf. destruct Hfine as [[[H1 _] H2]|[_ [H1 H2]]].
    - destruct (H2 Hf) as [H3 _]. rewrite H1, H3.
      transitivity false; [|symmetry]; apply Z.ltb_ge; lia.
    - now rewrite H1, (H2 Hf). }
  unfold write_output. rewrite bind_call.
  set (s1 := log_calls [Efai_fetch name] s).
  unfold bind at 1.
  assert (Hhead :
    (if format_eqb format FAI_FASTA
     then fprintf file (">" +++ name +++ NL)
     else fprintf file ("@" +++ name +++ NL)) s1
    = Some (tt, upd file (header_text format name) [] [Efai_fetch name] s)).
  { unfold header_text, s1.
    destruct (format_eqb format FAI_FASTA);
      (rewrite fprintf_healthy by (now destruct file));
      now rewrite (log_calls_upd file), upd_upd. }
  rewrite Hhead. clear Hhead. unfold bind at 1.
  rewrite (write_line_fine E file name ignore length (fai_fetch faid name)
             (upd file (header_text format name) [] [Efai_fetch name] s)
             HW (healthy_upd _ _ _ _ _ Hs) Hseq).
  change (EXIT_SUCCESS =? EXIT_FAILURE) with false. cbv iota.
  rewrite bind_call, (log_calls_upd file), !upd_upd. cbn [app].
  unfold emitted_text, bare_header_text, record_text,
    write_output_messages, write_output_calls.
  destruct format; cbn [format_eqb].
  - rewrite !app_nil_r.
    destruct (snd (fai_fetch faid name) <? 0); rewrite ?app_nil_r;
      reflexivity.
  - unfold bind at 1. rewrite fprintf_healthy by now apply healthy_upd.
    rewrite bind_call, (log_calls_upd file), !upd_upd. cbn [app].
    unfold bind at 1.
    match goal with |- context [write_line E file _ name ignore length _ ?st] =>
      rewrite (write_line_fine E file name ignore length
                 (fai_fetchqual faid name) st HW
                 (healthy_upd _ _ _ _ _ Hs) (Hqual eq_refl))
    end.
    change (EXIT_SUCCESS =? EXIT_FAILURE) with false. cbv iota.
    rewrite bind_call, (log_calls_upd file), !upd_upd. cbn [app].
    rewrite (Hsame eq_refl). fold separator_text.
    destruct (snd (fai_fetch faid name) <? 0);
      rewrite ?app_nil_r, <- ?app_assoc; reflexivity.
Qed.

Lemma In_write_output_messages E faid format name :
  snd (fai_fetch faid name) < 0 ->
  In (failed_fetch_message name) (write_output_messages E faid format name).
Proof.
  intros H. unfold write_output_messages, write_line_messages.
  apply Z.ltb_lt in H. rewrite H. now left.
Qed.

Lemma process_in_order_fine E faid file ignore length format :
  1 <= length <= INT_MAX ->
  forall all s,
    healthy (get_out file s) ->
    Forall (region_fine faid ignore format) all ->
    process_in_order E faid file all ignore length format s
    = Some (EXIT_SUCCESS,
            upd file (flat_map (emitted_text faid length format) all)
                (flat_map (write_output_messages E faid format) all)
                (flat_map (write_output_calls format) all) s).
Proof.
  intros HW. induction all as [|region all IH]; intros s Hs Hall.
  - cbn. now rewrite upd_nil.
  - inversion Hall as [|? ? Hfine Hrest]; subst.
    cbn [process_in_order flat_map]. unfold bind.
    rewrite (write_output_fine E faid file region ignore length format s
               HW Hs Hfine).
    change (EXIT_SUCCESS =? EXIT_FAILURE) with false. cbv iota.
    rewrite (IH _ (healthy_upd file (emitted_text faid length format region)
                     _ _ s Hs) Hrest).
    now rewrite upd_upd.
Qed.

Lemma In_flat_map_messages E faid format all name :
  In name all -> snd (fai_fetch faid name) < 0 ->
  In (failed_fetch_message name)
     (flat_map (write_output_messages E faid format) all).
Proof.
  intros Hin Hneg. apply in_flat_map. exists name. split; [exact Hin|].
  now apply In_write_output_messages.
Qed.

Lemma hclose_step E rfn x file s :
  exists s',
    (call Ehclose ;;;
     (if negb (hclose E =? 0) then
        fprintf stderr ("[faidx] Warning: failed to close " +++ rfn)
      else ret tt) ;;;
     @ret Z x) s = Some (x, s')
    /\ grows [Ehclose] s s'
    /\ get_out file s' = get_out file s.
Proof.
  rewrite bind_call.
  destruct (negb (hclose E =? 0)); eexists; (split; [reflexivity|]);
    (split; [|now destruct file]).
  - eapply (grows_trans [Ehclose] []);
      [apply grows_log_calls | apply grows_log_err].
  - apply grows_log_calls.
Qed.

(** The release does not write to the output stream. *)
Lemma faidx_core_release_keeps E v file_out x s :
  exists s' evs,
    faidx_core_release E v file_out x s
    = Some (if ferror (get_out file_out s) then EXIT_FAILURE else x, s')
    /\ grows evs s s'
    /\ get_out file_out s' = get_out file_out s.
Proof.
  unfold faidx_core_release. rewrite bind_call.
  unfold bind, fflush. rewrite bind_call.
  assert (Hf : ferror (get_out file_out
                 (log_calls [Efflush] (log_calls [Efai_destroy] s)))
               = ferror (get_out file_out s)) by now destruct file_out.
  rewrite Hf.
  destruct (ferror (get_out file_out s)), (output_file v).
  - eexists _, [Efai_destroy; Efflush; Efclose].
    split; [reflexivity|]. split; [|now destruct file_out].
    split; [cbn; now rewrite <- !app_assoc|]. eexists. reflexivity.
  - eexists _, [Efai_destroy; Efflush].
    split; [reflexivity|]. split; [|now destruct file_out].
    split; [cbn; now rewrite <- !app_assoc|]. eexists. reflexivity.
  - eexists _, [Efai_destroy; Efflush; Efclose].
    split; [reflexivity|]. split; [|now destruct file_out].
    split; [cbn; now rewrite <- !app_assoc|].
    exists []. cbn. now rewrite app_nil_r.
  - eexists _, [Efai_destroy; Efflush].
    split; [reflexivity|]. split; [|now destruct file_out].
    split; [cbn; now rewrite <- !app_assoc|].
    exists []. cbn. now rewrite app_nil_r.
Qed.

(** The region phase on a healthy stream, every region being fine: the
    status is success and the stream gets the text of every region, the
    lines of the region file first. *)
Lemma faidx_core_regions_fine E v fai file_out regions s :
  1 <= line_len v <= INT_MAX ->
  healthy (get_out file_out s) ->
  region_file_ok E v ->
  Forall (region_fine fai (ignore_error v) (format v))
         (region_lines E v ++ regions) ->
  exists s',
    faidx_core_regions E v fai file_out regions s = Some (EXIT_SUCCESS, s')
    /\ contents (get_out file_out s')
       = contents (get_out file_out s)
         ++ flat_map (emitted_text fai (line_len v) (format v))
                     (region_lines E v ++ regions)
    /\ (forall name, In name (region_lines E v ++ regions) ->
                     snd (fai_fetch fai name) < 0 ->
                     In (failed_fetch_message name) (err s')).
Proof.
  intros HW Hs Hrf Hall. apply Forall_app in Hall as [Hlines Hregions].
  assert (Hfile : exists s1,
    faidx_core_region_file E v fai file_out s = Some (EXIT_SUCCESS, s1)
    /\ get_out file_out s1
       = FILE_append (flat_map (emitted_text fai (line_len v) (format v))
                               (region_lines E v)) (get_out file_out s)
    /\ (forall name, In name (region_lines E v) ->
                     snd (fai_fetch fai name) < 0 ->
                     In (failed_fetch_message name) (err s1))).
  { unfold faidx_core_region_file, region_file_ok, region_lines in *.
    destruct (region_file v) as [rfn|].
    2:{ exists s. split; [reflexivity|]. cbn [flat_map].
        rewrite FILE_append_nil. split; [reflexivity | intros name []]. }
    destruct Hrf as (rf & Hopen & Hne). rewrite Hopen in *.
    rewrite bind_call. unfold bind at 1.
    rewrite read_regions_from_file_in_order by trivial.
    rewrite (process_in_order_fine E fai file_out (ignore_error v)
               (line_len v) (format v) HW rf (log_calls [Ehopen rfn] s))
      by (trivial; now destruct file_out).
    match goal with |- context [bind (call Ehclose) ?k ?st] =>
      destruct (hclose_step E rfn EXIT_SUCCESS file_out st)
        as (s1 & -> & G1 & Hout1)
    end.
    exists s1. split; [reflexivity|]. split.
    { rewrite Hout1, get_out_upd. now destruct file_out. }
    intros name Hin Hneg. eapply grows_In_err; [exact G1|].
    rewrite err_upd. apply in_or_app. right.
    now apply In_flat_map_messages. }
  destruct Hfile as (s1 & Hrun1 & Hout1 & Hm1).
  unfold faidx_core_regions. unfold bind at 1. rewrite Hrun1.
  unfold bind at 1. rewrite positional_loop_in_order by trivial.
  assert (Hs1 : healthy (get_out file_out s1)).
  { rewrite Hout1. destruct Hs as [Hr He].
    split; [now apply room_FILE_append | exact He]. }
  rewrite (process_in_order_fine E fai file_out (ignore_error v)
             (line_len v) (format v) HW regions s1 Hs1 Hregions).
  match goal with |- context [faidx_core_release E v file_out _ ?st] =>
    destruct (faidx_core_release_keeps E v file_out EXIT_SUCCESS st)
      as (s3 & evs3 & -> & G3 & Hout3);
    pose proof (healthy_upd file_out
                  (flat_map (emitted_text fai (line_len v) (format v)) regions)
                  (flat_map (write_output_messages E fai (format v)) regions)
                  (flat_map (write_output_calls (format v)) regions)
                  s1 Hs1) as [_ He]
  end.
  rewrite He. exists s3. split; [reflexivity|]. split.
  - rewrite Hout3, get_out_upd, Hout1, FILE_append_app, flat_map_app.
    reflexivity.
  - intros name Hin Hneg. eapply grows_In_err; [exact G3|].
    rewrite err_upd. apply in_or_app.
    apply in_app_or in Hin as [Hin|Hin]; [left; auto | right].
    now apply In_flat_map_messages.
Qed.

(** ** Runs of [faidx_core] *)

Lemma getopt_loop_inr E opts v0 v s0 s1 :
  1 <= line_len v0 <= INT_MAX ->
  getopt_loop E opts v0 s0 = Some (inr v, s1) ->
  1 <= line_len v <= INT_MAX /\ exists msgs, s1 = log_err msgs s0.
Proof.
  intros H0 Hrun.
  destruct (getopt_loop_post E opts v0 s0 H0) as (r & s' & Hrun' & _ & Hr).
  rewrite Hrun in Hrun'. injection Hrun' as <- <-. exact Hr.
Qed.

Lemma opened_state_grows E v input s :
  exists evs, grows evs s (opened_state E v input s) /\ fetches evs = [].
Proof.
  unfold opened_state. cbv zeta.
  destruct (output_file v) as [o|]; [destruct (fopen E o) as [f|]|].
  - exists [Efai_load_format input (format v); Efopen o].
    split; [|reflexivity]. split; [cbn; now rewrite <- app_assoc|].
    exists []. cbn. now rewrite app_nil_r.
  - eexists. split; [apply grows_log_calls | reflexivity].
  - eexists. split; [apply grows_log_calls | reflexivity].
Qed.

Lemma fetches_opened_state E v input msgs s :
  fetches (trace (opened_state E v input (log_err msgs s)))
  = fetches (trace s).
Proof.
  destruct (opened_state_grows E v input (log_err msgs s)) as (evs & G & F).
  rewrite (grows_fetches _ _ _ G), F. cbn. apply app_nil_r.
Qed.

Lemma In_last_of_removelast {A} (P : A -> Prop) (x : A) (p : list A) :
  Forall (fun y => ~ P y) (removelast p) -> In x p -> P x ->
  exists q, p = q ++ [x].
Proof.
  intros Hmid Hin HP. destruct p as [|a p]; [destruct Hin|].
  destruct (exists_last (l := a :: p) ltac:(discriminate)) as (q & y & Hp).
  rewrite Hp in *. rewrite removelast_last in Hmid.
  apply in_app_or in Hin as [Hin|[<-|[]]].
  - rewrite Forall_forall in Hmid. now destruct (Hmid x Hin).
  - now exists q.
Qed.

Lemma emitted_text_valid faid length format name :
  valid_name faid format name ->
  emitted_text faid length format name = record_text faid length format name.
Proof.
  intros [[H _] _]. unfold emitted_text.
  replace (snd (fai_fetch faid name) <? 0) with false; [reflexivity|].
  symmetry. apply Z.ltb_ge. lia.
Qed.

Lemma emitted_text_not_found faid length format name :
  not_found faid format name ->
  emitted_text faid length format name = bare_header_text format name.
Proof. intros [H _]. unfold emitted_text. now rewrite H. Qed.

Lemma flat_map_emitted_valid faid length format names :
  Forall (valid_name faid format) names ->
  flat_map (emitted_text faid length format) names
  = flat_map (record_text faid length format) names.
Proof.
  induction 1 as [|name names Hv _ IH]; [reflexivity|].
  cbn [flat_map]. now rewrite IH, emitted_text_valid.
Qed.

(** Options before a [-h] or an unknown one only set variables and warn. *)
Lemma getopt_loop_app E pre rest :
  Forall (fun o => fst o <> "?"%char /\ fst o <> "h"%char) pre ->
  forall v s,
    1 <= line_len v <= INT_MAX ->
    exists v' msgs,
      getopt_loop E (pre ++ rest) v s
      = getopt_loop E rest v' (log_err msgs s)
      /\ 1 <= line_len v' <= INT_MAX.
Proof.
  induction 1 as [|[c optarg] pre [Hq Hh] _ IH]; intros v s Hv.
  - exists v, []. now rewrite log_err_nil.
  - cbn [fst] in Hq, Hh. apply Ascii.eqb_neq in Hq, Hh.
    assert (Hsame : forall v1, 1 <= line_len v1 <= INT_MAX ->
              exists v' msgs,
                getopt_loop E (pre ++ rest) v1 s
                = getopt_loop E rest v' (log_err msgs s)
                /\ 1 <= line_len v' <= INT_MAX) by (intros; now apply IH).
    cbn [app getopt_loop]. rewrite Hq, Hh.
    destruct (c =? "o")%char; [now apply Hsame|].
    destruct (c =? "n")%char.
    { cbv zeta. destruct (Z.ltb_spec (to_int (atoi E optarg)) 1) as [Hlt|Hge].
      - unfold bind, fprintf, eprintf.
        match goal with |- context [getopt_loop E (pre ++ rest) ?v1 ?s1] =>
          destruct (IH v1 s1) as (v' & msgs & -> & Hv')
        end.
        { cbn. unfold DEFAULT_FASTA_LINE_LEN, INT_MAX. lia. }
        exists v'. eexists. split; [|exact Hv'].
        f_equal. apply (log_err_log_err [_]).
      - apply Hsame. cbn. pose proof (to_int_range (atoi E optarg)). lia. }
    destruct (c =? "c")%char; [now apply Hsame|].
    destruct (c =? "r")%char; [now apply Hsame|].
    destruct (c =? "f")%char; [now apply Hsame|].
    now apply Hsame.
Qed.

(** Without a [-n] the line length stays what it is. *)
Lemma getopt_loop_keeps_line_len E opts :
  Forall (fun o => fst o <> "n"%char) opts ->
  forall v s v' s',
    getopt_loop E opts v s = Some (inr v', s') ->
    line_len v' = line_len v.
Proof.
  induction 1 as [|[c optarg] opts Hn _ IH]; intros v s v' s' Hrun.
  - cbn in Hrun. now injection Hrun as <- _.
  - cbn [fst] in Hn. apply Ascii.eqb_neq in Hn.
    cbn [getopt_loop] in Hrun. rewrite Hn in Hrun.
    destruct (c =? "o")%char; [now apply IH in Hrun|].
    destruct (c =? "c")%char; [now apply IH in Hrun|].
    destruct (c =? "r")%char; [now apply IH in Hrun|].
    destruct (c =? "f")%char; [now apply IH in Hrun|].
    destruct (c =? "?")%char.
    { unfold bind, eprintf in Hrun.
      destruct (usage stderr (format v) EXIT_FAILURE _) as [[? ?]|];
        discriminate. }
    destruct (c =? "h")%char.
    { unfold bind in Hrun.
      destruct (usage stdout (format v) EXIT_SUCCESS s) as [[? ?]|];
        discriminate. }
    now apply IH in Hrun.
Qed.

(** Without a [-f] the format stays what it is. *)
Lemma getopt_loop_keeps_format E opts :
  has_opt "f" opts = false ->
  forall v s v' s',
    getopt_loop E opts v s = Some (inr v', s') ->
    format v' = format v.
Proof.
  induction opts as [|[c optarg] opts IH]; intros Hf v s v' s' Hrun.
  - cbn in Hrun. now injection Hrun as <- _.
  - unfold has_opt in Hf. cbn [existsb fst] in Hf.
    apply orb_false_elim in Hf as [Hc Hf]. fold (has_opt "f" opts) in Hf.
    cbn [getopt_loop] in Hrun. rewrite Hc in Hrun.
    destruct (c =? "o")%char; [now apply (IH Hf) in Hrun|].
    destruct (c =? "n")%char.
    { cbv zeta in Hrun. destruct (to_int (atoi E optarg) <? 1).
      - unfold bind, fprintf, eprintf in Hrun. now apply (IH Hf) in Hrun.
      - now apply (IH Hf) in Hrun. }
    destruct (c =? "c")%char; [now apply (IH Hf) in Hrun|].
    destruct (c =? "r")%char; [now apply (IH Hf) in Hrun|].
    destruct (c =? "?")%char.
    { unfold bind, eprintf in Hrun.
      destruct (usage stderr (format v) EXIT_FAILURE _) as [[? ?]|];
        discriminate. }
    destruct (c =? "h")%char.
    { unfold bind in Hrun.
      destruct (usage stdout (format v) EXIT_SUCCESS s) as [[? ?]|];
        discriminate. }
    now apply (IH Hf) in Hrun.
Qed.

(** ** The index handle *)

(** The two returns between the load and the region loops leave the
    index unreleased. *)
Lemma faidx_core_returns_without_release
    E opts input regions format0 v fai output s0 s1 :
  getopt_loop E opts (locals_init format0) s0 = Some (inr v, s1) ->
  regions <> [] \/ region_file v <> None ->
  fai_load_format E input (format v) = Some fai ->
  output_file v = Some output ->
  output = input \/ fopen E output = None ->
  exists s' evs,
    faidx_core E opts (input :: regions) format0 s0
    = Some (EXIT_FAILURE, s')
    /\ trace s' = trace s0 ++ Efai_load_format input (format v) :: evs
    /\ ~ In Efai_destroy evs.
Proof.
  intros Hopts Hreg Hload Hout Hbad.
  destruct (getopt_loop_inr E opts _ v s0 s1 (locals_init_line_len format0)
              Hopts) as [HW [msgs ->]].
  unfold faidx_core. unfold bind at 1. rewrite Hopts.
  assert ((match regions with [] => true | _ => false end)
          && (match region_file v with None => true | _ => false end)
          = false) as ->.
  { destruct regions; [|reflexivity].
    destruct (region_file v); [reflexivity|]. now destruct Hreg. }
  rewrite bind_call, Hload, Hout.
  destruct (String.eqb_spec output input) as [->|Hne].
  - eexists _, []. split; [reflexivity|]. split; [reflexivity | intros []].
  - destruct Hbad as [->|Hopen]; [congruence|].
    rewrite bind_call, Hopen.
    eexists _, [Efopen output]. split; [reflexivity|].
    split; [cbn; now rewrite <- app_assoc|].
    intros [H|[]]. discriminate.
Qed.

(** ** Termination *)

(** In FASTA format, which no buffer is freed twice in, [faidx_core]
    always returns, with a status: the line length it hands to
    [write_line] is never less than one. *)
Lemma faidx_core_total E opts args s0 :
  has_opt "f" opts = false ->
  exists x s',
    faidx_core E opts args FAI_FASTA s0 = Some (x, s') /\ is_status x.
Proof.
  intros Hf. unfold faidx_core. unfold bind at 1.
  destruct (getopt_loop_post E opts (locals_init FAI_FASTA) s0
              (locals_init_line_len FAI_FASTA))
    as ([x|v] & s1 & Hrun & _ & Hr); rewrite Hrun.
  { exists x, s1. now split. }
  destruct Hr as [HW _].
  assert (Hfmt : format v = FAI_FASTA)
    by exact (getopt_loop_keeps_format E opts Hf _ _ _ _ Hrun).
  destruct args as [|input regions].
  { destruct (usage_post stdout (format v) EXIT_SUCCESS s1) as (s2 & -> & _).
    eexists _, _. split; [reflexivity | now left]. }
  destruct ((match regions with [] => true | _ => false end)
            && (match region_file v with None => true | _ => false end)).
  { rewrite bind_call. destruct (negb (fai_build E input =? 0));
      eexists _, _; (split; [reflexivity|]); [now right | now left]. }
  rewrite bind_call.
  destruct (fai_load_format E input (format v)) as [fai|].
  2:{ eexists _, _. split; [reflexivity | now right]. }
  destruct (output_file v) as [o|].
  2:{ destruct (faidx_core_regions_post E v fai stdout regions
                  (log_calls [Efai_load_format input (format v)] s1) HW
                  (or_introl Hfmt))
        as (x & s' & evs & p & rest & -> & _ & _ & HP & _).
      exists x, s'. split; [reflexivity | apply HP]. }
  destruct (o =? input)%string.
  { eexists _, _. split; [reflexivity | now right]. }
  rewrite bind_call. destruct (fopen E o) as [f|].
  2:{ eexists _, _. split; [reflexivity | now right]. }
  unfold bind at 1.
  match goal with |- context [faidx_core_regions E v fai fopened regions ?st] =>
    destruct (faidx_core_regions_post E v fai fopened regions st HW
                (or_introl Hfmt))
      as (x & s' & evs & p & rest & -> & _ & _ & HP & _)
  end.
  exists x, s'. split; [reflexivity | apply HP].
Qed.

(** With a line length of zero the loop of [write_line] does not
    terminate on a stream that takes every write: no amount of fuel lets
    it return. *)
Lemma write_line_loop_zero_length E file line seq_sz :
  0 < seq_sz ->
  forall fuel s,
    healthy (get_out file s) ->
    write_line_loop E fuel file line 0 seq_sz 0 s = None.
Proof.
  intros Hsz. apply Z.ltb_lt in Hsz as Hlt.
  induction fuel as [|fuel IH]; intros s Hs.
  - cbn [write_line_loop]. now rewrite Hlt.
  - rewrite write_line_loop_step by lia. cbv zeta.
    change (to_size_t (0 + to_size_t 0)) with 0. rewrite Hlt.
    change (to_size_t 0) with 0. change (Z.to_nat 0) with 0%nat.
    cbn [firstn]. unfold bind at 1.
    rewrite fwrite_accepts by now apply healthy_accepts.
    cbn [List.length Z.of_nat]. rewrite Z.ltb_irrefl.
    unfold bind at 1.
    rewrite fputc_accepts
      by (apply healthy_accepts; rewrite get_out_append_out;
          destruct Hs as [Hr He];
          split; [now apply room_FILE_append | exact He]).
    change (Z.of_nat (nat_of_ascii nl) =? EOF) with false. cbv iota.
    apply IH. rewrite !get_out_append_out. destruct Hs as [Hr He].
    split; [now apply room_FILE_append, room_FILE_append | exact He].
Qed.
(** ** The buffers *)


(** ** The option loop as a function of the command line *)

Lemma apply_options_nil E v : apply_options E v [] = v.
Proof.
  destruct v. unfold apply_options. cbn. now rewrite orb_false_r.
Qed.

Lemma option_warnings_cons E c optarg opts :
  option_warnings E ((c, optarg) :: opts)
  = (if (c =? "n")%char && (to_int (atoi E optarg) <? 1)
     then [bad_line_length_message optarg] else [])
    ++ option_warnings E opts.
Proof. reflexivity. Qed.

Ltac options_fields :=
  unfold apply_options; cbn [last_optarg has_opt existsb fst snd
    ignore_error line_len output_file region_file format];
  repeat match goal with
         | H : (_ =? _)%char = false |- _ => rewrite H
         end;
  change ("o" =? "o")%char with true; change ("n" =? "n")%char with true;
  change ("c" =? "c")%char with true; change ("r" =? "r")%char with true;
  change ("f" =? "f")%char with true;
  repeat match goal with
         | |- context [last_optarg ?c ?opts] => destruct (last_optarg c opts)
         end;
  cbn [orb]; rewrite ?orb_true_r, ?orb_false_r; try reflexivity.

(** Options that do not end the loop only set the variables, the last
    argument of an option winning, and warn about bad line lengths. *)
Lemma getopt_loop_prefix E pre rest :
  Forall goes_on pre ->
  forall v s,
    getopt_loop E (pre ++ rest) v s
    = getopt_loop E rest (apply_options E v pre)
        (log_err (option_warnings E pre) s).
Proof.
  induction 1 as [|[c optarg] opts [Hq Hh] _ IH]; intros v s.
  - cbn [app]. now rewrite apply_options_nil, log_err_nil.
  - cbn [fst] in Hq, Hh. apply Ascii.eqb_neq in Hq, Hh.
    cbn [app getopt_loop]. rewrite option_warnings_cons.
    destruct (c =? "o")%char eqn:Ho.
    { apply Ascii.eqb_eq in Ho. subst c. rewrite IH. cbn [andb app].
      f_equal. options_fields. }
    destruct (c =? "n")%char eqn:Hn.
    { apply Ascii.eqb_eq in Hn. subst c. cbv zeta. cbn [andb].
      destruct (to_int (atoi E optarg) <? 1) eqn:Hbad.
      - unfold bind, fprintf, eprintf. rewrite IH.
        fold (bad_line_length_message optarg).
        change (mkState (std s) (usr s)
                  (err s ++ [bad_line_length_message optarg]) (trace s))
          with (log_err [bad_line_length_message optarg] s).
        rewrite log_err_log_err. f_equal.
        options_fields; unfold line_len_of; now rewrite Hbad.
      - rewrite IH. cbn [app]. f_equal.
        options_fields; unfold line_len_of; now rewrite Hbad. }
    cbn [andb app].
    destruct (c =? "c")%char eqn:Hc.
    { apply Ascii.eqb_eq in Hc. subst c. rewrite IH.
      f_equal. options_fields. }
    destruct (c =? "r")%char eqn:Hr.
    { apply Ascii.eqb_eq in Hr. subst c. rewrite IH.
      f_equal. options_fields. }
    destruct (c =? "f")%char eqn:Hf.
    { apply Ascii.eqb_eq in Hf. subst c. rewrite IH.
      f_equal. options_fields.
      all: now destruct (has_opt "f" opts). }
    rewrite Hq, Hh, IH. f_equal. options_fields.
Qed.

Lemma getopt_loop_apply_options E opts :
  Forall goes_on opts ->
  forall v s,
    getopt_loop E opts v s
    = Some (inr (apply_options E v opts),
            log_err (option_warnings E opts) s).
Proof.
  intros H v s. rewrite <- (app_nil_r opts) at 1.
  now rewrite getopt_loop_prefix.
Qed.

Lemma getopt_loop_options_of E opts format0 s :
  Forall goes_on opts ->
  getopt_loop E opts (locals_init format0) s
  = Some (inr (options_of E format0 opts),
          log_err (option_warnings E opts) s).
Proof. intros H. now apply getopt_loop_apply_options. Qed.

(** The first [-h] ends the loop through [usage] on [stdout], the first
    unknown option through [usage] on [stderr], after the line that
    [getopt_long] has printed. *)
Lemma getopt_loop_help E pre optarg post v s :
  Forall goes_on pre ->
  getopt_loop E (pre ++ ("h"%char, optarg) :: post) v s
  = (r <- usage stdout (format (apply_options E v pre)) EXIT_SUCCESS ;;
     ret (inl r)) (log_err (option_warnings E pre) s).
Proof. intros H. now rewrite getopt_loop_prefix. Qed.

Lemma getopt_loop_unknown E pre optarg post v s :
  Forall goes_on pre ->
  getopt_loop E (pre ++ ("?"%char, optarg) :: post) v s
  = (eprintf optarg ;;;
     r <- usage stderr (format (apply_options E v pre)) EXIT_FAILURE ;;
     ret (inl r)) (log_err (option_warnings E pre) s).
Proof. intros H. now rewrite getopt_loop_prefix. Qed.

Lemma line_len_of_range E optarg : 1 <= line_len_of E optarg <= INT_MAX.
Proof.
  unfold line_len_of.
  destruct (Z.ltb_spec (to_int (atoi E optarg)) 1).
  - unfold DEFAULT_FASTA_LINE_LEN, INT_MAX. lia.
  - pose proof (to_int_range (atoi E optarg)). lia.
Qed.

Lemma options_of_line_len E format0 opts :
  1 <= line_len (options_of E format0 opts) <= INT_MAX.
Proof.
  unfold options_of, apply_options. cbn [line_len].
  destruct (last_optarg "n" opts); [apply line_len_of_range|].
  apply locals_init_line_len.
Qed.

(** ** [usage] on each stream *)

Lemma usage_stderr format exit_status s :
  usage stderr format exit_status s
  = Some (exit_status, log_err (usage_lines format) s).
Proof.
  destruct format; unfold usage, bind, fprintf, eprintf, ret, log_err;
    cbn; rewrite <- !app_assoc; reflexivity.
Qed.

Lemma fprintf_out_any (text : string) (file : outstream) (s : State) :
  exists f', fprintf file text s = Some (tt, set_out file f' s).
Proof.
  unfold fprintf, bind, fwrite.
  destruct (FILE_write (list_ascii_of_string text) (get_out file s))
    as [n f].
  now exists f.
Qed.

(** On [stdout] the usage changes nothing but [stdout]. *)
Lemma usage_stdout_any format exit_status s :
  exists f', usage stdout format exit_status s
             = Some (exit_status, set_out stdout f' s).
Proof.
  unfold usage. cbv zeta. unfold bind at 1.
  match goal with |- context [fprintf ?fp ?t s] =>
    destruct (fprintf_out_any t stdout s) as (f1 & ->) end.
  unfold bind at 1.
  match goal with |- context [fprintf ?fp ?t (set_out stdout f1 s)] =>
    destruct (fprintf_out_any t stdout (set_out stdout f1 s)) as (f2 & ->)
  end.
  rewrite set_set_out. unfold bind at 1.
  destruct (format_eqb format FAI_FASTA).
  - match goal with |- context [fprintf ?fp ?t (set_out stdout f2 s)] =>
      destruct (fprintf_out_any t stdout (set_out stdout f2 s)) as (f3 & ->)
    end.
    rewrite set_set_out. unfold bind at 1.
    match goal with |- context [fprintf ?fp ?t (set_out stdout f3 s)] =>
      destruct (fprintf_out_any t stdout (set_out stdout f3 s)) as (f4 & ->)
    end.
    rewrite set_set_out. now exists f4.
  - unfold ret at 1. unfold bind at 1.
    match goal with |- context [fprintf ?fp ?t (set_out stdout f2 s)] =>
      destruct (fprintf_out_any t stdout (set_out stdout f2 s)) as (f3 & ->)
    end.
    rewrite set_set_out. now exists f3.
Qed.

(** On a healthy [stdout] the usage is written in full. *)
Lemma usage_stdout_healthy format exit_status s :
  healthy (std s) ->
  usage stdout format exit_status s
  = Some (exit_status, append_out stdout (usage_text format) s).
Proof.
  intros Hs. unfold usage, usage_text, usage_lines. cbv zeta.
  assert (H0 : healthy (get_out stdout s)) by exact Hs.
  unfold bind at 1. rewrite fprintf_healthy by exact H0.
  unfold bind at 1. rewrite fprintf_healthy by now apply healthy_upd.
  rewrite upd_upd. unfold bind at 1.
  destruct (format_eqb format FAI_FASTA).
  - rewrite fprintf_healthy by now apply healthy_upd.
    rewrite upd_upd. unfold bind at 1.
    rewrite fprintf_healthy by now apply healthy_upd.
    rewrite upd_upd, append_out_upd. cbn [app flat_map].
    now rewrite <- !app_assoc, !app_nil_r.
  - unfold ret at 1. unfold bind at 1.
    rewrite fprintf_healthy by now apply healthy_upd.
    rewrite upd_upd, append_out_upd. cbn [app flat_map].
    now rewrite <- !app_assoc, !app_nil_r.
Qed.

(** ** The calls of a run, in order *)

Lemma record_calls_region_calls (evs : list event) :
  forallb is_record_call evs = true -> forallb is_region_call evs = true.
Proof.
  rewrite !forallb_forall. intros H e He. specialize (H e He).
  now destruct e.
Qed.

Lemma log_calls_log_calls (e1 e2 : list event) (s : State) :
  log_calls e2 (log_calls e1 s) = log_calls (e1 ++ e2) s.
Proof. unfold log_calls. simpl. now rewrite app_assoc. Qed.

Lemma trace_opened_state E v input s :
  output_opens E v input ->
  trace (opened_state E v input s) = trace s ++ opening_calls v input.
Proof.
  unfold output_opens, opened_state, opening_calls.
  destruct (output_file v) as [output|]; [|reflexivity].
  intros [_ Hopen]. destruct (fopen E output); [|contradiction].
  cbn. now rewrite <- app_assoc.
Qed.

Lemma faidx_core_region_file_region_calls E v fai file_out s :
  1 <= line_len v <= INT_MAX ->
  no_double_free fai (ignore_error v) (format v) (get_out file_out s)
                 (region_lines E v) ->
  exists x s' evs,
    faidx_core_region_file E v fai file_out s = Some (x, s')
    /\ is_status x
    /\ trace s' = trace s ++ evs
    /\ forallb is_region_call evs = true
    /\ (healthy (get_out file_out s) -> healthy (get_out file_out s')).
Proof.
  intros HW. unfold faidx_core_region_file, region_lines.
  destruct (region_file v) as [rfn|].
  2:{ intros _. exists EXIT_SUCCESS, s, []. split; [reflexivity|].
      split; [now left|]. split; [now rewrite app_nil_r|].
      split; [reflexivity | trivial]. }
  rewrite bind_call. destruct (hopen E rfn) as [[|line rf]|]; intros Hsafe.
  - unfold bind at 1. rewrite read_regions_from_file_empty.
    destruct (hclose_step E rfn EXIT_FAILURE file_out
                (log_calls [Ehopen rfn] s)) as (s3 & -> & [G3 _] & K3).
    exists EXIT_FAILURE, s3, [Ehopen rfn; Ehclose].
    split; [reflexivity|]. split; [now right|]. split.
    { rewrite G3. cbn. now rewrite <- app_assoc. }
    split; [reflexivity|]. rewrite K3. now destruct file_out.
  - unfold bind at 1.
    rewrite read_regions_from_file_in_order by (trivial; discriminate).
    destruct (process_in_order_post E fai file_out (ignore_error v)
                (line_len v) (format v) HW (line :: rf)
                (log_calls [Ehopen rfn] s))
      as (x & s2 & evs & p & rest & -> & [G2 _] & _ & HP & _ & _ & C & _
          & Hh2);
      [now destruct file_out|].
    destruct (hclose_step E rfn x file_out s2) as (s3 & -> & [G3 _] & K3).
    exists x, s3, ([Ehopen rfn] ++ evs ++ [Ehclose]).
    split; [reflexivity|]. split; [apply HP|]. split.
    { rewrite G3, G2. cbn. now rewrite <- !app_assoc. }
    split.
    { rewrite !forallb_app, (record_calls_region_calls _ C). reflexivity. }
    rewrite K3. intros Hs. apply Hh2. now destruct file_out.
  - eexists EXIT_FAILURE, _, [Ehopen rfn].
    split; [reflexivity|]. split; [now right|]. split; [reflexivity|].
    split; [reflexivity|]. now destruct file_out.
Qed.

Lemma faidx_core_release_trace E v file_out x s :
  exists s',
    faidx_core_release E v file_out x s
    = Some (if ferror (get_out file_out s) then EXIT_FAILURE else x, s')
    /\ trace s' = trace s ++ closing_calls v.
Proof.
  unfold faidx_core_release, closing_calls. rewrite bind_call.
  unfold bind, fflush. rewrite bind_call.
  assert (Hf : ferror (get_out file_out
                 (log_calls [Efflush] (log_calls [Efai_destroy] s)))
               = ferror (get_out file_out s)) by now destruct file_out.
  rewrite Hf.
  destruct (ferror (get_out file_out s)), (output_file v);
    (eexists; split; [reflexivity|]; cbn; now rewrite <- !app_assoc).
Qed.

Lemma get_out_opened_state_log_err E v input msgs s :
  get_out (file_out_of v) (opened_state E v input (log_err msgs s))
  = get_out (file_out_of v) (opened_state E v input s).
Proof.
  unfold opened_state, file_out_of.
  destruct (output_file v) as [o|]; [|reflexivity].
  now destruct (fopen E o).
Qed.

(** The region phase: calls of the region loops, then the release. *)
Lemma faidx_core_regions_protocol E v fai file_out regions s :
  1 <= line_len v <= INT_MAX ->
  no_double_free fai (ignore_error v) (format v) (get_out file_out s)
                 (region_lines E v ++ regions) ->
  exists exit s' middle,
    faidx_core_regions E v fai file_out regions s = Some (exit, s')
    /\ is_status exit
    /\ trace s' = trace s ++ middle ++ closing_calls v
    /\ forallb is_region_call middle = true.
Proof.
  intros HW Hsafe. unfold faidx_core_regions. unfold bind at 1.
  destruct (faidx_core_region_file_region_calls E v fai file_out s HW
              (no_double_free_app_l _ _ _ _ _ _ Hsafe))
    as (x1 & s1 & evs1 & -> & Hx1 & T1 & N1 & Hh1).
  unfold bind at 1.
  assert (Hpos : exists x2 s2 evs2,
    positional_loop E fai file_out regions (ignore_error v) (line_len v)
                    (format v) x1 s1 = Some (x2, s2)
    /\ is_status x2
    /\ trace s2 = trace s1 ++ evs2 /\ forallb is_region_call evs2 = true).
  { destruct Hx1 as [-> | ->].
    - rewrite positional_loop_in_order by trivial.
      destruct (process_in_order_post E fai file_out (ignore_error v)
                  (line_len v) (format v) HW regions s1
                  (no_double_free_app_r _ _ _ _ _ _ _ Hh1 Hsafe))
        as (x2 & s2 & evs2 & p & rest & -> & [G2 _] & _ & HP & _ & _ & C
            & _).
      exists x2, s2, evs2. split; [reflexivity|]. split; [apply HP|].
      split; [exact G2|]. now apply record_calls_region_calls.
    - rewrite positional_loop_failed. exists EXIT_FAILURE, s1, [].
      split; [reflexivity|]. split; [now right|].
      split; [now rewrite app_nil_r | reflexivity]. }
  destruct Hpos as (x2 & s2 & evs2 & -> & Hx2 & T2 & N2).
  destruct (faidx_core_release_trace E v file_out x2 s2) as (s3 & -> & T3).
  eexists _, s3, (evs1 ++ evs2). split; [reflexivity|]. split.
  { destruct (ferror (get_out file_out s2)); [now right | exact Hx2]. }
  split.
  { rewrite T3, T2, T1. now rewrite <- !app_assoc. }
  now rewrite forallb_app, N1, N2.
Qed.

(** A run whose options do not end the loop, with a region to fetch. *)
Lemma faidx_core_options_regions E opts input regions format0 fai s0 :
  Forall goes_on opts ->
  regions <> [] \/ region_file (options_of E format0 opts) <> None ->
  fai_load_format E input (format (options_of E format0 opts)) = Some fai ->
  output_opens E (options_of E format0 opts) input ->
  faidx_core E opts (input :: regions) format0 s0
  = faidx_core_regions E (options_of E format0 opts) fai
      (file_out_of (options_of E format0 opts)) regions
      (opened_state E (options_of E format0 opts) input
         (log_err (option_warnings E opts) s0)).
Proof.
  intros H Hreg Hload Hout.
  apply (faidx_core_reaches_regions E opts input regions format0
           (options_of E format0 opts) fai s0
           (log_err (option_warnings E opts) s0)); trivial.
  now apply getopt_loop_options_of.
Qed.

(** The part of [faidx_core] after the option loop, for a run with a
    region to fetch. *)
Lemma faidx_core_options_load E opts input regions format0 s0 :
  Forall goes_on opts ->
  regions <> [] \/ region_file (options_of E format0 opts) <> None ->
  faidx_core E opts (input :: regions) format0 s0
  = (let v := options_of E format0 opts in
     match fai_load_format E input (format v) with
     | None =>
         fprintf stderr ("[faidx] Could not load fai index of "
                         +++ input +++ NL) ;;;
         ret EXIT_FAILURE
     | Some fai =>
         match output_file v with
         | Some output_file =>
             if (output_file =? input)%string then
               fprintf stderr ("[faidx] Same input/output : "
                               +++ output_file +++ NL) ;;;
               ret EXIT_FAILURE
             else
               call (Efopen output_file) ;;;
               match fopen E output_file with
               | None =>
                   fprintf stderr ("[faidx] Cannot open " +++ DQUOTE
                                   +++ output_file +++ DQUOTE
                                   +++ " for writing :"
                                   +++ strerror_errno E +++ "." +++ NL) ;;;
                   ret EXIT_FAILURE
               | Some f =>
                   (fun s => Some (tt, set_out fopened f s)) ;;;
                   faidx_core_regions E v fai fopened regions
               end
         | None => faidx_core_regions E v fai stdout regions
         end
     end)
      (log_calls [Efai_load_format input
                    (format (options_of E format0 opts))]
         (log_err (option_warnings E opts) s0)).
Proof.
  intros H Hreg. unfold faidx_core. unfold bind at 1.
  rewrite getopt_loop_options_of by exact H.
  assert ((match regions with [] => true | _ => false end)
          && (match region_file (options_of E format0 opts) with
              | None => true | _ => false end)
          = false) as ->.
  { destruct regions; [|reflexivity].
    destruct (region_file (options_of E format0 opts)); [reflexivity|].
    now destruct Hreg. }
  now rewrite bind_call.
Qed.

(** Fine regions free no buffer twice on a healthy stream. *)
Lemma region_fine_no_double_free faid ignore format f all :
  healthy f ->
  Forall (region_fine faid ignore format) all ->
  no_double_free faid ignore format f all.
Proof.
  intros Hf Hall. destruct format; [now left | right].
  split; [exact Hf|]. eapply Forall_impl; [|exact Hall].
  intros name [[_ Hq] | [Hi [Hs _]]].
  - right. left. now apply Hq.
  - left. unfold seq_len_of. rewrite Hs. reflexivity.
Qed.

(** ** The stream a run does not write to *)

Lemma writes_to_ret {A} file (a : A) : writes_to file (ret a).
Proof. intros s a' s' [= _ <-]. reflexivity. Qed.

Lemma writes_to_bind {A B} file (m : M A) (k : A -> M B) :
  writes_to file m -> (forall a, writes_to file (k a)) ->
  writes_to file (bind m k).
Proof.
  intros Hm Hk s b s'. unfold bind.
  destruct (m s) as [[a s1]|] eqn:E1; [|discriminate].
  intros E2. rewrite (Hk a _ _ _ E2). exact (Hm _ _ _ E1).
Qed.

Lemma writes_to_call file e : writes_to file (call e).
Proof. intros s a s' [= _ <-]. now destruct file. Qed.

Lemma writes_to_eprintf file msg : writes_to file (eprintf msg).
Proof. intros s a s' [= _ <-]. now destruct file. Qed.

Lemma writes_to_fwrite file bs : writes_to file (fwrite bs file).
Proof.
  intros s n s'. unfold fwrite.
  destruct (FILE_write bs (get_out file s)) as [n' f].
  intros [= _ <-]. now destruct file.
Qed.

Lemma writes_to_fputc file c : writes_to file (fputc c file).
Proof.
  apply writes_to_bind; [apply writes_to_fwrite|].
  intros n. apply writes_to_ret.
Qed.

Lemma writes_to_fprintf_out file text : writes_to file (fprintf file text).
Proof.
  apply writes_to_bind; [apply writes_to_fwrite|].
  intros n. apply writes_to_ret.
Qed.

Lemma writes_to_fprintf_stderr file text :
  writes_to file (fprintf stderr text).
Proof. apply writes_to_eprintf. Qed.

Lemma writes_to_print_error_errno file E subcommand text :
  writes_to file (print_error_errno E subcommand text).
Proof. apply writes_to_eprintf. Qed.

Lemma writes_to_fflush file : writes_to file (fflush file).
Proof.
  apply writes_to_bind; [apply writes_to_call|].
  intros _ s a s' [= _ <-]. reflexivity.
Qed.

Lemma writes_to_set_out file f :
  writes_to file (fun s => Some (tt, set_out file f s)).
Proof. intros s a s' [= _ <-]. now destruct file. Qed.

Lemma writes_to_free_again file b null : writes_to file (free_again b null).
Proof. destruct null; [apply writes_to_call | intros s a s' [=]]. Qed.

Ltac writes_to_step :=
  first
    [ apply writes_to_ret
    | apply writes_to_call
    | apply writes_to_fprintf_out
    | apply writes_to_fprintf_stderr
    | apply writes_to_print_error_errno
    | apply writes_to_fwrite
    | apply writes_to_fputc
    | apply writes_to_fflush
    | apply writes_to_set_out
    | apply writes_to_free_again
    | assumption
    | apply writes_to_bind; [|intros ?]
    | match goal with
      | |- writes_to _ (if ?b then _ else _) => destruct b
      | |- writes_to _ (match ?x with Some _ => _ | None => _ end) =>
          destruct x
      | |- writes_to _ (let (_, _) := ?x in _) => destruct x
      end ].

Lemma writes_to_write_line_loop E file line length seq_sz :
  forall fuel i,
    writes_to file (write_line_loop E fuel file line length seq_sz i).
Proof.
  induction fuel as [|fuel IH]; intros i; cbn [write_line_loop].
  - destruct (i <? seq_sz); [intros s a s' [=] | apply writes_to_ret].
  - cbv zeta. destruct (i <? seq_sz); [|apply writes_to_ret].
    repeat writes_to_step. apply IH.
Qed.

Lemma writes_to_write_line E file line name ignore length seq_len :
  writes_to file (write_line E file line name ignore length seq_len).
Proof.
  unfold write_line. cbv zeta.
  destruct (seq_len <? 0); repeat writes_to_step.
  intros s0 r s1 Hrun.
  exact (writes_to_write_line_loop _ _ _ _ _ _ _ _ _ _ Hrun).
Qed.

Lemma writes_to_write_output E faid file name ignore length format :
  writes_to file (write_output E faid file name ignore length format).
Proof.
  unfold write_output. cbv zeta.
  repeat first [ apply writes_to_write_line | writes_to_step ].
Qed.

Lemma writes_to_read_regions_loop E faid file ignore length format :
  forall in_file ret0,
    writes_to file
      (read_regions_loop E faid in_file file ignore length format ret0).
Proof.
  induction in_file as [|line in_file IH]; intros ret0;
    cbn [read_regions_loop]; [apply writes_to_ret|].
  apply writes_to_bind; [apply writes_to_write_output|].
  intros r. destruct (r =? EXIT_FAILURE); [apply writes_to_ret | apply IH].
Qed.

Lemma writes_to_positional_loop E fai file_out ignore length format :
  forall regions exit_status,
    writes_to file_out
      (positional_loop E fai file_out regions ignore length format
         exit_status).
Proof.
  induction regions as [|region regions IH]; intros exit_status;
    cbn [positional_loop]; [apply writes_to_ret|].
  destruct (exit_status =? EXIT_SUCCESS); [|apply writes_to_ret].
  apply writes_to_bind; [apply writes_to_write_output|].
  intros r. apply IH.
Qed.

Lemma writes_to_faidx_core_regions E v fai file_out regions :
  writes_to file_out (faidx_core_regions E v fai file_out regions).
Proof.
  unfold faidx_core_regions, faidx_core_region_file, faidx_core_release,
    read_regions_from_file.
  repeat first [ apply writes_to_read_regions_loop
               | apply writes_to_positional_loop
               | writes_to_step ].
Qed.

(** ** [write_line] on a stream that runs out of room *)

Lemma fwrite_room (bs : list ascii) (file : outstream) (s : State) r :
  room (get_out file s) = Some r ->
  fwrite bs file s
  = Some (if (List.length bs <=? r)%nat
          then (List.length bs,
                set_out file
                  (mkFILE (contents (get_out file s) ++ bs)
                          (Some (r - List.length bs)%nat)
                          (ferror (get_out file s))) s)
          else (r, set_out file (FILE_cut bs r (get_out file s)) s)).
Proof.
  intros H. unfold fwrite, FILE_write. rewrite H.
  now destruct (List.length bs <=? r)%nat.
Qed.

Lemma log_err_set_out (file : outstream) (f : FILE) (msgs : list string)
    (s : State) :
  log_err msgs (set_out file f s) = set_out file f (log_err msgs s).
Proof. now destruct file. Qed.

(** The loop on a stream with room for [r] bytes, fewer than the body
    has: the stream gets the first [r] bytes of the body, the failure is
    reported once, and the loop ends at once with status failure. *)
Lemma write_line_loop_short E file line length :
  1 <= length <= INT_MAX ->
  Z.of_nat (List.length line) <= INT_MAX ->
  forall fuel pre rest s r,
    line = pre ++ rest ->
    (List.length rest <= fuel)%nat ->
    room (get_out file s) = Some r ->
    (r < List.length (wrapped (Z.to_nat length) rest))%nat ->
    write_line_loop E fuel file line length (Z.of_nat (List.length line))
                    (Z.of_nat (List.length pre)) s
    = Some (EXIT_FAILURE,
            log_err [write_error_message E]
              (set_out file
                 (FILE_cut (wrapped (Z.to_nat length) rest) r
                           (get_out file s)) s)).
Proof.
  intros Hlen Hline.
  assert (Hw : (1 <= Z.to_nat length)%nat) by lia.
  induction fuel as [|fuel IH]; intros pre rest s r Heq Hfuel Hroom Hr.
  { destruct rest; [cbn in Hr; lia | cbn in Hfuel; lia]. }
  destruct rest as [|a rest']; [cbn in Hr; lia|].
  set (rest := a :: rest') in *.
  assert (Hrest : rest <> []) by discriminate.
  assert (HL : List.length line = (List.length pre + List.length rest)%nat)
    by (subst line; apply length_app).
  assert (Hpos : (1 <= List.length rest)%nat) by (cbn; lia).
  rewrite write_line_loop_step by lia.
  destruct (loop_arith length (Z.of_nat (List.length line))
              (Z.of_nat (List.length pre))) as (A1 & A2 & A3); try lia.
  cbv zeta. rewrite A1, A2, A3.
  rewrite Nat2Z.id.
  replace (skipn (List.length pre) line) with rest
    by (subst line; rewrite skipn_app, skipn_all, Nat.sub_diag; reflexivity).
  rewrite wrapped_cons in Hr |- * by trivial.
  rewrite !length_app in Hr. cbn [List.length] in Hr.
  set (chunk := firstn (Z.to_nat length) rest) in *.
  assert (Hchunk :
    firstn (Z.to_nat (if Z.of_nat (List.length pre) + length
                         <? Z.of_nat (List.length line)
                      then length
                      else Z.of_nat (List.length line)
                           - Z.of_nat (List.length pre))) rest
    = chunk
    /\ Z.of_nat (List.length chunk)
       = (if Z.of_nat (List.length pre) + length
             <? Z.of_nat (List.length line)
          then length
          else Z.of_nat (List.length line) - Z.of_nat (List.length pre))).
  { unfold chunk.
    destruct (Z.ltb_spec (Z.of_nat (List.length pre) + length)
                         (Z.of_nat (List.length line))) as [Hlt|Hge].
    - split; [reflexivity|]. rewrite firstn_length_le; lia.
    - rewrite !firstn_all2 by lia. split; [reflexivity | lia]. }
  destruct Hchunk as [Hc1 Hc2]. rewrite Hc1, <- Hc2.
  unfold bind at 1. rewrite (fwrite_room chunk file s r Hroom).
  unfold write_error_message, print_error_errno.
  destruct (Nat.leb_spec (List.length chunk) r) as [Hfit|Hcut].
  2:{ (* the chunk is cut *)
      assert ((Z.of_nat r <? Z.of_nat (List.length chunk)) = true) as ->
        by (apply Z.ltb_lt; lia).
      unfold bind, eprintf, ret, FILE_cut, log_err.
      rewrite <- app_assoc, firstn_app.
      replace (r - List.length chunk)%nat with 0%nat by lia.
      cbn [firstn]. rewrite app_nil_r.
      now destruct file. }
  rewrite Z.ltb_irrefl.
  set (f1 := mkFILE (contents (get_out file s) ++ chunk)
                    (Some (r - List.length chunk)%nat)
                    (ferror (get_out file s))).
  unfold bind at 1. unfold fputc. unfold bind at 1.
  rewrite (fwrite_room [nl] file (set_out file f1 s)
             (r - List.length chunk))
    by now rewrite get_set_out.
  rewrite get_set_out, !set_set_out. cbn [List.length].
  destruct (Nat.leb_spec 1 (r - List.length chunk)) as [Hnl|Hnl].
  2:{ (* no room for the newline *)
      unfold ret at 1.
      assert ((r - List.length chunk <? 1)%nat = true) as ->
        by (apply Nat.ltb_lt; lia).
      rewrite Z.eqb_refl.
      unfold bind, eprintf, ret, FILE_cut, log_err, f1. cbn [contents].
      rewrite <- (app_assoc chunk), (firstn_app r chunk).
      rewrite (firstn_all2 (n := r) chunk) by lia.
      replace (r - List.length chunk)%nat with 0%nat by lia.
      cbn [firstn]. rewrite !app_nil_r.
      now destruct file. }
  unfold ret at 1. change (1 <? 1)%nat with false. cbv iota.
  change (Z.of_nat (nat_of_ascii nl) =? EOF) with false. cbv iota.
  destruct (Z.ltb_spec (Z.of_nat (List.length pre) + length)
                       (Z.of_nat (List.length line))) as [Hlt|Hge].
  2:{ (* the last line was written in full: the room was enough *)
      exfalso. rewrite skipn_all2 in Hr by lia. cbn in Hr. lia. }
  replace (Z.of_nat (List.length pre) + length)
    with (Z.of_nat (List.length (pre ++ chunk)))
    by (rewrite length_app; lia).
  rewrite (IH (pre ++ chunk) (skipn (Z.to_nat length) rest) _
              (r - List.length chunk - 1)%nat).
  - rewrite get_set_out, set_set_out. unfold FILE_cut, f1.
    cbn [contents]. do 3 f_equal. f_equal.
    rewrite <- !app_assoc. f_equal.
    rewrite (firstn_app r chunk), (firstn_all2 (n := r) chunk) by lia.
    f_equal.
    destruct (r - List.length chunk)%nat as [|k]; [lia|].
    cbn [app firstn Nat.sub]. now rewrite Nat.sub_0_r.
  - unfold chunk. rewrite <- app_assoc, firstn_skipn. exact Heq.
  - rewrite length_skipn. lia.
  - now rewrite get_set_out.
  - lia.
Qed.

(** [write_line] on such a stream. *)
Lemma write_line_short E file line name ignore length seq_len s r :
  seq_len = Z.of_nat (List.length line) ->
  seq_len <= INT_MAX ->
  1 <= length <= INT_MAX ->
  room (get_out file s) = Some r ->
  (r < List.length (wrapped (Z.to_nat length) line))%nat ->
  write_line E file line name ignore length seq_len s
  = Some (EXIT_FAILURE,
          log_err (write_line_warnings E name seq_len
                   ++ [write_error_message E])
            (set_out file
               (FILE_cut (wrapped (Z.to_nat length) line) r
                         (get_out file s)) s)).
Proof.
  intros Hbuf HL HW Hroom Hr.
  rewrite write_line_fetched by lia.
  rewrite to_size_t_small by (unfold INT_MAX in HL; lia).
  subst seq_len.
  rewrite (write_line_loop_short E file line length HW HL
             (Z.to_nat (Z.of_nat (List.length line))
              + room_fuel (get_out file s)) [] line _ r);
    trivial; try lia.
  rewrite !log_err_set_out, log_err_log_err. now destruct file.
Qed.

(** ** A line length of zero on a stream with a limit *)

(** Every iteration writes a newline and leaves [i] at zero: the loop
    ends when the stream is full. *)
Lemma write_line_loop_zero_length_room E file line seq_sz :
  0 < seq_sz ->
  forall r fuel s,
    room (get_out file s) = Some r ->
    (r < fuel)%nat ->
    write_line_loop E fuel file line 0 seq_sz 0 s
    = Some (EXIT_FAILURE,
            log_err [write_error_message E]
              (set_out file
                 (mkFILE (contents (get_out file s) ++ repeat nl r)
                         (Some 0%nat) true) s)).
Proof.
  intros Hsz. apply Z.ltb_lt in Hsz as Hlt.
  induction r as [|r IH]; intros fuel s Hroom Hfuel;
    (destruct fuel as [|fuel]; [lia|]);
    rewrite write_line_loop_step by lia; cbv zeta;
    change (to_size_t (0 + to_size_t 0)) with 0; rewrite Hlt;
    change (to_size_t 0) with 0; change (Z.to_nat 0) with 0%nat;
    cbn [firstn]; unfold bind at 1;
    rewrite (fwrite_room [] file s _ Hroom);
    cbn [List.length Nat.leb Z.of_nat]; rewrite Z.ltb_irrefl;
    unfold bind at 1; unfold fputc; unfold bind at 1.
  - rewrite (fwrite_room [nl] file _ 0%nat) by now rewrite get_set_out.
    cbn [List.length Nat.leb]. unfold ret at 1.
    change (0 <? 1)%nat with true. cbv iota. rewrite Z.eqb_refl.
    unfold bind, print_error_errno, eprintf, ret, FILE_cut, log_err,
      write_error_message.
    rewrite get_set_out, set_set_out. cbn [contents firstn repeat].
    rewrite !app_nil_r. now destruct file.
  - rewrite (fwrite_room [nl] file _ (S r)) by now rewrite get_set_out.
    cbn [List.length Nat.leb]. unfold ret at 1.
    change (1 <? 1)%nat with false. cbv iota.
    change (Z.of_nat (nat_of_ascii nl) =? EOF) with false. cbv iota.
    rewrite get_set_out, set_set_out.
    replace (S r - 1)%nat with r by lia. cbn [contents].
    rewrite (IH fuel); [|rewrite get_set_out; reflexivity | lia].
    rewrite get_set_out, set_set_out. cbn [contents repeat].
    now rewrite app_nil_r, <- app_assoc.
Qed.

(** ** The release, in full *)

Lemma faidx_core_release_exact E v file_out x s :
  faidx_core_release E v file_out x s
  = Some (if ferror (get_out file_out s) then EXIT_FAILURE else x,
          log_calls (match output_file v with
                     | Some _ => [Efclose]
                     | None => []
                     end)
            (log_err (flush_messages E (get_out file_out s))
               (log_calls [Efai_destroy; Efflush] s))).
Proof.
  unfold faidx_core_release, flush_messages. rewrite bind_call.
  unfold bind, fflush. rewrite bind_call.
  assert (Hf : ferror (get_out file_out
                 (log_calls [Efflush] (log_calls [Efai_destroy] s)))
               = ferror (get_out file_out s)) by now destruct file_out.
  rewrite Hf.
  destruct s as [st us er tr].
  destruct (ferror (get_out file_out (mkState st us er tr))),
    (output_file v);
    unfold print_error_errno, eprintf, call, ret, log_calls, log_err;
    cbn; rewrite <- ?app_assoc, ?app_nil_r; reflexivity.
Qed.

Lemma options_of_fields E format0 opts :
  ignore_error (options_of E format0 opts) = has_opt "c" opts
  /\ output_file (options_of E format0 opts) = last_optarg "o" opts
  /\ region_file (options_of E format0 opts) = last_optarg "r" opts
  /\ format (options_of E format0 opts)
     = (if has_opt "f" opts then FAI_FASTQ else format0).
Proof.
  unfold options_of, apply_options, locals_init.
  cbn [ignore_error line_len output_file region_file format orb].
  now destruct (last_optarg "o" opts), (last_optarg "r" opts).
Qed.

(** With [-o] and an input file, whatever [faidx_core] writes to a
    stream it writes to the file it opened. *)
Lemma writes_to_faidx_core E opts input regions format0 :
  Forall goes_on opts ->
  output_file (options_of E format0 opts) <> None ->
  forall s0 exit s',
    faidx_core E opts (input :: regions) format0 s0 = Some (exit, s') ->
    std s' = std s0.
Proof.
  intros H Hout s0 exit s' Hrun.
  unfold faidx_core in Hrun. unfold bind at 1 in Hrun.
  rewrite getopt_loop_options_of in Hrun by exact H.
  set (v := options_of E format0 opts) in *.
  set (s1 := log_err (option_warnings E opts) s0) in *.
  change (std s0) with (get_out (other_out fopened) s1).
  change (std s') with (get_out (other_out fopened) s').
  revert Hrun.
  match goal with
  | |- ?m s1 = _ -> _ => cut (writes_to fopened m); [intros W; apply W|]
  end.
  destruct (output_file v) as [o|]; [|congruence].
  repeat first [ apply writes_to_faidx_core_regions | writes_to_step ].
Qed.

(** * The claims of the specification *)

(** [ceil_div] is the ceiling of the quotient. *)
Lemma ceil_div_is_ceiling (a b : Z) :
  1 <= b -> (ceil_div a b - 1) * b < a <= ceil_div a b * b.
Proof.
  intros Hb. unfold ceil_div.
  pose proof (Z.div_mod (a + b - 1) b ltac:(lia)) as Hdm.
  pose proof (Z.mod_pos_bound (a + b - 1) b ltac:(lia)) as Hm.
  nia.
Qed.

(** C1. For every sequence buffer of length L >= 1 and every wrap width
    W >= 1, on a stream that takes the bytes, [write_line] succeeds and
    the body it emits consists of ceil(L/W) newline-terminated lines whose
    concatenation is the buffer; every line but the last has length W, and
    the last has length L mod W, or W when L is a multiple of W. *)
Theorem write_line_wraps E file line name ignore length seq_len s :
  seq_len = Z.of_nat (List.length line) ->
  1 <= seq_len <= INT_MAX ->
  1 <= length <= INT_MAX ->
  accepts (Z.to_nat (seq_len + ceil_div seq_len length)) (get_out file s) ->
  exists lines s',
    write_line E file line name ignore length seq_len s
    = Some (EXIT_SUCCESS, s')
    /\ contents (get_out file s')
       = contents (get_out file s) ++ terminated lines
    /\ List.concat lines = line
    /\ Z.of_nat (List.length lines) = ceil_div seq_len length
    /\ (forall k, (k + 1 < List.length lines)%nat ->
                  Z.of_nat (List.length (nth k lines [])) = length)
    /\ Z.of_nat (List.length (last lines []))
       = (if seq_len mod length =? 0 then length else seq_len mod length)
    /\ (forall l, In l lines ->
                  Z.of_nat (List.length l) = length
                  \/ Z.of_nat (List.length l) = seq_len mod length).
Proof.
  intros Hbuf HL HW Hroom.
  assert (Hw : (1 <= Z.to_nat length)%nat) by lia.
  assert (Hwz : Z.of_nat (Z.to_nat length) = length) by lia.
  pose proof (length_wrapped (Z.to_nat length) line Hw) as Hlen.
  rewrite Hwz, <- Hbuf in Hlen.
  exists (wrap_lines (Z.to_nat length) line).
  eexists. split.
  { apply write_line_accepts; trivial; try lia.
    rewrite <- Hlen, Nat2Z.id in Hroom. exact Hroom. }
  split. { now rewrite get_out_upd. }
  split. { now apply concat_wrap_lines. }
  split. { rewrite length_wrap_lines by trivial. now rewrite Hwz, Hbuf. }
  split.
  { intros k Hk. rewrite full_lines_wrap_lines; trivial. }
  split.
  { rewrite last_line_wrap_lines; trivial.
    - now rewrite Hwz, <- Hbuf.
    - intros ->. cbn in Hbuf. lia. }
  intros l Hin.
  destruct (line_lengths_wrap_lines _ line Hw l Hin) as [H|H];
    [left | right]; rewrite H, Hwz, <- ?Hbuf; reflexivity.
Qed.

Lemma write_line_wraps_witness :
  let s := Sample.s_room 10 in
  exists lines s',
    write_line Sample.E stdout Sample.ACGTACG "chr2:1-10" false 3 7 s
    = Some (EXIT_SUCCESS, s')
    /\ contents (get_out stdout s')
       = contents (get_out stdout s) ++ terminated lines
    /\ List.concat lines = Sample.ACGTACG
    /\ Z.of_nat (List.length lines) = ceil_div 7 3
    /\ (forall k, (k + 1 < List.length lines)%nat ->
                  Z.of_nat (List.length (nth k lines [])) = 3)
    /\ Z.of_nat (List.length (last lines []))
       = (if 7 mod 3 =? 0 then 3 else 7 mod 3)
    /\ (forall l, In l lines ->
                  Z.of_nat (List.length l) = 3
                  \/ Z.of_nat (List.length l) = 7 mod 3).
Proof.
  intros s.
  apply (write_line_wraps Sample.E stdout Sample.ACGTACG "chr2:1-10" false
                          3 7 s).
  - reflexivity.
  - unfold INT_MAX. lia.
  - unfold INT_MAX. lia.
  - vm_compute. lia.
Defined.

(** C7. A fetched, non-empty sequence whose length differs from the span
    of a region with a finite end gets the truncation warning, and its
    bytes are still emitted in full as a wrapped body, with status
    success; a fetched length of zero gets one warning, no body line, and
    status success. *)
Theorem write_line_warns_and_continues
    E file line name ignore length seq_len beg end_ s :
  hts_parse_reg E name = Some (beg, end_) ->
  end_ < INT_MAX ->
  seq_len <> end_ - beg ->
  seq_len = Z.of_nat (List.length line) ->
  1 <= seq_len <= INT_MAX ->
  1 <= length <= INT_MAX ->
  accepts (Z.to_nat (seq_len + ceil_div seq_len length)) (get_out file s) ->
  write_line E file line name ignore length seq_len s
  = Some (EXIT_SUCCESS,
          upd file (wrapped (Z.to_nat length) line)
              [truncated_message name] [] s)
  /\ List.concat (wrap_lines (Z.to_nat length) line) = line
  /\ (forall line0,
        write_line E file line0 name ignore length 0 s
        = Some (EXIT_SUCCESS, log_err [zero_length_message name] s))
  /\ (forall faid,
        fai_fetch faid name = (line, seq_len) ->
        healthy (get_out file s) ->
        write_output E faid file name ignore length FAI_FASTA s
        = Some (EXIT_SUCCESS,
                upd file (header_text FAI_FASTA name
                          ++ wrapped (Z.to_nat length) line)
                    [truncated_message name]
                    [Efai_fetch name; Efree Seq] s)).
Proof.
  intros Hreg Hend Hspan Hbuf HL HW Hroom.
  assert (Hw : (1 <= Z.to_nat length)%nat) by lia.
  assert (Hwarn : write_line_warnings E name seq_len
                  = [truncated_message name]).
  { unfold write_line_warnings. rewrite Hreg.
    replace (seq_len =? 0) with false by (symmetry; apply Z.eqb_neq; lia).
    replace (end_ <? INT_MAX) with true by (symmetry; now apply Z.ltb_lt).
    replace (seq_len =? end_ - beg) with false
      by (symmetry; now apply Z.eqb_neq).
    reflexivity. }
  split; [|split; [|split]].
  - rewrite write_line_accepts; trivial; try lia.
    + now rewrite Hwarn.
    + pose proof (length_wrapped (Z.to_nat length) line Hw) as Hlen.
      replace (Z.of_nat (Z.to_nat length)) with length in Hlen by lia.
      rewrite <- Hbuf in Hlen. rewrite <- Hlen, Nat2Z.id in Hroom.
      exact Hroom.
  - now apply concat_wrap_lines.
  - intros line0. rewrite write_line_fetched by lia.
    change (to_size_t 0) with 0.
    now rewrite write_line_loop_done by lia.
  - intros faid Hfetch Hs.
    rewrite write_output_fine; trivial.
    + unfold emitted_text, record_text, write_output_messages,
        write_line_messages, write_output_calls.
      rewrite Hfetch. cbn [fst snd format_eqb].
      replace (seq_len <? 0) with false by (symmetry; apply Z.ltb_ge; lia).
      now rewrite Hwarn, !app_nil_r.
    + left. split; [|discriminate]. rewrite Hfetch. split; cbn; lia.
Qed.

Lemma write_line_warns_and_continues_witness :
  let s := Sample.s0 in
  write_line Sample.E stdout Sample.ACGTACG "chr2:1-10" false 60 7 s
  = Some (EXIT_SUCCESS,
          upd stdout (wrapped (Z.to_nat 60) Sample.ACGTACG)
              [truncated_message "chr2:1-10"] [] s)
  /\ List.concat (wrap_lines (Z.to_nat 60) Sample.ACGTACG) = Sample.ACGTACG
  /\ (forall line0,
        write_line Sample.E stdout line0 "chr2:1-10" false 60 0 s
        = Some (EXIT_SUCCESS, log_err [zero_length_message "chr2:1-10"] s))
  /\ (forall faid,
        fai_fetch faid "chr2:1-10" = (Sample.ACGTACG, 7) ->
        healthy (get_out stdout s) ->
        write_output Sample.E faid stdout "chr2:1-10" false 60 FAI_FASTA s
        = Some (EXIT_SUCCESS,
                upd stdout (header_text FAI_FASTA "chr2:1-10"
                            ++ wrapped (Z.to_nat 60) Sample.ACGTACG)
                    [truncated_message "chr2:1-10"]
                    [Efai_fetch "chr2:1-10"; Efree Seq] s)).
Proof.
  intros s.
  apply (write_line_warns_and_continues Sample.E stdout Sample.ACGTACG
           "chr2:1-10" false 60 7 0 10 s).
  - reflexivity.
  - unfold INT_MAX. lia.
  - lia.
  - reflexivity.
  - unfold INT_MAX. lia.
  - unfold INT_MAX. lia.
  - exact I.
Defined.



(** C10. A region file that is given, opens and has no line makes the
    region-file reader return failure and the run exit with failure; no
    region is fetched, the positional ones included. *)
Theorem empty_region_file_fails
    E opts input regions format0 v fai rfn s0 s1 :
  getopt_loop E opts (locals_init format0) s0 = Some (inr v, s1) ->
  region_file v = Some rfn ->
  hopen E rfn = Some [] ->
  fai_load_format E input (format v) = Some fai ->
  output_opens E v input ->
  exists s',
    faidx_core E opts (input :: regions) format0 s0
    = Some (EXIT_FAILURE, s')
    /\ (forall s, read_regions_from_file E fai [] (file_out_of v)
                    (ignore_error v) (line_len v) (format v) s
                  = Some (EXIT_FAILURE, s))
    /\ fetches (trace s') = fetches (trace s0)
    /\ In (Ehopen rfn) (trace s').
Proof.
  intros Hopts Hrf Hopen Hload Hout.
  destruct (getopt_loop_inr E opts _ v s0 s1 (locals_init_line_len format0)
              Hopts) as [HW [msgs ->]].
  rewrite (faidx_core_reaches_regions E opts input regions format0 v fai
             s0 _ Hopts) by (trivial; right; congruence).
  unfold faidx_core_regions, faidx_core_region_file.
  rewrite Hrf, Hopen. unfold bind at 1. rewrite bind_call.
  unfold bind at 1. rewrite read_regions_from_file_empty.
  match goal with |- context [bind (call Ehclose) ?k ?st] =>
    destruct (hclose_step E rfn EXIT_FAILURE stdout st)
      as (s2 & -> & G2 & _)
  end.
  unfold bind at 1. rewrite positional_loop_failed.
  destruct (faidx_core_release_post E v (file_out_of v) EXIT_FAILURE s2)
    as (s3 & evs3 & -> & G3 & F3 & _).
  replace (if ferror (get_out (file_out_of v) s2) then EXIT_FAILURE
           else EXIT_FAILURE) with EXIT_FAILURE by now destruct (ferror _).
  exists s3. split; [reflexivity|]. split; [reflexivity|]. split.
  - rewrite (grows_fetches _ _ _ G3), F3, (grows_fetches _ _ _ G2).
    cbn [fetches trace log_calls]. rewrite fetches_app.
    rewrite fetches_opened_state. cbn. now rewrite !app_nil_r.
  - destruct G3 as [-> _]. destruct G2 as [-> _]. cbn [trace log_calls].
    apply in_or_app. left. apply in_or_app. left.
    apply in_or_app. right. now left.
Qed.

Lemma empty_region_file_fails_witness :
  exists s',
    faidx_core Sample.E [("r"%char, "empty.txt"%string)]
               ["in.fa"; "chr1"]%string FAI_FASTA Sample.s0
    = Some (EXIT_FAILURE, s')
    /\ (forall s, read_regions_from_file Sample.E Sample.fai [] stdout
                    false 60 FAI_FASTA s
                  = Some (EXIT_FAILURE, s))
    /\ fetches (trace s') = fetches (trace Sample.s0)
    /\ In (Ehopen "empty.txt"%string) (trace s').
Proof.
  apply (empty_region_file_fails Sample.E
           [("r"%char, "empty.txt"%string)] "in.fa"%string ["chr1"%string]
           FAI_FASTA
           (mkLocals false 60 None (Some "empty.txt"%string) FAI_FASTA)
           Sample.fai "empty.txt"%string Sample.s0 Sample.s0).
  - reflexivity.
  - reflexivity.
  - reflexivity.
  - reflexivity.
  - exact I.
Defined.

(** C2, as the code has it.  A failed fetch is never silent: the message
    goes to [stderr] whatever the mode.  Its status is success if and only
    if continue mode is on and the length is [-2].  In a run that passes
    no buffer to [free] twice: every region asked for one of whose fetches
    fails and is not tolerated makes the run exit with failure, whether
    it is processed or left out; when it is processed it is the last
    region processed; every failed fetch of a sequence is reported;
    processing does not end on a tolerated region while regions are left;
    and, the region file if any being there with a line, the run
    processes a region and fails only when the last region processed has
    a fatal fetch or a write or the flush has failed, so that a tolerated
    region does not make it fail. *)
Theorem failed_fetch_reported_and_fatal
    E opts input regions format0 v fai s0 s1 :
  getopt_loop E opts (locals_init format0) s0 = Some (inr v, s1) ->
  regions <> [] \/ region_file v <> None ->
  fai_load_format E input (format v) = Some fai ->
  output_opens E v input ->
  no_double_free fai (ignore_error v) (format v)
    (get_out (file_out_of v) (opened_state E v input s1))
    (region_lines E v ++ regions) ->
  (forall file line name ignore length seq_len s,
     seq_len < 0 ->
     exists r,
       write_line E file line name ignore length seq_len s
       = Some (r, log_err [failed_fetch_message name] s)
       /\ (r = EXIT_SUCCESS <-> ignore = true /\ seq_len = -2)
       /\ (r = EXIT_FAILURE <-> ~ (ignore = true /\ seq_len = -2)))
  /\ exists exit s' p rest,
       faidx_core E opts (input :: regions) format0 s0 = Some (exit, s')
       /\ fetches (trace s') = fetches (trace s0) ++ p
       /\ region_lines E v ++ regions = p ++ rest
       /\ (rest <> [] -> exit = EXIT_FAILURE)
       /\ (forall name,
             In name (region_lines E v ++ regions) ->
             (seq_len_of fai name < 0
              /\ ~ (ignore_error v = true /\ seq_len_of fai name = -2))
             \/ (format v = FAI_FASTQ
                 /\ qual_len_of fai name < 0
                 /\ ~ (ignore_error v = true /\ qual_len_of fai name = -2)) ->
             exit = EXIT_FAILURE)
       /\ (forall name,
             In name p -> seq_len_of fai name < 0 ->
             In (failed_fetch_message name) (err s'))
       /\ (forall name,
             In name p ->
             (seq_len_of fai name < 0
              /\ ~ (ignore_error v = true /\ seq_len_of fai name = -2))
             \/ (format v = FAI_FASTQ
                 /\ qual_len_of fai name < 0
                 /\ ~ (ignore_error v = true /\ qual_len_of fai name = -2)) ->
             exit = EXIT_FAILURE /\ exists q, p = q ++ [name])
       /\ (forall q name,
             p = q ++ [name] ->
             ignore_error v = true ->
             seq_len_of fai name = -2 ->
             (format v = FAI_FASTQ -> qual_len_of fai name = -2) ->
             rest = [])
       /\ (region_file_ok E v -> p <> [])
       /\ (region_file_ok E v -> exit = EXIT_FAILURE ->
           failed_last E fai (ignore_error v) (format v) p s'
           \/ ferror (get_out (file_out_of v) s') = true).
Proof.
  intros Hopts Hreg Hload Hout Hsafe. split.
  { intros file line name ignore length seq_len s Hneg.
    rewrite write_line_failed_fetch by trivial.
    eexists. split; [reflexivity|].
    destruct ignore; cbn [andb].
    - destruct (Z.eqb_spec seq_len (-2)) as [->|Hne].
      + split; [tauto|]. split; [discriminate | tauto].
      + split; [split; [discriminate | tauto]|]. split; [tauto | reflexivity].
    - split; [split; [discriminate|]|].
      + now intros [? _].
      + split; [now intros _ [? _] | reflexivity]. }
  destruct (getopt_loop_inr E opts _ v s0 s1 (locals_init_line_len format0)
              Hopts) as [HW [msgs ->]].
  rewrite (faidx_core_reaches_regions E opts input regions format0 v fai
             s0 _ Hopts Hreg Hload Hout).
  destruct (faidx_core_regions_post E v fai (file_out_of v) regions
              (opened_state E v input (log_err msgs s0)) HW Hsafe)
    as (exit & s' & evs & p & rest & Hrun & G & F & HP & Hne & _ & Hcause).
  destruct HP as (Hall & Hx & Hrest & Hmid & Hfat & Hcont & Hrep).
  exists exit, s', p, rest. split; [exact Hrun|]. split.
  { now rewrite (grows_fetches _ _ _ G), fetches_opened_state, F. }
  split; [exact Hall|]. split; [exact Hrest|]. split.
  { intros name Hin Hfail. apply fatal_fetch_spec in Hfail.
    rewrite Hall in Hin. apply in_app_or in Hin as [Hin|Hin].
    - now apply (Hfat name).
    - apply Hrest. intros ->. destruct Hin. }
  split; [exact Hrep|]. split.
  { intros name Hin Hfail. apply fatal_fetch_spec in Hfail.
    split; [now apply (Hfat name)|].
    apply (In_last_of_removelast
             (fun r => fatal_fetch fai (ignore_error v) (format v) r = true));
      trivial.
    eapply Forall_impl; [|exact Hmid]. cbn. intros r ->. discriminate. }
  split.
  { intros q name Hq Hi Hs Hqual. apply (Hcont q name Hq).
    apply not_found_tolerated_spec. now repeat split. }
  split; [|exact Hcause].
  intros Hok. apply (Hne Hok).
  destruct Hreg as [Hreg|Hreg].
  - intros H. apply app_eq_nil in H as [_ H]. contradiction.
  - unfold region_file_ok, region_lines in *.
    destruct (region_file v) as [rfn|]; [|congruence].
    destruct Hok as (rf & -> & Hrf).
    intros H. apply app_eq_nil in H as [H _]. contradiction.
Qed.

Lemma failed_fetch_reported_and_fatal_witness :
  (forall file line name ignore length seq_len s,
     seq_len < 0 ->
     exists r,
       write_line Sample.E file line name ignore length seq_len s
       = Some (r, log_err [failed_fetch_message name] s)
       /\ (r = EXIT_SUCCESS <-> ignore = true /\ seq_len = -2)
       /\ (r = EXIT_FAILURE <-> ~ (ignore = true /\ seq_len = -2)))
  /\ exists exit s' p rest,
       faidx_core Sample.E [] ["in.fa"; "chr2"; "nosuch"; "chr3"]%string
                  FAI_FASTA Sample.s0 = Some (exit, s')
       /\ fetches (trace s') = fetches (trace Sample.s0) ++ p
       /\ region_lines Sample.E (locals_init FAI_FASTA)
          ++ ["chr2"; "nosuch"; "chr3"]%string = p ++ rest
       /\ (rest <> [] -> exit = EXIT_FAILURE)
       /\ (forall name,
             In name (region_lines Sample.E (locals_init FAI_FASTA)
                      ++ ["chr2"; "nosuch"; "chr3"]%string) ->
             (seq_len_of Sample.fai name < 0
              /\ ~ (ignore_error (locals_init FAI_FASTA) = true
                    /\ seq_len_of Sample.fai name = -2))
             \/ (format (locals_init FAI_FASTA) = FAI_FASTQ
                 /\ qual_len_of Sample.fai name < 0
                 /\ ~ (ignore_error (locals_init FAI_FASTA) = true
                       /\ qual_len_of Sample.fai name = -2)) ->
             exit = EXIT_FAILURE)
       /\ (forall name,
             In name p -> seq_len_of Sample.fai name < 0 ->
             In (failed_fetch_message name) (err s'))
       /\ (forall name,
             In name p ->
             (seq_len_of Sample.fai name < 0
              /\ ~ (ignore_error (locals_init FAI_FASTA) = true
                    /\ seq_len_of Sample.fai name = -2))
             \/ (format (locals_init FAI_FASTA) = FAI_FASTQ
                 /\ qual_len_of Sample.fai name < 0
                 /\ ~ (ignore_error (locals_init FAI_FASTA) = true
                       /\ qual_len_of Sample.fai name = -2)) ->
             exit = EXIT_FAILURE /\ exists q, p = q ++ [name])
       /\ (forall q name,
             p = q ++ [name] ->
             ignore_error (locals_init FAI_FASTA) = true ->
             seq_len_of Sample.fai name = -2 ->
             (format (locals_init FAI_FASTA) = FAI_FASTQ ->
              qual_len_of Sample.fai name = -2) ->
             rest = [])
       /\ (region_file_ok Sample.E (locals_init FAI_FASTA) -> p <> [])
       /\ (region_file_ok Sample.E (locals_init FAI_FASTA) ->
           exit = EXIT_FAILURE ->
           failed_last Sample.E Sample.fai
             (ignore_error (locals_init FAI_FASTA))
             (format (locals_init FAI_FASTA)) p s'
           \/ ferror (get_out (file_out_of (locals_init FAI_FASTA)) s')
              = true).
Proof.
  apply (failed_fetch_reported_and_fatal Sample.E []
           "in.fa"%string ["chr2"; "nosuch"; "chr3"]%string FAI_FASTA
           (locals_init FAI_FASTA) Sample.fai Sample.s0 Sample.s0).
  - reflexivity.
  - left. discriminate.
  - reflexivity.
  - exact I.
  - now left.
Defined.

(** The claim C2 says the skip is silent; in continue mode a name that is
    not found is skipped with status success, and the message is on
    [stderr] all the same. *)
Lemma not_found_skip_is_not_silent :
  write_line Sample.E stdout [] "nosuch" true 60 (-2) Sample.s0
  = Some (EXIT_SUCCESS,
          log_err [failed_fetch_message "nosuch"] Sample.s0)
  /\ err Sample.s0 = []
  /\ err (log_err [failed_fetch_message "nosuch"] Sample.s0)
     = ["[faidx] Failed to fetch sequence in nosuch" +++ NL].
Proof. repeat split. Qed.

(** C3, as the code has it.  When a region is asked for (so that the run
    is not an index build) and the option loop ran to its end, an output
    path equal to the input path makes the run fail: the only call is the
    load of the index, the output path is not opened, and nothing is
    written to either stream. *)
Theorem same_input_output_fails E opts input regions format0 v s0 s1 :
  getopt_loop E opts (locals_init format0) s0 = Some (inr v, s1) ->
  output_file v = Some input ->
  regions <> [] \/ region_file v <> None ->
  exists s',
    faidx_core E opts (input :: regions) format0 s0
    = Some (EXIT_FAILURE, s')
    /\ trace s' = trace s0 ++ [Efai_load_format input (format v)]
    /\ std s' = std s0 /\ usr s' = usr s0.
Proof.
  intros Hopts Hout Hreg.
  destruct (getopt_loop_inr E opts _ v s0 s1 (locals_init_line_len format0)
              Hopts) as [HW [msgs ->]].
  unfold faidx_core. unfold bind at 1. rewrite Hopts.
  assert ((match regions with [] => true | _ => false end)
          && (match region_file v with None => true | _ => false end)
          = false) as ->.
  { destruct regions; [|reflexivity].
    destruct (region_file v); [reflexivity|]. now destruct Hreg. }
  rewrite bind_call.
  destruct (fai_load_format E input (format v)) as [fai|].
  - rewrite Hout, String.eqb_refl.
    eexists. split; [reflexivity|]. now repeat split.
  - eexists. split; [reflexivity|]. now repeat split.
Qed.

Lemma same_input_output_fails_witness :
  exists s',
    faidx_core Sample.E [("o"%char, "in.fa"%string)]
               ["in.fa"; "chr1"]%string FAI_FASTA Sample.s0
    = Some (EXIT_FAILURE, s')
    /\ trace s' = trace Sample.s0 ++ [Efai_load_format "in.fa" FAI_FASTA]
    /\ std s' = std Sample.s0 /\ usr s' = usr Sample.s0.
Proof.
  apply (same_input_output_fails Sample.E [("o"%char, "in.fa"%string)]
           "in.fa"%string ["chr1"%string] FAI_FASTA
           (mkLocals false 60 (Some "in.fa"%string) None FAI_FASTA)
           Sample.s0 Sample.s0).
  - reflexivity.
  - reflexivity.
  - left. discriminate.
Defined.

(** The claim C3 fails on a run with no region: the input file is indexed
    and the status is success, the output path being the input path or
    not. *)
Lemma same_input_output_index_build :
  faidx_core Sample.E [("o"%char, "in.fa"%string)] ["in.fa"%string]
             FAI_FASTA Sample.s0
  = Some (EXIT_SUCCESS, log_calls [Efai_build "in.fa"] Sample.s0).
Proof. reflexivity. Qed.

(** C8, as the code has it.  When the option loop runs to its end (no
    [-h], no unknown option) with no region file, and the input file is
    the only argument, the run builds the index and exits, with status 0
    if the build succeeds and failure if not; the build is its only call,
    and nothing is written to either stream. *)
Theorem single_argument_builds_index E opts input format0 v s0 s1 :
  getopt_loop E opts (locals_init format0) s0 = Some (inr v, s1) ->
  region_file v = None ->
  exists s',
    faidx_core E opts [input] format0 s0
    = Some (if fai_build E input =? 0 then 0 else EXIT_FAILURE, s')
    /\ trace s' = trace s0 ++ [Efai_build input]
    /\ std s' = std s0 /\ usr s' = usr s0.
Proof.
  intros Hopts Hrf.
  destruct (getopt_loop_inr E opts _ v s0 s1 (locals_init_line_len format0)
              Hopts) as [HW [msgs ->]].
  unfold faidx_core. unfold bind at 1. rewrite Hopts, Hrf.
  cbn [andb]. rewrite bind_call.
  destruct (fai_build E input =? 0); cbn [negb];
    eexists; (split; [reflexivity|]); now repeat split.
Qed.

Lemma single_argument_builds_index_witness :
  exists s',
    faidx_core Sample.E [("n"%char, "80"%string)] ["in.fa"%string]
               FAI_FASTA Sample.s0
    = Some (if fai_build Sample.E "in.fa" =? 0 then 0 else EXIT_FAILURE, s')
    /\ trace s' = trace Sample.s0 ++ [Efai_build "in.fa"]
    /\ std s' = std Sample.s0 /\ usr s' = usr Sample.s0.
Proof.
  apply (single_argument_builds_index Sample.E [("n"%char, "80"%string)]
           "in.fa"%string FAI_FASTA
           (mkLocals false 80 None None FAI_FASTA) Sample.s0 Sample.s0).
  - reflexivity.
  - reflexivity.
Defined.

(** The claim C8 fails on a run with [-h]: the input file is the only
    argument, the usage goes to [stdout], the status is success, and no
    index is built. *)
Lemma single_argument_with_help :
  exists s',
    faidx_core Sample.E [("h"%char, EmptyString)] ["in.fa"%string]
               FAI_FASTA Sample.s0
    = Some (EXIT_SUCCESS, s')
    /\ trace s' = []
    /\ contents (std s') <> [].
Proof. eexists. split; [reflexivity|]. split; [reflexivity | discriminate]. Qed.

(** C9, as the code has it.  In continue mode, on a healthy output
    stream, a region file of three valid names and one name that is not
    found gives status 0, the three well-formed records, and, at the
    place of the name that is not found, its header line with no body
    (followed by the separator line for FASTQ); the failure to fetch that
    name is reported on [stderr]. *)
Theorem continue_mode_region_file
    E opts input format0 v fai rfn l1 bad l2 s0 s1 :
  getopt_loop E opts (locals_init format0) s0 = Some (inr v, s1) ->
  ignore_error v = true ->
  region_file v = Some rfn ->
  hopen E rfn = Some (l1 ++ bad :: l2) ->
  (List.length l1 + List.length l2 = 3)%nat ->
  Forall (valid_name fai (format v)) (l1 ++ l2) ->
  not_found fai (format v) bad ->
  fai_load_format E input (format v) = Some fai ->
  output_opens E v input ->
  healthy (get_out (file_out_of v) (opened_state E v input s1)) ->
  exists s',
    faidx_core E opts [input] format0 s0 = Some (EXIT_SUCCESS, s')
    /\ contents (get_out (file_out_of v) s')
       = contents (get_out (file_out_of v) (opened_state E v input s1))
         ++ flat_map (record_text fai (line_len v) (format v)) l1
         ++ bare_header_text (format v) bad
         ++ flat_map (record_text fai (line_len v) (format v)) l2
    /\ In (failed_fetch_message bad) (err s').
Proof.
  intros Hopts Hign Hrf Hopen _ Hvalid Hbad Hload Hout Hs.
  destruct (getopt_loop_inr E opts _ v s0 s1 (locals_init_line_len format0)
              Hopts) as [HW _].
  rewrite (faidx_core_reaches_regions E opts input [] format0 v fai
             s0 s1 Hopts) by (trivial; right; congruence).
  apply Forall_app in Hvalid as [Hv1 Hv2].
  assert (Hlines : region_lines E v = l1 ++ bad :: l2)
    by (unfold region_lines; now rewrite Hrf, Hopen).
  destruct (faidx_core_regions_fine E v fai (file_out_of v) []
              (opened_state E v input s1) HW Hs)
    as (s' & Hrun & Hcont & Hmsg).
  - unfold region_file_ok. rewrite Hrf. exists (l1 ++ bad :: l2).
    split; [exact Hopen|]. now destruct l1.
  - rewrite Hlines, app_nil_r. apply Forall_app. split.
    + eapply Forall_impl; [|exact Hv1]. intros name H. now left.
    + constructor; [right; now split|].
      eapply Forall_impl; [|exact Hv2]. intros name H. now left.
  - exists s'. split; [exact Hrun|]. split.
    + rewrite Hcont, Hlines, app_nil_r, flat_map_app. cbn [flat_map].
      rewrite !flat_map_emitted_valid, emitted_text_not_found by trivial.
      reflexivity.
    + apply Hmsg.
      * rewrite Hlines, app_nil_r. apply in_or_app. right. now left.
      * destruct Hbad as [-> _]. lia.
Qed.

Lemma continue_mode_region_file_witness :
  exists s',
    faidx_core Sample.E
               [("c"%char, EmptyString); ("r"%char, "regions.txt"%string)]
               ["in.fa"%string] FAI_FASTQ Sample.s0
    = Some (EXIT_SUCCESS, s')
    /\ contents (get_out stdout s')
       = contents (get_out stdout Sample.s0)
         ++ flat_map (record_text Sample.fai 60 FAI_FASTQ) ["chr1"%string]
         ++ bare_header_text FAI_FASTQ "nosuch"
         ++ flat_map (record_text Sample.fai 60 FAI_FASTQ)
                     ["chr2"; "chr3"]%string
    /\ In (failed_fetch_message "nosuch") (err s').
Proof.
  apply (continue_mode_region_file Sample.E
           [("c"%char, EmptyString); ("r"%char, "regions.txt"%string)]
           "in.fa"%string FAI_FASTQ
           (mkLocals true 60 None (Some "regions.txt"%string) FAI_FASTQ)
           Sample.fai "regions.txt"%string ["chr1"%string] "nosuch"%string
           ["chr2"; "chr3"]%string Sample.s0 Sample.s0).
  - reflexivity.
  - reflexivity.
  - reflexivity.
  - reflexivity.
  - reflexivity.
  - repeat constructor; unfold INT_MAX; cbn; lia.
  - split; reflexivity.
  - reflexivity.
  - exact I.
  - split; reflexivity.
Defined.

(** The claim C9 says the output holds the three records and nothing
    else; the header line of the name that is not found is there too. *)
Lemma not_found_header_is_emitted :
  exists s',
    faidx_core Sample.E
               [("c"%char, EmptyString); ("r"%char, "regions.txt"%string)]
               ["in.fa"%string] FAI_FASTA Sample.s0
    = Some (EXIT_SUCCESS, s')
    /\ contents (std s')
       = record_text Sample.fai 60 FAI_FASTA "chr1"
         ++ list_ascii_of_string (">nosuch" +++ NL)
         ++ record_text Sample.fai 60 FAI_FASTA "chr2"
         ++ record_text Sample.fai 60 FAI_FASTA "chr3"
    /\ contents (std s')
       <> record_text Sample.fai 60 FAI_FASTA "chr1"
          ++ record_text Sample.fai 60 FAI_FASTA "chr2"
          ++ record_text Sample.fai 60 FAI_FASTA "chr3".
Proof.
  eexists. split; [vm_compute; reflexivity|].
  split; [vm_compute; reflexivity|]. vm_compute. discriminate.
Qed.

(** C6, as the code has it.  A [-n] value that [atoi] reads as less than
    one, met by the option loop, is answered by the warning and replaced
    by 60; the line length the loop ends with is never less than one; and
    when no later [-n] follows, it is 60, and every record of the run is
    wrapped at 60. *)
Theorem bad_line_length_falls_back E pre optarg post format0 s0 :
  to_int (atoi E optarg) < 1 ->
  Forall (fun o => fst o <> "?"%char /\ fst o <> "h"%char) pre ->
  exists r s1,
    getopt_loop E (pre ++ ("n"%char, optarg) :: post)
                (locals_init format0) s0 = Some (r, s1)
    /\ In (bad_line_length_message optarg) (err s1)
    /\ forall v,
         r = inr v ->
         1 <= line_len v <= INT_MAX
         /\ (Forall (fun o => fst o <> "n"%char) post ->
             line_len v = DEFAULT_FASTA_LINE_LEN
             /\ forall input regions fai,
                  regions <> [] \/ region_file v <> None ->
                  fai_load_format E input (format v) = Some fai ->
                  output_opens E v input ->
                  healthy (get_out (file_out_of v)
                                   (opened_state E v input s1)) ->
                  region_file_ok E v ->
                  Forall (region_fine fai (ignore_error v) (format v))
                         (region_lines E v ++ regions) ->
                  exists s',
                    faidx_core E (pre ++ ("n"%char, optarg) :: post)
                               (input :: regions) format0 s0
                    = Some (EXIT_SUCCESS, s')
                    /\ contents (get_out (file_out_of v) s')
                       = contents (get_out (file_out_of v)
                                     (opened_state E v input s1))
                         ++ flat_map (emitted_text fai 60 (format v))
                                     (region_lines E v ++ regions)).
Proof.
  intros Hbad Hpre.
  destruct (getopt_loop_app E pre (("n"%char, optarg) :: post) Hpre
              (locals_init format0) s0 (locals_init_line_len format0))
    as (v1 & msgs & Hrun1 & Hv1).
  assert (Hstep :
    getopt_loop E (("n"%char, optarg) :: post) v1 (log_err msgs s0)
    = getopt_loop E post
        (mkLocals (ignore_error v1) DEFAULT_FASTA_LINE_LEN (output_file v1)
                  (region_file v1) (format v1))
        (log_err [bad_line_length_message optarg] (log_err msgs s0))).
  { cbn [getopt_loop]. change ("n" =? "o")%char with false.
    change ("n" =? "n")%char with true. cbv iota zeta.
    apply Z.ltb_lt in Hbad. rewrite Hbad. reflexivity. }
  destruct (getopt_loop_post E post
              (mkLocals (ignore_error v1) DEFAULT_FASTA_LINE_LEN
                        (output_file v1) (region_file v1) (format v1))
              (log_err [bad_line_length_message optarg] (log_err msgs s0)))
    as (r & s1 & Hrun2 & Q & Hr).
  { cbn. unfold DEFAULT_FASTA_LINE_LEN, INT_MAX. lia. }
  assert (Hrun : getopt_loop E (pre ++ ("n"%char, optarg) :: post)
                             (locals_init format0) s0 = Some (r, s1))
    by now rewrite Hrun1, Hstep.
  exists r, s1. split; [exact Hrun|]. split.
  { eapply grows_In_err; [apply quiet_grows, Q|].
    cbn. apply in_or_app. right. now left. }
  intros v ->. destruct Hr as [Hv _]. split; [exact Hv|].
  intros Hpost.
  assert (H60 : line_len v = DEFAULT_FASTA_LINE_LEN)
    by apply (getopt_loop_keeps_line_len E post Hpost _ _ _ _ Hrun2).
  split; [exact H60|].
  intros input regions fai Hreg Hload Hout Hs Hrf Hfine.
  rewrite (faidx_core_reaches_regions E _ input regions format0 v fai
             s0 s1 Hrun Hreg Hload Hout).
  destruct (faidx_core_regions_fine E v fai (file_out_of v) regions
              (opened_state E v input s1) Hv Hs Hrf Hfine)
    as (s' & Hrun' & Hcont & _).
  exists s'. split; [exact Hrun'|]. rewrite Hcont, H60. reflexivity.
Qed.

Lemma bad_line_length_falls_back_witness :
  exists r s1,
    getopt_loop Sample.E
                ([("c"%char, EmptyString)] ++ ("n"%char, "-5"%string) :: [])
                (locals_init FAI_FASTA) Sample.s0 = Some (r, s1)
    /\ In (bad_line_length_message "-5") (err s1)
    /\ forall v,
         r = inr v ->
         1 <= line_len v <= INT_MAX
         /\ (Forall (fun o => fst o <> "n"%char) (@nil (ascii * string)) ->
             line_len v = DEFAULT_FASTA_LINE_LEN
             /\ forall input regions fai,
                  regions <> [] \/ region_file v <> None ->
                  fai_load_format Sample.E input (format v) = Some fai ->
                  output_opens Sample.E v input ->
                  healthy (get_out (file_out_of v)
                                   (opened_state Sample.E v input s1)) ->
                  region_file_ok Sample.E v ->
                  Forall (region_fine fai (ignore_error v) (format v))
                         (region_lines Sample.E v ++ regions) ->
                  exists s',
                    faidx_core Sample.E
                      ([("c"%char, EmptyString)]
                       ++ ("n"%char, "-5"%string) :: [])
                      (input :: regions) FAI_FASTA Sample.s0
                    = Some (EXIT_SUCCESS, s')
                    /\ contents (get_out (file_out_of v) s')
                       = contents (get_out (file_out_of v)
                                     (opened_state Sample.E v input s1))
                         ++ flat_map (emitted_text fai 60 (format v))
                                     (region_lines Sample.E v ++ regions)).
Proof.
  apply (bad_line_length_falls_back Sample.E [("c"%char, EmptyString)]
           "-5"%string [] FAI_FASTA Sample.s0).
  - vm_compute. reflexivity.
  - repeat constructor; discriminate.
Defined.

(** The claim C6 fails when a later [-n] follows: the warning is printed
    for the value 0, and the records are wrapped at 30. *)
Lemma later_line_length_wins :
  to_int (atoi Sample.E "0") < 1
  /\ exists s',
       faidx_core Sample.E [("n"%char, "0"%string); ("n"%char, "30"%string)]
                  ["in.fa"; "chr1"]%string FAI_FASTA Sample.s0
       = Some (EXIT_SUCCESS, s')
       /\ In (bad_line_length_message "0") (err s')
       /\ contents (std s')
          = header_text FAI_FASTA "chr1" ++ wrapped 30 Sample.A130
       /\ wrapped 30 Sample.A130 <> wrapped 60 Sample.A130.
Proof.
  split; [reflexivity|]. eexists. split; [vm_compute; reflexivity|].
  split; [now left|]. split; [vm_compute; reflexivity|].
  vm_compute. discriminate.
Qed.

(** C4 on the code.  With the index loaded, a run whose output path is
    the input path, and a run whose output path cannot be opened, both
    return without the call to [fai_destroy]. *)
Theorem index_not_released_on_early_return :
  fai_load_format Sample.E "in.fa" FAI_FASTA = Some Sample.fai
  /\ faidx_core Sample.E [("o"%char, "in.fa"%string)]
                ["in.fa"; "chr1"]%string FAI_FASTA Sample.s0
     = Some (EXIT_FAILURE,
             log_err ["[faidx] Same input/output : in.fa" +++ NL]
               (log_calls [Efai_load_format "in.fa" FAI_FASTA] Sample.s0))
  /\ fopen Sample.E "/nonexistent/out.fa" = None
  /\ faidx_core Sample.E [("o"%char, "/nonexistent/out.fa"%string)]
                ["in.fa"; "chr1"]%string FAI_FASTA Sample.s0
     = Some (EXIT_FAILURE,
             log_err ["[faidx] Cannot open " +++ DQUOTE
                      +++ "/nonexistent/out.fa" +++ DQUOTE
                      +++ " for writing :Input/output error." +++ NL]
               (log_calls [Efai_load_format "in.fa" FAI_FASTA;
                           Efopen "/nonexistent/out.fa"] Sample.s0))
  /\ ~ In Efai_destroy [Efai_load_format "in.fa" FAI_FASTA;
                        Efopen "/nonexistent/out.fa"].
Proof.
  repeat split. intros [H|[H|[]]]; discriminate.
Qed.

(** * Further properties of the code *)

(** ** The option loop *)

(** X1. When no option ends the loop, the variables it leaves are a
    function of the command line in which the options commute: [-c] and
    [-f] count once however often they are given, of several [-o], [-n]
    or [-r] the last one counts, an unlisted option changes nothing, and
    the warnings, one for each bad line length, are the only effect. *)
Theorem option_loop_last_argument_wins E opts format0 s :
  Forall goes_on opts ->
  getopt_loop E opts (locals_init format0) s
  = Some (inr (mkLocals
                 (has_opt "c" opts)
                 (match last_optarg "n" opts with
                  | Some a => if to_int (atoi E a) <? 1
                              then DEFAULT_FASTA_LINE_LEN
                              else to_int (atoi E a)
                  | None => DEFAULT_FASTA_LINE_LEN
                  end)
                 (last_optarg "o" opts)
                 (last_optarg "r" opts)
                 (if has_opt "f" opts then FAI_FASTQ else format0)),
          log_err (option_warnings E opts) s).
Proof.
  intros H. rewrite getopt_loop_options_of by exact H.
  unfold options_of, apply_options, locals_init, line_len_of.
  cbn [ignore_error line_len output_file region_file format orb].
  now destruct (last_optarg "o" opts), (last_optarg "r" opts).
Qed.

Lemma option_loop_last_argument_wins_witness :
  getopt_loop Sample.E
    [("n"%char, "0"%string); ("o"%char, "a.fa"%string);
     ("c"%char, EmptyString); ("n"%char, "30"%string);
     ("o"%char, "b.fa"%string); ("c"%char, EmptyString)]
    (locals_init FAI_FASTA) Sample.s0
  = Some (inr (mkLocals true 30 (Some "b.fa"%string) None FAI_FASTA),
          log_err [bad_line_length_message "0"] Sample.s0).
Proof.
  apply (option_loop_last_argument_wins Sample.E
           [("n"%char, "0"%string); ("o"%char, "a.fa"%string);
            ("c"%char, EmptyString); ("n"%char, "30"%string);
            ("o"%char, "b.fa"%string); ("c"%char, EmptyString)]
           FAI_FASTA Sample.s0).
  repeat constructor; cbn; discriminate.
Defined.

(** X2. With [-f] among the options, [faidx] and [fqidx] are the same
    command: the two entry points differ in the initial format only, and
    [-f] overrides it. *)
Theorem fastq_option_makes_faidx_fqidx E opts args s :
  Forall goes_on opts ->
  has_opt "f" opts = true ->
  faidx_main E opts args s = fqidx_main E opts args s.
Proof.
  intros H Hf. unfold faidx_main, fqidx_main, faidx_core, bind.
  rewrite !getopt_loop_options_of by exact H.
  replace (options_of E FAI_FASTA opts) with (options_of E FAI_FASTQ opts);
    [reflexivity|].
  unfold options_of, apply_options, locals_init.
  cbn [ignore_error line_len output_file region_file format].
  now rewrite Hf.
Qed.

Lemma fastq_option_makes_faidx_fqidx_witness :
  faidx_main Sample.E [("f"%char, EmptyString)]
             ["in.fa"; "chr2"]%string Sample.s0
  = fqidx_main Sample.E [("f"%char, EmptyString)]
               ["in.fa"; "chr2"]%string Sample.s0.
Proof.
  apply (fastq_option_makes_faidx_fqidx Sample.E
           [("f"%char, EmptyString)] ["in.fa"; "chr2"]%string Sample.s0).
  - repeat constructor; cbn; discriminate.
  - reflexivity.
Defined.

(** ** The ways out before the regions *)

(** X3. The first [-h] ends the run with status success, whatever
    follows it on the command line: no call is made, [stderr] holds the
    warnings of the options before it and nothing else, and only
    [stdout] is written to; a [stdout] that takes every byte gets the
    usage text, that of [fqidx] when [-f] came before. *)
Theorem help_prints_usage_and_succeeds E pre optarg post args format0 s0 :
  Forall goes_on pre ->
  exists f',
    faidx_core E (pre ++ ("h"%char, optarg) :: post) args format0 s0
    = Some (EXIT_SUCCESS,
            set_out stdout f' (log_err (option_warnings E pre) s0))
    /\ (healthy (std s0) ->
        f' = FILE_append
               (usage_text (if has_opt "f" pre then FAI_FASTQ else format0))
               (std s0)).
Proof.
  intros H. unfold faidx_core. unfold bind at 1.
  rewrite getopt_loop_help by exact H.
  change (format (apply_options E (locals_init format0) pre))
    with (if has_opt "f" pre then FAI_FASTQ else format0).
  set (fmt := if has_opt "f" pre then FAI_FASTQ else format0).
  set (s1 := log_err (option_warnings E pre) s0).
  destruct (usage_stdout_any fmt EXIT_SUCCESS s1) as (f' & Hu).
  exists f'. split.
  - unfold bind at 1. now rewrite Hu.
  - intros Hh. rewrite usage_stdout_healthy in Hu by exact Hh.
    injection Hu as Hu. symmetry. exact Hu.
Qed.

Lemma help_prints_usage_and_succeeds_witness :
  exists f',
    faidx_core Sample.E
      ([("f"%char, EmptyString)]
       ++ ("h"%char, EmptyString) :: [("o"%char, "in.fa"%string)])
      ["in.fa"; "chr1"]%string FAI_FASTA Sample.s0
    = Some (EXIT_SUCCESS,
            set_out stdout f'
              (log_err (option_warnings Sample.E [("f"%char, EmptyString)])
                       Sample.s0))
    /\ (healthy (std Sample.s0) ->
        f' = FILE_append
               (usage_text (if has_opt "f" [("f"%char, EmptyString)]
                            then FAI_FASTQ else FAI_FASTA))
               (std Sample.s0)).
Proof.
  apply (help_prints_usage_and_succeeds Sample.E
           [("f"%char, EmptyString)] EmptyString
           [("o"%char, "in.fa"%string)] ["in.fa"; "chr1"]%string
           FAI_FASTA Sample.s0).
  repeat constructor; cbn; discriminate.
Defined.

(** X4. The first ['?'] that [getopt_long] returns, for an option it
    does not know or an argument that is missing, ends the run with
    status failure: [stderr] gets the warnings of the options before it,
    the line [getopt_long] has printed itself, and the usage; and nothing
    else happens, neither a call nor a write to [stdout] or the output
    file. *)
Theorem unknown_option_fails_with_usage
    E pre diagnostic post args format0 s0 :
  Forall goes_on pre ->
  faidx_core E (pre ++ ("?"%char, diagnostic) :: post) args format0 s0
  = Some (EXIT_FAILURE,
          log_err (option_warnings E pre
                   ++ diagnostic
                      :: usage_lines (if has_opt "f" pre then FAI_FASTQ
                                      else format0)) s0).
Proof.
  intros H. unfold faidx_core. unfold bind at 1.
  rewrite getopt_loop_unknown by exact H.
  unfold bind at 1. unfold eprintf at 1.
  unfold bind at 1. rewrite usage_stderr. unfold ret.
  change (mkState (std ?s) (usr ?s) (err ?s ++ [diagnostic]) (trace ?s))
    with (log_err [diagnostic] s).
  now rewrite !log_err_log_err.
Qed.

Lemma unknown_option_fails_with_usage_witness :
  faidx_core Sample.E
    ([("n"%char, "0"%string)]
     ++ ("?"%char, ("faidx: invalid option -- 'x'" +++ NL))
        :: [("h"%char, EmptyString)])
    ["in.fa"%string] FAI_FASTA Sample.s0
  = Some (EXIT_FAILURE,
          log_err (option_warnings Sample.E [("n"%char, "0"%string)]
                   ++ ("faidx: invalid option -- 'x'" +++ NL)
                      :: usage_lines (if has_opt "f" [("n"%char, "0"%string)]
                                      then FAI_FASTQ else FAI_FASTA))
                  Sample.s0).
Proof.
  apply (unknown_option_fails_with_usage Sample.E
           [("n"%char, "0"%string)]
           ("faidx: invalid option -- 'x'" +++ NL)
           [("h"%char, EmptyString)] ["in.fa"%string] FAI_FASTA Sample.s0).
  repeat constructor; cbn; discriminate.
Defined.

(** X5. With options that do not end the loop and no argument left, not
    even the input file, the run prints the usage on [stdout] and
    succeeds; it makes no call, and [stderr] holds only the warnings of
    the option loop. *)
Theorem no_input_file_prints_usage E opts format0 s0 :
  Forall goes_on opts ->
  exists f',
    faidx_core E opts [] format0 s0
    = Some (EXIT_SUCCESS,
            set_out stdout f' (log_err (option_warnings E opts) s0))
    /\ (healthy (std s0) ->
        f' = FILE_append
               (usage_text (if has_opt "f" opts then FAI_FASTQ else format0))
               (std s0)).
Proof.
  intros H. unfold faidx_core. unfold bind at 1.
  rewrite getopt_loop_options_of by exact H.
  change (format (options_of E format0 opts))
    with (if has_opt "f" opts then FAI_FASTQ else format0).
  set (fmt := if has_opt "f" opts then FAI_FASTQ else format0).
  set (s1 := log_err (option_warnings E opts) s0).
  destruct (usage_stdout_any fmt EXIT_SUCCESS s1) as (f' & Hu).
  exists f'. split; [exact Hu|].
  intros Hh. rewrite usage_stdout_healthy in Hu by exact Hh.
  injection Hu as Hu. symmetry. exact Hu.
Qed.

Lemma no_input_file_prints_usage_witness :
  exists f',
    faidx_core Sample.E [("o"%char, "out.fa"%string)] [] FAI_FASTA Sample.s0
    = Some (EXIT_SUCCESS,
            set_out stdout f'
              (log_err (option_warnings Sample.E
                          [("o"%char, "out.fa"%string)]) Sample.s0))
    /\ (healthy (std Sample.s0) ->
        f' = FILE_append
               (usage_text (if has_opt "f" [("o"%char, "out.fa"%string)]
                            then FAI_FASTQ else FAI_FASTA))
               (std Sample.s0)).
Proof.
  apply (no_input_file_prints_usage Sample.E
           [("o"%char, "out.fa"%string)] FAI_FASTA Sample.s0).
  repeat constructor; cbn; discriminate.
Defined.

(** X6. When a region is asked for and the index of the input file
    cannot be loaded, the run fails after the one call that tried: the
    failure is reported on [stderr], the output file is not opened, and
    nothing is fetched or written. *)
Theorem load_failure_is_fatal E opts input regions format0 s0 :
  Forall goes_on opts ->
  regions <> [] \/ last_optarg "r" opts <> None ->
  fai_load_format E input (if has_opt "f" opts then FAI_FASTQ else format0)
  = None ->
  faidx_core E opts (input :: regions) format0 s0
  = Some (EXIT_FAILURE,
          log_err ["[faidx] Could not load fai index of " +++ input +++ NL]
            (log_calls [Efai_load_format input
                          (if has_opt "f" opts then FAI_FASTQ else format0)]
               (log_err (option_warnings E opts) s0))).
Proof.
  intros H Hreg Hload. unfold faidx_core. unfold bind at 1.
  rewrite getopt_loop_options_of by exact H.
  change (format (options_of E format0 opts))
    with (if has_opt "f" opts then FAI_FASTQ else format0).
  change (region_file (options_of E format0 opts))
    with (match last_optarg "r" opts with
          | Some a => Some a
          | None => None
          end).
  assert (Hsel : (match regions with [] => true | _ => false end)
                 && (match (match last_optarg "r" opts with
                            | Some a => Some a
                            | None => None
                            end) with None => true | _ => false end)
                 = false).
  { destruct regions; [|reflexivity].
    destruct (last_optarg "r" opts); [reflexivity|].
    now destruct Hreg. }
  rewrite Hsel, Hload. reflexivity.
Qed.

Lemma load_failure_is_fatal_witness :
  faidx_core Sample.E [("o"%char, "out.fa"%string)]
             ["other.fa"; "chr1"]%string FAI_FASTA Sample.s0
  = Some (EXIT_FAILURE,
          log_err ["[faidx] Could not load fai index of " +++ "other.fa"
                   +++ NL]
            (log_calls [Efai_load_format "other.fa"
                          (if has_opt "f" [("o"%char, "out.fa"%string)]
                           then FAI_FASTQ else FAI_FASTA)]
               (log_err (option_warnings Sample.E
                           [("o"%char, "out.fa"%string)]) Sample.s0))).
Proof.
  apply (load_failure_is_fatal Sample.E [("o"%char, "out.fa"%string)]
           "other.fa" ["chr1"%string] FAI_FASTA Sample.s0).
  - repeat constructor; cbn; discriminate.
  - left. discriminate.
  - reflexivity.
Defined.

(** X7. When the output file given with [-o] cannot be opened, the run
    fails with the message that names the file and the system error.  Its
    only calls are the load of the index and the [fopen]: nothing is
    fetched or written, and the index just loaded is not released. *)
Theorem output_open_failure_is_fatal
    E opts input regions format0 fai output s0 :
  Forall goes_on opts ->
  regions <> [] \/ region_file (options_of E format0 opts) <> None ->
  fai_load_format E input (format (options_of E format0 opts)) = Some fai ->
  output_file (options_of E format0 opts) = Some output ->
  output <> input ->
  fopen E output = None ->
  faidx_core E opts (input :: regions) format0 s0
  = Some (EXIT_FAILURE,
          log_err [output_file_message E output]
            (log_calls
               [Efai_load_format input (format (options_of E format0 opts));
                Efopen output]
               (log_err (option_warnings E opts) s0))).
Proof.
  intros H Hreg Hload Hout Hne Hopen.
  rewrite faidx_core_options_load by assumption.
  cbv zeta. rewrite Hload, Hout.
  apply String.eqb_neq in Hne. rewrite Hne.
  rewrite bind_call, Hopen, log_calls_log_calls. reflexivity.
Qed.

Lemma output_open_failure_is_fatal_witness :
  faidx_core Sample.E [("o"%char, "/nonexistent/out.fa"%string)]
             ("in.fa"%string :: ["chr1"%string]) FAI_FASTA Sample.s0
  = Some (EXIT_FAILURE,
          log_err [output_file_message Sample.E "/nonexistent/out.fa"]
            (log_calls
               [Efai_load_format "in.fa"
                  (format (options_of Sample.E FAI_FASTA
                             [("o"%char, "/nonexistent/out.fa"%string)]));
                Efopen "/nonexistent/out.fa"]
               (log_err (option_warnings Sample.E
                           [("o"%char, "/nonexistent/out.fa"%string)])
                        Sample.s0))).
Proof.
  apply (output_open_failure_is_fatal Sample.E
           [("o"%char, "/nonexistent/out.fa"%string)] "in.fa"
           ["chr1"%string] FAI_FASTA Sample.fai "/nonexistent/out.fa"
           Sample.s0).
  - repeat constructor; cbn; discriminate.
  - left. discriminate.
  - reflexivity.
  - reflexivity.
  - discriminate.
  - reflexivity.
Defined.

(** X8. When the region file given with [-r] cannot be opened, the run
    fails and fetches nothing, the regions of the command line included:
    after the calls that open the run the only calls are the [hopen] that
    failed and those that close the run, so that the index is released;
    the failure is reported, and nothing is written to the output. *)
Theorem unreadable_region_file_skips_regions
    E opts input regions format0 fai rfn s0 :
  Forall goes_on opts ->
  region_file (options_of E format0 opts) = Some rfn ->
  hopen E rfn = None ->
  fai_load_format E input (format (options_of E format0 opts)) = Some fai ->
  output_opens E (options_of E format0 opts) input ->
  exists s',
    faidx_core E opts (input :: regions) format0 s0
    = Some (EXIT_FAILURE, s')
    /\ trace s'
       = trace s0 ++ opening_calls (options_of E format0 opts) input
         ++ Ehopen rfn :: closing_calls (options_of E format0 opts)
    /\ In (region_file_message rfn) (err s')
    /\ get_out (file_out_of (options_of E format0 opts)) s'
       = get_out (file_out_of (options_of E format0 opts))
           (opened_state E (options_of E format0 opts) input s0).
Proof.
  intros H Hrf Hhopen Hload Hout.
  rewrite (faidx_core_options_regions E opts input regions format0 fai)
    by (trivial; right; congruence).
  set (v := options_of E format0 opts) in *.
  set (s1 := opened_state E v input (log_err (option_warnings E opts) s0)).
  unfold faidx_core_regions, faidx_core_region_file. rewrite Hrf.
  unfold bind at 1. rewrite bind_call, Hhopen.
  unfold bind at 1. change (fprintf stderr ?m) with (eprintf m).
  unfold eprintf at 1. unfold ret at 1.
  unfold bind at 1. rewrite positional_loop_failed.
  rewrite faidx_core_release_exact.
  eexists. split.
  { f_equal. f_equal.
    match goal with |- (if ?b then _ else _) = _ => now destruct b end. }
  split.
  { cbn [trace log_calls log_err].
    assert (T1 : trace s1 = trace s0 ++ opening_calls v input)
      by (unfold s1; now rewrite trace_opened_state).
    rewrite T1. unfold closing_calls.
    destruct (output_file v); cbn; now rewrite <- !app_assoc. }
  split.
  { cbn [err log_calls log_err]. apply in_or_app. left.
    apply in_or_app. right. now left. }
  unfold s1, opened_state, file_out_of.
  destruct (output_file v) as [o|]; [|reflexivity].
  now destruct (fopen E o).
Qed.

Lemma unreadable_region_file_skips_regions_witness :
  exists s',
    faidx_core Sample.E [("r"%char, "missing.txt"%string)]
               ("in.fa"%string :: ["chr1"%string]) FAI_FASTA Sample.s0
    = Some (EXIT_FAILURE, s')
    /\ trace s'
       = trace Sample.s0
         ++ opening_calls (options_of Sample.E FAI_FASTA
                             [("r"%char, "missing.txt"%string)]) "in.fa"
         ++ Ehopen "missing.txt"
            :: closing_calls (options_of Sample.E FAI_FASTA
                                [("r"%char, "missing.txt"%string)])
    /\ In (region_file_message "missing.txt") (err s')
    /\ get_out (file_out_of (options_of Sample.E FAI_FASTA
                               [("r"%char, "missing.txt"%string)])) s'
       = get_out (file_out_of (options_of Sample.E FAI_FASTA
                                 [("r"%char, "missing.txt"%string)]))
           (opened_state Sample.E
              (options_of Sample.E FAI_FASTA
                 [("r"%char, "missing.txt"%string)]) "in.fa" Sample.s0).
Proof.
  apply (unreadable_region_file_skips_regions Sample.E
           [("r"%char, "missing.txt"%string)] "in.fa" ["chr1"%string]
           FAI_FASTA Sample.fai "missing.txt" Sample.s0).
  - repeat constructor; cbn; discriminate.
  - reflexivity.
  - reflexivity.
  - reflexivity.
  - exact I.
Defined.

(** X9. A region file that cannot be closed only gives a warning: when
    no buffer is passed to [free] twice, the reader of the region file
    returns, the status of the region file is the one it returned, and
    the state is the one it left, with the call of [hclose] and the
    warning added. *)
Theorem close_failure_is_only_a_warning E v fai file_out rfn rf s :
  1 <= line_len v <= INT_MAX ->
  region_file v = Some rfn ->
  hopen E rfn = Some rf ->
  hclose E <> 0 ->
  no_double_free fai (ignore_error v) (format v) (get_out file_out s) rf ->
  exists x s1,
    read_regions_from_file E fai rf file_out (ignore_error v) (line_len v)
      (format v) (log_calls [Ehopen rfn] s) = Some (x, s1)
    /\ faidx_core_region_file E v fai file_out s
       = Some (x, log_err [close_warning rfn] (log_calls [Ehclose] s1)).
Proof.
  intros HW Hrf Hopen Hclose Hsafe.
  assert (Hread : exists x s1,
    read_regions_from_file E fai rf file_out (ignore_error v) (line_len v)
      (format v) (log_calls [Ehopen rfn] s) = Some (x, s1)).
  { destruct rf as [|line rf].
    - rewrite read_regions_from_file_empty. now eexists _, _.
    - rewrite read_regions_from_file_in_order by (trivial; discriminate).
      destruct (process_in_order_post E fai file_out (ignore_error v)
                  (line_len v) (format v) HW (line :: rf)
                  (log_calls [Ehopen rfn] s))
        as (x & s1 & _ & _ & _ & -> & _); [now destruct file_out|].
      now eexists _, _. }
  destruct Hread as (x & s1 & Hread). exists x, s1.
  split; [exact Hread|].
  unfold faidx_core_region_file. rewrite Hrf, bind_call, Hopen.
  unfold bind at 1. rewrite Hread, bind_call.
  apply Z.eqb_neq in Hclose. rewrite Hclose. reflexivity.
Qed.

Lemma close_failure_is_only_a_warning_witness :
  exists x s1,
    read_regions_from_file Sample3.E Sample.fai
      ["chr1"; "nosuch"; "chr2"; "chr3"]%string stdout
      (ignore_error (mkLocals true 60 None (Some "regions.txt"%string)
                              FAI_FASTA))
      (line_len (mkLocals true 60 None (Some "regions.txt"%string)
                          FAI_FASTA))
      (format (mkLocals true 60 None (Some "regions.txt"%string)
                        FAI_FASTA))
      (log_calls [Ehopen "regions.txt"] Sample.s0) = Some (x, s1)
    /\ faidx_core_region_file Sample3.E
         (mkLocals true 60 None (Some "regions.txt"%string) FAI_FASTA)
         Sample.fai stdout Sample.s0
       = Some (x, log_err [close_warning "regions.txt"]
                    (log_calls [Ehclose] s1)).
Proof.
  apply (close_failure_is_only_a_warning Sample3.E
           (mkLocals true 60 None (Some "regions.txt"%string) FAI_FASTA)
           Sample.fai stdout "regions.txt"
           ["chr1"; "nosuch"; "chr2"; "chr3"]%string Sample.s0).
  - cbn. unfold INT_MAX. lia.
  - reflexivity.
  - reflexivity.
  - discriminate.
  - now left.
Defined.

(** X10. The calls of a run that gets to the regions and passes no
    buffer to [free] twice follow one protocol: the index is loaded, then
    the output file is opened if [-o] is given; then come only fetches,
    the release of their buffers and the opening and closing of the
    region file; then the index is released, once, the output is flushed,
    and the output is closed if and only if the run opened it. *)
Theorem calls_follow_the_protocol E opts input regions format0 fai s0 :
  Forall goes_on opts ->
  regions <> [] \/ region_file (options_of E format0 opts) <> None ->
  fai_load_format E input (format (options_of E format0 opts)) = Some fai ->
  output_opens E (options_of E format0 opts) input ->
  no_double_free fai (ignore_error (options_of E format0 opts))
    (format (options_of E format0 opts))
    (get_out (file_out_of (options_of E format0 opts))
             (opened_state E (options_of E format0 opts) input s0))
    (region_lines E (options_of E format0 opts) ++ regions) ->
  exists exit s' middle,
    faidx_core E opts (input :: regions) format0 s0 = Some (exit, s')
    /\ trace s'
       = trace s0 ++ opening_calls (options_of E format0 opts) input
         ++ middle ++ closing_calls (options_of E format0 opts)
    /\ forallb is_region_call middle = true.
Proof.
  intros H Hreg Hload Hout Hsafe.
  rewrite (faidx_core_options_regions E opts input regions format0 fai)
    by trivial.
  destruct (faidx_core_regions_protocol E (options_of E format0 opts) fai
              (file_out_of (options_of E format0 opts)) regions
              (opened_state E (options_of E format0 opts) input
                 (log_err (option_warnings E opts) s0))
              (options_of_line_len E format0 opts))
    as (exit & s' & middle & -> & _ & T & Hmid).
  { rewrite get_out_opened_state_log_err. exact Hsafe. }
  exists exit, s', middle. split; [reflexivity|]. split; [|exact Hmid].
  rewrite T, trace_opened_state by exact Hout.
  cbn [trace log_err]. now rewrite <- !app_assoc.
Qed.

Lemma calls_follow_the_protocol_witness :
  exists exit s' middle,
    faidx_core Sample.E
      [("o"%char, "out.fa"%string); ("r"%char, "regions.txt"%string)]
      ("in.fa"%string :: ["chr2"%string]) FAI_FASTQ Sample.s0
    = Some (exit, s')
    /\ trace s'
       = trace Sample.s0
         ++ opening_calls
              (options_of Sample.E FAI_FASTQ
                 [("o"%char, "out.fa"%string);
                  ("r"%char, "regions.txt"%string)]) "in.fa"
         ++ middle
         ++ closing_calls
              (options_of Sample.E FAI_FASTQ
                 [("o"%char, "out.fa"%string);
                  ("r"%char, "regions.txt"%string)])
    /\ forallb is_region_call middle = true.
Proof.
  apply (calls_follow_the_protocol Sample.E
           [("o"%char, "out.fa"%string); ("r"%char, "regions.txt"%string)]
           "in.fa" ["chr2"%string] FAI_FASTQ Sample.fai Sample.s0).
  - repeat constructor; cbn; discriminate.
  - left. discriminate.
  - reflexivity.
  - split; discriminate.
  - right. split; [split; reflexivity|].
    assert (F1 : frees_once Sample.fai false "chr1")
      by (right; left; split; vm_compute; congruence).
    assert (F2 : frees_once Sample.fai false "chr2")
      by (right; left; split; vm_compute; congruence).
    assert (F3 : frees_once Sample.fai false "chr3")
      by (right; left; split; vm_compute; congruence).
    assert (F4 : frees_once Sample.fai false "nosuch")
      by (left; reflexivity).
    change (Forall (frees_once Sample.fai false)
              ["chr1"; "nosuch"; "chr2"; "chr3"; "chr2"]%string).
    repeat apply Forall_cons; trivial.
Defined.

(** X11. With options that do not end the option loop, [-o] among
    them, and an input file on the command line, a run that returns has
    written nothing to [stdout], whatever happened: records go to the
    file opened for [-o], messages to [stderr].  In FASTA format, where
    no buffer is freed twice, the run does return. *)
Theorem output_option_keeps_stdout E opts input regions format0 s0 :
  Forall goes_on opts ->
  output_file (options_of E format0 opts) <> None ->
  (forall exit s',
     faidx_core E opts (input :: regions) format0 s0 = Some (exit, s') ->
     std s' = std s0)
  /\ (format (options_of E format0 opts) = FAI_FASTA ->
      exists exit s',
        faidx_core E opts (input :: regions) format0 s0 = Some (exit, s')).
Proof.
  intros H Hout. split.
  - intros exit s' Hrun.
    exact (writes_to_faidx_core E opts input regions format0 H Hout
             s0 exit s' Hrun).
  - intros Hfmt.
    destruct (options_of_fields E format0 opts) as (_ & _ & _ & Hf).
    rewrite Hf in Hfmt.
    destruct (has_opt "f" opts) eqn:Hopt; [discriminate|]. subst format0.
    destruct (faidx_core_total E opts (input :: regions) s0 Hopt)
      as (exit & s' & Hrun & _).
    now exists exit, s'.
Qed.

Lemma output_option_keeps_stdout_witness :
  (forall exit s',
     faidx_core Sample.E
       [("o"%char, "out.fa"%string); ("c"%char, EmptyString)]
       ("in.fa"%string :: ["chr1"; "nosuch"; "chr2"]%string) FAI_FASTA
       Sample.s0
     = Some (exit, s') ->
     std s' = std Sample.s0)
  /\ (format (options_of Sample.E FAI_FASTA
                [("o"%char, "out.fa"%string); ("c"%char, EmptyString)])
      = FAI_FASTA ->
      exists exit s',
        faidx_core Sample.E
          [("o"%char, "out.fa"%string); ("c"%char, EmptyString)]
          ("in.fa"%string :: ["chr1"; "nosuch"; "chr2"]%string) FAI_FASTA
          Sample.s0
        = Some (exit, s')).
Proof.
  apply (output_option_keeps_stdout Sample.E
           [("o"%char, "out.fa"%string); ("c"%char, EmptyString)]
           "in.fa" ["chr1"; "nosuch"; "chr2"]%string FAI_FASTA Sample.s0).
  - repeat constructor; cbn; discriminate.
  - discriminate.
Defined.

(** X12. Take a run whose options do not end the option loop, whose
    index loads, whose output opens and takes every write, whose region
    file, if one is given, opens and has a line, and all of whose
    regions are fine (each one is in the index, or is not found while
    continue mode is on).  It succeeds; it fetches every region, the
    lines of the region file first and the regions of the command line
    after them, and the output gets their texts in this order, each one
    wrapped at the line length of the options. *)
Theorem fine_regions_give_their_records
    E opts input regions format0 fai s0 :
  Forall goes_on opts ->
  regions <> [] \/ region_file (options_of E format0 opts) <> None ->
  fai_load_format E input (format (options_of E format0 opts)) = Some fai ->
  output_opens E (options_of E format0 opts) input ->
  healthy (get_out (file_out_of (options_of E format0 opts))
                   (opened_state E (options_of E format0 opts) input s0)) ->
  region_file_ok E (options_of E format0 opts) ->
  Forall (region_fine fai (ignore_error (options_of E format0 opts))
                      (format (options_of E format0 opts)))
         (region_lines E (options_of E format0 opts) ++ regions) ->
  exists s',
    faidx_core E opts (input :: regions) format0 s0
    = Some (EXIT_SUCCESS, s')
    /\ fetches (trace s')
       = fetches (trace s0)
         ++ region_lines E (options_of E format0 opts) ++ regions
    /\ contents (get_out (file_out_of (options_of E format0 opts)) s')
       = contents (get_out (file_out_of (options_of E format0 opts))
                     (opened_state E (options_of E format0 opts) input s0))
         ++ flat_map (emitted_text fai
                        (line_len (options_of E format0 opts))
                        (format (options_of E format0 opts)))
                     (region_lines E (options_of E format0 opts)
                      ++ regions).
Proof.
  intros H Hreg Hload Hout Hh Hrf Hfine.
  rewrite (faidx_core_options_regions E opts input regions format0 fai)
    by trivial.
  set (v := options_of E format0 opts) in *.
  set (s1 := opened_state E v input (log_err (option_warnings E opts) s0)).
  assert (Hsame : get_out (file_out_of v) s1
                  = get_out (file_out_of v) (opened_state E v input s0)).
  { unfold s1, opened_state, file_out_of.
    destruct (output_file v) as [o|]; [|reflexivity].
    now destruct (fopen E o). }
  assert (HW : 1 <= line_len v <= INT_MAX)
    by apply options_of_line_len.
  destruct (faidx_core_regions_fine E v fai (file_out_of v) regions s1 HW)
    as (s' & Hrun & Hc & _); trivial.
  { now rewrite Hsame. }
  exists s'. split; [exact Hrun|]. split; [|now rewrite Hc, Hsame].
  destruct (faidx_core_regions_post E v fai (file_out_of v) regions s1 HW)
    as (x & s2 & evs & p & rest & Hrun2 & [G _] & Hp & HP & _).
  { rewrite Hsame. now apply region_fine_no_double_free. }
  rewrite Hrun in Hrun2. injection Hrun2 as <- <-.
  destruct HP as (Hall & _ & Hrest & _).
  destruct rest as [|r rest].
  2:{ discriminate Hrest. discriminate. }
  rewrite Hall, app_nil_r, G, fetches_app, Hp. f_equal.
  unfold s1. apply fetches_opened_state.
Qed.

Lemma fine_regions_give_their_records_witness :
  exists s',
    faidx_core Sample.E
      [("c"%char, EmptyString); ("n"%char, "50"%string);
       ("r"%char, "regions.txt"%string)]
      ("in.fa"%string :: ["chr2"%string]) FAI_FASTQ Sample.s0
    = Some (EXIT_SUCCESS, s')
    /\ fetches (trace s')
       = fetches (trace Sample.s0)
         ++ region_lines Sample.E
              (options_of Sample.E FAI_FASTQ
                 [("c"%char, EmptyString); ("n"%char, "50"%string);
                  ("r"%char, "regions.txt"%string)])
         ++ ["chr2"%string]
    /\ contents
         (get_out
            (file_out_of
               (options_of Sample.E FAI_FASTQ
                  [("c"%char, EmptyString); ("n"%char, "50"%string);
                   ("r"%char, "regions.txt"%string)])) s')
       = contents
           (get_out
              (file_out_of
                 (options_of Sample.E FAI_FASTQ
                    [("c"%char, EmptyString); ("n"%char, "50"%string);
                     ("r"%char, "regions.txt"%string)]))
              (opened_state Sample.E
                 (options_of Sample.E FAI_FASTQ
                    [("c"%char, EmptyString); ("n"%char, "50"%string);
                     ("r"%char, "regions.txt"%string)]) "in.fa" Sample.s0))
         ++ flat_map
              (emitted_text Sample.fai
                 (line_len
                    (options_of Sample.E FAI_FASTQ
                       [("c"%char, EmptyString); ("n"%char, "50"%string);
                        ("r"%char, "regions.txt"%string)]))
                 (format
                    (options_of Sample.E FAI_FASTQ
                       [("c"%char, EmptyString); ("n"%char, "50"%string);
                        ("r"%char, "regions.txt"%string)])))
              (region_lines Sample.E
                 (options_of Sample.E FAI_FASTQ
                    [("c"%char, EmptyString); ("n"%char, "50"%string);
                     ("r"%char, "regions.txt"%string)])
               ++ ["chr2"%string]).
Proof.
  apply (fine_regions_give_their_records Sample.E
           [("c"%char, EmptyString); ("n"%char, "50"%string);
            ("r"%char, "regions.txt"%string)]
           "in.fa" ["chr2"%string] FAI_FASTQ Sample.fai Sample.s0).
  - repeat constructor; cbn; discriminate.
  - left. discriminate.
  - reflexivity.
  - exact I.
  - split; reflexivity.
  - exists ["chr1"; "nosuch"; "chr2"; "chr3"]%string.
    split; [reflexivity | discriminate].
  - assert (V1 : valid_name Sample.fai FAI_FASTQ "chr1")
      by (split; [|intros _]; split; vm_compute; congruence).
    assert (V2 : valid_name Sample.fai FAI_FASTQ "chr2")
      by (split; [|intros _]; split; vm_compute; congruence).
    assert (V3 : valid_name Sample.fai FAI_FASTQ "chr3")
      by (split; [|intros _]; split; vm_compute; congruence).
    assert (N : not_found Sample.fai FAI_FASTQ "nosuch")
      by (split; [|intros _]; reflexivity).
    change (Forall (region_fine Sample.fai true FAI_FASTQ)
              ["chr1"; "nosuch"; "chr2"; "chr3"; "chr2"]%string).
    repeat apply Forall_cons;
      [now left | right; now split | now left | now left | now left
      | apply Forall_nil].
Defined.

(** X13. The FASTA command returns on every command line without [-f],
    in every environment and from every state of the streams, with
    status 0 or 1: the line length it hands to [write_line] is never less
    than one, so that the loop of [write_line] always ends, and in FASTA
    format no buffer is freed twice. *)
Theorem faidx_core_always_returns E opts args s0 :
  has_opt "f" opts = false ->
  exists exit s',
    faidx_main E opts args s0 = Some (exit, s')
    /\ (exit = EXIT_SUCCESS \/ exit = EXIT_FAILURE).
Proof. intros Hf. exact (faidx_core_total E opts args s0 Hf). Qed.

Lemma faidx_core_always_returns_witness :
  exists exit s',
    faidx_main Sample.E
      [("n"%char, "0"%string); ("r"%char, "regions.txt"%string)]
      ["in.fa"; "broken"]%string (Sample.s_room 100)
    = Some (exit, s')
    /\ (exit = EXIT_SUCCESS \/ exit = EXIT_FAILURE).
Proof.
  apply (faidx_core_always_returns Sample.E
           [("n"%char, "0"%string); ("r"%char, "regions.txt"%string)]
           ["in.fa"; "broken"]%string (Sample.s_room 100)).
  reflexivity.
Defined.

(** ** [write_line] and [write_output] at their edges *)

(** X14. [write_line] relies on its caller for a line length of at least
    one: with a line length of zero and a sequence that is not empty, on
    a stream that takes every write, its loop does not end, whatever the
    number of iterations it is allowed, and [write_line] does not
    return. *)
Theorem zero_line_length_never_returns
    E file line name ignore seq_len s :
  0 < seq_len <= INT_MAX ->
  healthy (get_out file s) ->
  (forall fuel, write_line_loop E fuel file line 0 seq_len 0 s = None)
  /\ write_line E file line name ignore 0 seq_len s = None.
Proof.
  intros Hsz Hs. split.
  - intros fuel. apply write_line_loop_zero_length; [lia | exact Hs].
  - rewrite write_line_fetched by lia.
    rewrite to_size_t_small by (unfold INT_MAX in Hsz; lia).
    apply write_line_loop_zero_length; [lia|]. now destruct file.
Qed.

Lemma zero_line_length_never_returns_witness :
  (forall fuel,
     write_line_loop Sample.E fuel stdout Sample.ACGT 0 4 0 Sample.s0
     = None)
  /\ write_line Sample.E stdout Sample.ACGT "chr2" false 0 4 Sample.s0
     = None.
Proof.
  apply (zero_line_length_never_returns Sample.E stdout Sample.ACGT
           "chr2" false 4 Sample.s0).
  - unfold INT_MAX. lia.
  - split; reflexivity.
Defined.

(** X15. On a stream with room for [r] bytes, fewer than the wrapped
    body has, [write_line] fails: the stream gets the first [r] bytes of
    the body and its error indicator is set, nothing is written after the
    write that fell short, and the failure is reported once, with the
    system error, after the warnings about the sequence. *)
Theorem short_write_is_reported_and_fatal
    E file line name ignore length seq_len s r :
  seq_len = Z.of_nat (List.length line) ->
  seq_len <= INT_MAX ->
  1 <= length <= INT_MAX ->
  room (get_out file s) = Some r ->
  (r < List.length (wrapped (Z.to_nat length) line))%nat ->
  exists s',
    write_line E file line name ignore length seq_len s
    = Some (EXIT_FAILURE, s')
    /\ contents (get_out file s')
       = contents (get_out file s)
         ++ firstn r (wrapped (Z.to_nat length) line)
    /\ ferror (get_out file s') = true
    /\ err s'
       = err s ++ write_line_warnings E name seq_len
         ++ [write_error_message E]
    /\ trace s' = trace s.
Proof.
  intros Hbuf HL HW Hroom Hr.
  rewrite (write_line_short E file line name ignore length seq_len s r)
    by assumption.
  eexists. split; [reflexivity|].
  destruct file; cbn; repeat split; reflexivity.
Qed.

Lemma short_write_is_reported_and_fatal_witness :
  exists s',
    write_line Sample.E stdout Sample.ACGTACG "chr2:1-10" false 3 7
               (Sample.s_room 5)
    = Some (EXIT_FAILURE, s')
    /\ contents (get_out stdout s')
       = contents (get_out stdout (Sample.s_room 5))
         ++ firstn 5 (wrapped (Z.to_nat 3) Sample.ACGTACG)
    /\ ferror (get_out stdout s') = true
    /\ err s'
       = err (Sample.s_room 5)
         ++ write_line_warnings Sample.E "chr2:1-10" 7
         ++ [write_error_message Sample.E]
    /\ trace s' = trace (Sample.s_room 5).
Proof.
  apply (short_write_is_reported_and_fatal Sample.E stdout Sample.ACGTACG
           "chr2:1-10" false 3 7 (Sample.s_room 5) 5%nat).
  - reflexivity.
  - unfold INT_MAX. lia.
  - unfold INT_MAX. lia.
  - reflexivity.
  - vm_compute. lia.
Defined.



(** X17. A sequence that cannot be fetched, and is not tolerated as not
    found, ends its record after the header line: the failure is
    reported, the buffer is freed, the status is failure, and for FASTQ
    neither the separator line is written nor the quality fetched. *)
Theorem failed_sequence_ends_the_record
    E faid file name ignore length format s :
  healthy (get_out file s) ->
  INT_MIN <= snd (fai_fetch faid name) < 0 ->
  ~ (ignore = true /\ snd (fai_fetch faid name) = -2) ->
  write_output E faid file name ignore length format s
  = Some (EXIT_FAILURE,
          upd file (header_text format name) [failed_fetch_message name]
              [Efai_fetch name; Efree Seq] s).
Proof.
  intros Hs Hseq Hnot.
  unfold write_output. rewrite bind_call.
  assert (H0 : healthy (get_out file (log_calls [Efai_fetch name] s)))
    by now destruct file.
  unfold bind at 1.
  assert (Hhead :
    (if format_eqb format FAI_FASTA
     then fprintf file (">" +++ name +++ NL)
     else fprintf file ("@" +++ name +++ NL))
      (log_calls [Efai_fetch name] s)
    = Some (tt, upd file (header_text format name) [] []
                  (log_calls [Efai_fetch name] s))).
  { unfold header_text.
    destruct (format_eqb format FAI_FASTA);
      now rewrite fprintf_healthy by exact H0. }
  rewrite Hhead. unfold bind at 1.
  rewrite to_int_small by (unfold INT_MAX; lia).
  rewrite write_line_failed_fetch by lia.
  assert ((ignore && (snd (fai_fetch faid name) =? -2)) = false) as ->.
  { destruct ignore; [|reflexivity]. cbn. apply Z.eqb_neq. intros H.
    apply Hnot. now split. }
  change (EXIT_FAILURE =? EXIT_FAILURE) with true. cbv iota.
  rewrite bind_call. unfold ret. do 2 f_equal.
  rewrite (log_calls_upd file [Efai_fetch name]),
    (log_err_upd file), (log_calls_upd file [Efree Seq]), !upd_upd.
  cbn [app]. now rewrite app_nil_r.
Qed.

Lemma failed_sequence_ends_the_record_witness :
  write_output Sample.E Sample.fai stdout "broken" true 60 FAI_FASTQ
               Sample.s0
  = Some (EXIT_FAILURE,
          upd stdout (header_text FAI_FASTQ "broken")
              [failed_fetch_message "broken"]
              [Efai_fetch "broken"; Efree Seq] Sample.s0).
Proof.
  apply (failed_sequence_ends_the_record Sample.E Sample.fai stdout
           "broken" true 60 FAI_FASTQ Sample.s0).
  - split; reflexivity.
  - change (INT_MIN <= -1 < 0). unfold INT_MIN. lia.
  - intros [_ H]. discriminate H.
Defined.

(** X18. With a line length of zero, on a stream with room for [r]
    bytes, [write_line] writes [r] newlines, one in each iteration, and
    fails when the stream is full: the loop ends through the failed
    write and not through its condition. *)
Theorem zero_line_length_fills_the_stream
    E file line name ignore seq_len s r :
  0 < seq_len <= INT_MAX ->
  room (get_out file s) = Some r ->
  write_line E file line name ignore 0 seq_len s
  = Some (EXIT_FAILURE,
          log_err (write_line_warnings E name seq_len
                   ++ [write_error_message E])
            (set_out file
               (mkFILE (contents (get_out file s) ++ repeat nl r)
                       (Some 0%nat) true) s)).
Proof.
  intros Hsz Hroom.
  rewrite write_line_fetched by lia.
  rewrite to_size_t_small by (unfold INT_MAX in Hsz; lia).
  rewrite (write_line_loop_zero_length_room E file line seq_len
             ltac:(lia) r).
  - rewrite !log_err_set_out, log_err_log_err. now destruct file.
  - now destruct file.
  - unfold room_fuel. rewrite Hroom. lia.
Qed.

Lemma zero_line_length_fills_the_stream_witness :
  write_line Sample.E stdout Sample.ACGT "chr2" false 0 4 (Sample.s_room 6)
  = Some (EXIT_FAILURE,
          log_err (write_line_warnings Sample.E "chr2" 4
                   ++ [write_error_message Sample.E])
            (set_out stdout
               (mkFILE (contents (get_out stdout (Sample.s_room 6))
                        ++ repeat nl 6)
                       (Some 0%nat) true) (Sample.s_room 6))).
Proof.
  apply (zero_line_length_fills_the_stream Sample.E stdout Sample.ACGT
           "chr2" false 4 (Sample.s_room 6) 6%nat).
  - unfold INT_MAX. lia.
  - reflexivity.
Defined.
